(** * Shiitake monitoring system: the dashboard scripts and the local
      streaming scripts, embedded and checked against their description.

    Definitions:
    - [JsString]       the string methods the dashboard calls
    - [App]            deploy/frontend/js/app.js (video list filter and sort)
    - [Player]         deploy/frontend/js/kvs-player.js (KVSPlayer)
    - [Integration]    deploy/frontend/js/kvs-integration-simple.js
    - [Gst]            the GStreamer receiver pipeline of the launch lines
    - [Sh]             a small state-and-exit monad for the bash scripts
    - [StartStreaming] deploy/local/start_streaming.sh
    - [Entrypoint]     deploy/local/docker-entrypoint.sh
    - [Demo], [Startup] hosts, environments and the two scripts side by side
    - [Core]           the frame pipeline of stream_to_kvs.py
    - [Sink], [Orchestrator] its stream sink and its orchestrator
    - [Outcome]        what the scripts decide and what they let out
    - [Dashboard]      app.js: labels, cards, statistics, loading, badge
    - [PlayerOps]      kvs-player.js: play, refresh, error recovery, timers
    - [LiveUi]         kvs-integration-simple.js: stop, mode switch, formats

    Properties, one module per part: [AppFacts], [PlayerFacts],
    [IntegrationFacts], [StartupFacts], [StreamFacts], [CoreFacts],
    [SinkFacts], [OrchestratorFacts], [ConfigFacts], [ScriptFacts],
    [WireFacts], [DashboardFacts], [PlayerOpsFacts], [LiveUiFacts]. *)

From Stdlib Require Import ZArith List String Ascii Bool Lia DecimalString.
From Stdlib Require Import Permutation Sorted.
Import ListNotations.

Local Open Scope string_scope.
Local Open Scope Z_scope.

(** ** JavaScript strings, as far as the dashboard uses them *)

Module JsString.

(** A string is held as the sequence of its characters, a character
    outside ASCII as the bytes of its UTF-8 form.

    [String.prototype.toLowerCase] is the browser's own: it folds by the
    Unicode case tables, letters outside ASCII included, and those tables
    are no part of the repository.  The functions of the dashboard that
    call it take it as a parameter of this type. *)
Definition LowerCase : Type := string -> string.

(** What it does to a string of ASCII characters, for trying the functions
    out on sample keys. *)
Definition lower_ascii (c : ascii) : ascii :=
  let n := N_of_ascii c in
  if ((65 <=? n) && (n <=? 90))%N then ascii_of_N (n + 32) else c.

Fixpoint ascii_toLowerCase (s : string) : string :=
  match s with
  | EmptyString => EmptyString
  | String c s' => String (lower_ascii c) (ascii_toLowerCase s')
  end.

(** [String.prototype.includes]: [t] occurs in [s] as a contiguous run. *)
Fixpoint includes (s t : string) : bool :=
  String.prefix t s ||
  match s with
  | EmptyString => false
  | String _ s' => includes s' t
  end.

End JsString.

(** ** app.js *)

Module App.

Import JsString.

(** One entry of [data.videos].  [last_modified] holds the epoch
    milliseconds that [new Date(video.last_modified)] evaluates to, [size]
    the byte count. *)
Record Video := mkVideo {
  key : string;
  last_modified : Z;
  size : Z
}.

(** The fields of the [state] object that [filterAndSortVideos] touches. *)
Record State := mkState {
  videos : list Video;
  filteredVideos : list Video;
  isLoading : bool
}.

(** The two form controls read by [filterAndSortVideos]. *)
Record Elements := mkElements {
  searchInput_value : string;
  sortSelect_value : string
}.

(** The comparator handed to [sort]: the [switch (sortBy)] of the source. *)
Definition compareFn (sortBy : string) (a b : Video) : Z :=
  if String.eqb sortBy "newest" then last_modified b - last_modified a
  else if String.eqb sortBy "oldest" then last_modified a - last_modified b
  else if String.eqb sortBy "size-desc" then size b - size a
  else if String.eqb sortBy "size-asc" then size a - size b
  else 0.

Section ArraySort.

Variable A : Type.
Variable cmp : A -> A -> Z.

(** [Array.prototype.sort] is stable (ECMAScript 2019): an element moves
    behind another one only when the comparator is positive on the pair. *)
Fixpoint insert (x : A) (l : list A) : list A :=
  match l with
  | [] => [x]
  | y :: l' => if 0 <? cmp x y then y :: insert x l' else x :: l
  end.

Definition array_sort (l : list A) : list A := fold_right insert [] l.

End ArraySort.

Arguments insert {A} cmp x l.
Arguments array_sort {A} cmp l.

Section Filter.

Variable toLowerCase : LowerCase.

(** The callback of [filter]. *)
Definition matches (searchTerm : string) (video : Video) : bool :=
  includes (toLowerCase (key video)) searchTerm.

Definition filterAndSortVideos (els : Elements) (st : State) : State :=
  let searchTerm := toLowerCase (searchInput_value els) in
  let sortBy := sortSelect_value els in
  let filtered := filter (matches searchTerm) (videos st) in
  mkState (videos st) (array_sort (compareFn sortBy) filtered) (isLoading st).

End Filter.

(** The order each recognised criterion asks for. *)
Definition newest_first (a b : Video) : Prop := last_modified b <= last_modified a.
Definition oldest_first (a b : Video) : Prop := last_modified a <= last_modified b.
Definition largest_first (a b : Video) : Prop := size b <= size a.
Definition smallest_first (a b : Video) : Prop := size a <= size b.

Definition recognised (sortBy : string) : bool :=
  String.eqb sortBy "newest" || String.eqb sortBy "oldest" ||
  String.eqb sortBy "size-desc" || String.eqb sortBy "size-asc".

End App.

(** ** kvs-player.js *)

Module Player.

(** A JavaScript reference-valued field: never assigned, [null], or an
    object. *)
Inductive JsRef (A : Type) : Type :=
| JsUndefined
| JsNull
| JsObject (a : A).

Arguments JsUndefined {A}.
Arguments JsNull {A}.
Arguments JsObject {A} a.

(** Truthiness as tested by [if (this.hls)]. *)
Definition truthy {A : Type} (r : JsRef A) : bool :=
  match r with
  | JsObject _ => true
  | _ => false
  end.

(** The [Hls] object of HLS.js, as far as the scripts drive it. *)
Record Hls := mkHls {
  lowLatencyMode : bool;
  loadedSource : option string;
  attachedMedia : bool
}.

(** The [<video>] element the player is bound to. *)
Record VideoElement := mkVideoElement {
  src : string;
  paused : bool
}.

Record Config := mkConfig {
  streamName : string;
  region : string;
  refreshInterval : Z
}.

(** The fields of a [KVSPlayer] instance.  [refreshTimer] is [null] ([None])
    or an interval id; [setInterval] hands out integers greater than zero,
    hence [positive].  [videoElement] is a reference to the page's element
    and lives in [Page]. *)
Record KVSPlayer := mkKVSPlayer {
  config : Config;
  hlsUrl : option string;
  hls : JsRef Hls;
  refreshTimer : option positive;
  isPlaying : bool
}.

(** [this] together with the element [this.videoElement] points to. *)
Record Page := mkPage {
  video : VideoElement;
  kvs : KVSPlayer
}.

(** What a method does to the outside, in program order. *)
Inductive Effect : Type :=
| HlsDestroy
| VideoPause
| ClearInterval (id : positive)
| SetInterval (id : positive) (delay : Z).

(** [constructor(videoElement, config = {})]: an absent option takes its
    default; [hls] is not assigned. *)
Definition constructor (streamName_opt region_opt : option string)
           (refreshInterval_opt : option Z) : KVSPlayer :=
  mkKVSPlayer
    (mkConfig (match streamName_opt with Some n => n | None => "dockerStream" end)
              (match region_opt with Some r => r | None => "ap-northeast-1" end)
              (match refreshInterval_opt with Some i => i | None => 60000 end))
    None JsUndefined None false.

Definition set_hls (h : JsRef Hls) (p : KVSPlayer) : KVSPlayer :=
  mkKVSPlayer (config p) (hlsUrl p) h (refreshTimer p) (isPlaying p).

Definition set_refreshTimer (t : option positive) (p : KVSPlayer) : KVSPlayer :=
  mkKVSPlayer (config p) (hlsUrl p) (hls p) t (isPlaying p).

Definition set_isPlaying (b : bool) (p : KVSPlayer) : KVSPlayer :=
  mkKVSPlayer (config p) (hlsUrl p) (hls p) (refreshTimer p) b.

(** [stop()]. *)
Definition stop (pg : Page) : Page * list Effect :=
  let p := kvs pg in
  let '(p1, e1) :=
    if truthy (hls p) then (set_hls JsNull p, [HlsDestroy]) else (p, []) in
  let v1 := mkVideoElement "" true in
  let '(p2, e2) :=
    match refreshTimer p1 with
    | Some id => (set_refreshTimer None p1, [ClearInterval id])
    | None => (p1, [])
    end in
  (mkPage v1 (set_isPlaying false p2), (e1 ++ [VideoPause] ++ e2)%list).

(** [setupRefreshTimer()]; [fresh] is the id [setInterval] returns. *)
Definition setupRefreshTimer (fresh : positive) (p : KVSPlayer)
  : KVSPlayer * list Effect :=
  let e1 := match refreshTimer p with
            | Some id => [ClearInterval id]
            | None => []
            end in
  (set_refreshTimer (Some fresh) p,
   (e1 ++ [SetInterval fresh (refreshInterval (config p))])%list).

(** [get playing()]. *)
Definition playing (p : KVSPlayer) : bool := isPlaying p.

(** A player straight out of the constructor, on a page whose video element
    has no source yet. *)
Definition fresh_page : Page :=
  mkPage (mkVideoElement "" true) (constructor None None None).

End Player.

(** ** kvs-integration-simple.js *)

Module Integration.

Import Player.

(** [CONFIG]; [API_BASE_URL] is [window.location.origin + '/api']. *)
Record CONFIG := mkCONFIG {
  API_BASE_URL : string;
  KVS_STREAM_NAME : string;
  KVS_REGION : string
}.

Inductive StreamMode : Type := Live | TimeRange.

(** The [state] object. *)
Record State := mkState {
  kvsPlayer : option KVSPlayer;
  streamMode : StreamMode;
  isPlaying : bool
}.

(** The parts of [elements] that time-range playback reads or writes.
    [videoElement] is [None] when [getElementById] found nothing. *)
Record Elements := mkElements {
  videoElement : option VideoElement;
  videoElement_display : string;
  placeholder_display : string;
  startTimeInput_value : string;
  endTimeInput_value : string;
  streamMessage : string;
  applyTimeRangeBtn_disabled : bool;
  applyTimeRangeBtn_text : string;
  statusBadge_text : string;
  statusBadge_className : string;
  streamModeDisplay : string;
  streamResolution : string;
  connectionTime : string
}.

(** A [Date]: [None] is Invalid Date, [Some t] is [t] milliseconds since the
    epoch.  Relational operators convert to numbers, and every comparison
    with [NaN] is false. *)
Definition JsDate := option Z.

Definition date_ge (a b : JsDate) : bool :=
  match a, b with
  | Some x, Some y => y <=? x
  | _, _ => false
  end.

Definition date_gt (a b : JsDate) : bool :=
  match a, b with
  | Some x, Some y => y <? x
  | _, _ => false
  end.

Definition date_lt (a b : JsDate) : bool :=
  match a, b with
  | Some x, Some y => x <? y
  | _, _ => false
  end.

(** The JSON body of the API answer, as far as its fields are read; a field
    is [None] when it is absent or falsy. *)
Record Body := mkBody {
  body_hlsUrl : option string;
  body_error : option string;
  body_message : option string
}.

(** What [await fetch(url)] followed by [response.json()] yields: a rejected
    fetch, or a response with its status and its body ([None]: not JSON). *)
Inductive FetchResult : Type :=
| FetchRejected (message : string)
| Response (ok : bool) (status : string) (body : option Body).

(** What the function cannot decide by itself.  [play_rejected] is how the
    promise of [videoElement.play()] settles: [None] when the browser
    starts the playback, [Some message] when it rejects it (autoplay not
    allowed, source not playable). *)
Record Browser := mkBrowser {
  now : Z;
  Date_parse : string -> JsDate;
  toISOString : Z -> string;
  toLocaleString : Z -> string;
  toLocaleTimeString : Z -> string;
  Hls_isSupported : bool;
  canPlayType_hls : bool;
  fetch : string -> FetchResult;
  play_rejected : option string
}.

Inductive Effect : Type :=
| Alert (message : string)
| Fetch (url : string)
| PlayerStopped (es : list Player.Effect)
| HlsLoadSource (url : string)
| VideoPlay.

(** The page as the function sees it. *)
Record World := mkWorld {
  elements : Elements;
  state : State;
  effects : list Effect
}.

Definition emit (e : Effect) (w : World) : World :=
  mkWorld (elements w) (state w) (effects w ++ [e])%list.

Definition set_elements (f : Elements -> Elements) (w : World) : World :=
  mkWorld (f (elements w)) (state w) (effects w).

Definition set_state (f : State -> State) (w : World) : World :=
  mkWorld (elements w) (f (state w)) (effects w).

Definition with_player (p : option KVSPlayer) (st : State) : State :=
  mkState p (streamMode st) (isPlaying st).

Definition with_isPlaying (b : bool) (st : State) : State :=
  mkState (kvsPlayer st) (streamMode st) b.

Definition with_video (v : option VideoElement) (e : Elements) : Elements :=
  mkElements v (videoElement_display e) (placeholder_display e)
    (startTimeInput_value e) (endTimeInput_value e) (streamMessage e)
    (applyTimeRangeBtn_disabled e) (applyTimeRangeBtn_text e)
    (statusBadge_text e) (statusBadge_className e) (streamModeDisplay e)
    (streamResolution e) (connectionTime e).

Definition with_connecting (e : Elements) : Elements :=
  mkElements (videoElement e) (videoElement_display e) (placeholder_display e)
    (startTimeInput_value e) (endTimeInput_value e)
    "時間指定ストリームに接続中..." true "接続中..."
    (statusBadge_text e) (statusBadge_className e) (streamModeDisplay e)
    (streamResolution e) (connectionTime e).

Definition with_failed (e : Elements) : Elements :=
  mkElements (videoElement e) (videoElement_display e) (placeholder_display e)
    (startTimeInput_value e) (endTimeInput_value e)
    "時間指定ストリーム接続に失敗しました" false "適用"
    (statusBadge_text e) (statusBadge_className e) (streamModeDisplay e)
    (streamResolution e) (connectionTime e).

Definition with_playing (mode clock : string) (e : Elements) : Elements :=
  mkElements (videoElement e) "block" "none"
    (startTimeInput_value e) (endTimeInput_value e) (streamMessage e)
    false "適用" "再生中" "status-badge online" mode "1280x720" clock.

(** [initKVSPlayer()]. *)
Definition initKVSPlayer (cfg : CONFIG) (w : World) : World :=
  match videoElement (elements w) with
  | None => w
  | Some _ =>
      set_state (with_player
                   (Some (constructor (Some (KVS_STREAM_NAME cfg))
                                      (Some (KVS_REGION cfg)) None))) w
  end.

(** The outcome of the [try] block: it ran to its end or returned early
    ([Done]), or an exception reached the [catch] ([Thrown]). *)
Inductive Completion : Type :=
| Done
| Thrown (message : string).

Definition apiUrl (cfg : CONFIG) (iso_start iso_end : string) : string :=
  API_BASE_URL cfg ++ "/kvs/hls-url?stream=" ++ KVS_STREAM_NAME cfg ++
  "&mode=on_demand&start=" ++ iso_start ++ "&end=" ++ iso_end.

Definition or_else (a : option string) (b : string) : string :=
  match a with Some s => s | None => b end.

(** Lines 213-216: the handler on the promise of [videoElement.play()].
    A promise settles once the code that made it has run on to its end, so
    the handler finds the page switched to playing and [state.isPlaying]
    set. *)
Definition playCatch (B : Browser) (w : World) : World :=
  match play_rejected B with
  | Some m => emit (Alert ("動画の再生に失敗しました: " ++ m)) w
  | None => w
  end.

(** The playback part of the [try] block, entered once [data.hlsUrl] is
    known.  A player exists only on a page that has the video element
    ([initKVSPlayer]), so the player is stopped on that element.  On the
    native path the function calls [play()] itself and the run ends with
    the settling of that promise.  On the HLS.js path it calls nothing of
    the kind: the two handlers it gives to HLS.js (lines 195-208) run when
    HLS.js reports a parsed manifest or an error, after this run if at
    all. *)
Definition startPlayback (B : Browser) (url : string) (startMs endMs : Z)
           (w : World) : World * Completion :=
  let w1 :=
    match isPlaying (state w), kvsPlayer (state w), videoElement (elements w) with
    | true, Some p, Some v =>
        let '(pg, es) := stop (mkPage v p) in
        emit (PlayerStopped es)
             (set_state (with_player (Some (kvs pg)))
                        (set_elements (with_video (Some (video pg))) w))
    | _, _, _ => w
    end in
  let played :=
    if Hls_isSupported B then
      match kvsPlayer (state w1) with
      | None => (w1, Thrown "Cannot read properties of null (reading 'hls')")
      | Some p =>
          let h := match hls p with
                   | JsObject h => h
                   | _ => mkHls false None true
                   end in
          let h' := mkHls (lowLatencyMode h) (Some url) (attachedMedia h) in
          (emit (HlsLoadSource url)
                (set_state (with_player (Some (set_hls (JsObject h') p))) w1),
           Done)
      end
    else
      match videoElement (elements w1) with
      | None => (w1, Thrown "Cannot read properties of null (reading 'canPlayType')")
      | Some v =>
          if canPlayType_hls B then
            (emit VideoPlay
                  (set_elements (with_video (Some (mkVideoElement url false))) w1),
             Done)
          else (w1, Thrown "このブラウザはHLS再生をサポートしていません")
      end in
  match played with
  | (w2, Thrown m) => (w2, Thrown m)
  | (w2, Done) =>
      match videoElement (elements w2) with
      | None => (set_elements
                   (fun e => mkElements (videoElement e) (videoElement_display e)
                      "none" (startTimeInput_value e) (endTimeInput_value e)
                      (streamMessage e) (applyTimeRangeBtn_disabled e)
                      (applyTimeRangeBtn_text e) (statusBadge_text e)
                      (statusBadge_className e) (streamModeDisplay e)
                      (streamResolution e) (connectionTime e)) w2,
                 Thrown "Cannot read properties of null (reading 'style')")
      | Some _ =>
          let mode := "時間指定 (" ++ toLocaleString B startMs ++ " - " ++
                      toLocaleString B endMs ++ ")" in
          let w3 :=
            set_state (with_isPlaying true)
              (set_elements (with_playing mode (toLocaleTimeString B (now B))) w2) in
          (if Hls_isSupported B then w3 else playCatch B w3, Done)
      end
  end.

(** The [try] block of [startTimeRangePlayback]. *)
Definition tryBlock (cfg : CONFIG) (B : Browser) (w : World) : World * Completion :=
  let startTime := startTimeInput_value (elements w) in
  let endTime := endTimeInput_value (elements w) in
  if String.eqb startTime "" || String.eqb endTime "" then
    (emit (Alert "開始時刻と終了時刻を両方指定してください") w, Done)
  else
    let startDate := Date_parse B startTime in
    let endDate := Date_parse B endTime in
    if date_ge startDate endDate then
      (emit (Alert "終了時刻は開始時刻よりも後に設定してください") w, Done)
    else if date_gt startDate (Some (now B)) then
      (emit (Alert "開始時刻が未来の時刻です。過去の時刻を指定してください。") w, Done)
    else
      match startDate, endDate with
      | Some s, Some e =>
          let w1 := set_elements with_connecting w in
          let w2 := match kvsPlayer (state w1) with
                    | None => initKVSPlayer cfg w1
                    | Some _ => w1
                    end in
          let url := apiUrl cfg (toISOString B s) (toISOString B e) in
          let w3 := emit (Fetch url) w2 in
          match fetch B url with
          | FetchRejected m => (w3, Thrown m)
          | Response false status body =>
              let detail :=
                match body with
                | None => "Unknown error"
                | Some b => or_else (body_error b) (or_else (body_message b) "Unknown")
                end in
              (w3, Thrown ("API Error: " ++ status ++ " - " ++ detail))
          | Response true _ None => (w3, Thrown "Unexpected end of JSON input")
          | Response true _ (Some b) =>
              match body_hlsUrl b with
              | None => (w3, Thrown "HLS URLが取得できませんでした")
              | Some hlsUrl => startPlayback B hlsUrl s e w3
              end
          end
      | _, _ => (w, Thrown "Invalid time value")
      end.

(** The [catch] block. *)
Definition catchBlock (message : string) (w : World) : World :=
  let errorMessage :=
    if JsString.includes message "ResourceNotFoundException" ||
       JsString.includes message "not found"
    then "指定した時間帯に録画データが存在しません。別の時間帯を試してください。"
    else message in
  emit (Alert ("時間指定ストリームの開始に失敗しました:" ++
               String "010"%char errorMessage))
       (set_elements with_failed w).

(** [startTimeRangePlayback()]. *)
Definition startTimeRangePlayback (cfg : CONFIG) (B : Browser) (w : World) : World :=
  match tryBlock cfg B w with
  | (w', Done) => w'
  | (w', Thrown m) => catchBlock m w'
  end.

(** Projections of the trace. *)
Definition is_fetch (e : Effect) : bool :=
  match e with Fetch _ => true | _ => false end.

Definition is_playback (e : Effect) : bool :=
  match e with HlsLoadSource _ | VideoPlay => true | _ => false end.

Definition is_alert (e : Effect) : bool :=
  match e with Alert _ => true | _ => false end.

(** A page for trying the function out: a clock, a parser that knows three
    timestamps, and an API that answers with a stream URL. *)
Definition demo_CONFIG : CONFIG :=
  mkCONFIG "https://shiitake.example/api" "dockerStream" "ap-northeast-1".

Definition demo_parse (s : string) : JsDate :=
  if String.eqb s "2025-01-10T09:00" then Some 1736499600000
  else if String.eqb s "2025-01-10T09:10" then Some 1736500200000
  else if String.eqb s "2030-01-01T00:00" then Some 1893456000000
  else None.

Definition demo_Browser : Browser :=
  mkBrowser 1736503200000 demo_parse
            (fun t => if t =? 1736499600000 then "2025-01-10T09:00:00.000Z"
                      else "2025-01-10T09:10:00.000Z")
            (fun _ => "09:00") (fun _ => "10:00:00") true false
            (fun _ => Response true "200"
                        (Some (mkBody (Some "https://kvs.example/range.m3u8")
                                      None None)))
            None.

Definition demo_World (startTime endTime : string) : World :=
  mkWorld
    (mkElements (Some (mkVideoElement "" true)) "none" "flex" startTime endTime
                "" false "適用" "オフライン" "status-badge" "-" "-" "-")
    (mkState None TimeRange false)
    [].

End Integration.

(** ** The GStreamer receiver pipeline *)

Module Gst.

(** Caps as written in a launch line: media type and fields. *)
Record Caps := mkCaps {
  media : string;
  fields : list (string * string)
}.

(** The elements the repository's launch lines name. *)
Inductive Element : Type :=
| tcpclientsrc (host port : string)
| gdpdepay
| capsfilter (c : Caps)
| h264parse
| kvssink (stream_name : string).

(** A launch line: elements linked by [!], the first one feeding the
    second, and so on. *)
Definition Pipeline := list Element.

(** The receiver both scripts spell out:
    [tcpclientsrc ! gdpdepay ! video/x-h264,format=avc,alignment=au !
     h264parse ! kvssink]. *)
Definition receiver (host port stream_name : string) : Pipeline :=
  [tcpclientsrc host port;
   gdpdepay;
   capsfilter (mkCaps "video/x-h264" [("format", "avc"); ("alignment", "au")]);
   h264parse;
   kvssink stream_name].








End Gst.

(** ** Bash scripts as state-and-exit computations *)

Module Sh.

(** Shell variables; an unset variable reads as the empty string, which is
    all that [-z] and [${X:-default}] can tell. *)
Definition Vars := string -> string.

Definition setvar (x v : string) (s : Vars) : Vars :=
  fun y => if String.eqb y x then v else s y.

(** What a script asks of the machine it runs on. *)
Record Host := mkHost {
  is_file : string -> bool;
  has_command : string -> bool;
  stdin_line : option string;
  arith_div : string -> Z -> option string;
  proc_version_linux : bool;
  gst_version_line : string;
  inspect_kvssink : bool;
  positional1 : string
}.

(** The programs the scripts hand over to: [python], [gst-launch-1.0] and
    [/bin/bash]. *)
Inductive Command : Type :=
| Python (args : list string)
| GstLaunch (p : Gst.Pipeline)
| BinBash.

(** How a script ends: [exit n], its last command (whose status becomes the
    script's), or [exec]. *)
Inductive Status : Type :=
| Exit (code : Z)
| Last (c : Command)
| Exec (c : Command).

Record St := mkSt {
  vars : Vars;
  stdout : list string
}.

Inductive Res (A : Type) : Type :=
| Next (a : A) (s : St)
| Halt (st : Status) (s : St).

Arguments Next {A} a s.
Arguments Halt {A} st s.

Definition Sh (A : Type) : Type := St -> Res A.

Definition ret {A : Type} (a : A) : Sh A := fun s => Next a s.

Definition bind {A B : Type} (c : Sh A) (k : A -> Sh B) : Sh B :=
  fun s => match c s with
           | Next a s' => k a s'
           | Halt st s' => Halt st s'
           end.

Definition seq {B : Type} (c : Sh unit) (k : Sh B) : Sh B := bind c (fun _ => k).

(** [X=value]. *)
Definition assign (x : string) (v : Vars -> string) : Sh unit :=
  fun s => Next tt (mkSt (setvar x (v (vars s)) (vars s)) (stdout s)).

(** [X="${X:-default}"]. *)
Definition default (x d : string) : Sh unit :=
  assign x (fun v => if String.eqb (v x) "" then d else v x).

(** [echo]; the escape sequences of [echo -e] are kept as written. *)
Definition echo (line : Vars -> string) : Sh unit :=
  fun s => Next tt (mkSt (vars s) (stdout s ++ [line (vars s)])%list).

Definition exit {A : Type} (code : Z) : Sh A := fun s => Halt (Exit code) s.

(** The last line of a script, a program called by [name]: bash looks the
    name up, and a name that is not installed ends the script with "command
    not found", status 127, and nothing run. *)
Definition last {A : Type} (h : Host) (name : string) (c : Vars -> Command) : Sh A :=
  fun s => if has_command h name then Halt (Last (c (vars s))) s
           else Halt (Exit 127) s.

Definition exec {A : Type} (c : Vars -> Command) : Sh A :=
  fun s => Halt (Exec (c (vars s))) s.

Definition when (b : Vars -> bool) (body : Sh unit) : Sh unit :=
  fun s => if b (vars s) then body s else Next tt s.

Definition ifelse {A : Type} (b : Vars -> bool) (t e : Sh A) : Sh A :=
  fun s => if b (vars s) then t s else e s.

(** [read -r -p prompt]: the line lands in [REPLY]; at end of input [read]
    fails and [set -e] ends the script. *)
Definition read (h : Host) : Sh unit :=
  fun s => match stdin_line h with
           | Some l => Next tt (mkSt (setvar "REPLY" l (vars s)) (stdout s))
           | None => Halt (Exit 1) s
           end.

(** [echo] of a line holding [$((x / d))].  [arith_div] is bash's
    arithmetic on the value of [x], taken on the values a numeric setting
    can have: a number, or a text bash reads as a number or fails on.
    Where it has no value (["1.5"], ["08"]) the expansion fails: bash
    reports it on stderr, gives this one command up without running it,
    and goes on with the next line, [set -e] or not.  (Bash reads any
    other text as an expression of its own, and would carry out an
    assignment written into the value; the scripts' settings are numbers,
    and such values are left out.) *)
Definition echo_div (h : Host) (x : string) (d : Z)
           (line : Vars -> string -> string) : Sh unit :=
  fun s => match arith_div h (vars s x) d with
           | Some q => echo (fun v => line v q) s
           | None => Next tt s
           end.

(** Running a script from an environment: falling off its end is [exit 0]. *)
Definition run (prog : Sh unit) (env : Vars) : Status * St :=
  match prog (mkSt env []) with
  | Next _ s => (Exit 0, s)
  | Halt st s => (st, s)
  end.

(** The variables a computation leaves behind, however it ends. *)
Definition final_vars {A : Type} (r : Res A) : Vars :=
  match r with
  | Next _ s => vars s
  | Halt _ s => vars s
  end.

Definition is_exit_nonzero (st : Status) : bool :=
  match st with
  | Exit c => negb (c =? 0)
  | _ => false
  end.

(** The script handed control to a program: processing started. *)
Definition started (st : Status) : bool :=
  match st with
  | Exit _ => false
  | Last _ | Exec _ => true
  end.

End Sh.

(** ** deploy/local/start_streaming.sh *)

Module StartStreaming.

Import Sh.

Local Notation "c ;; k" := (seq c k) (at level 61, right associativity).
Local Notation "'say' s" := (echo (fun _ => s)) (at level 10).

(** The variables of the configuration block, in the order of the script. *)
Definition config_vars : list string :=
  ["MODEL_PATH"; "CAMERA_INDEX"; "WIDTH"; "HEIGHT"; "CONF_THRESHOLD";
   "TCP_HOST"; "TCP_PORT"; "YOLO_INTERVAL"; "BITRATE"; "KEYFRAME_INTERVAL"].

(** Lines 7-16: the configuration block. *)
Definition configuration : Sh unit :=
  default "MODEL_PATH" "../../model/best.pt" ;;
  default "CAMERA_INDEX" "0" ;;
  default "WIDTH" "1280" ;;
  default "HEIGHT" "720" ;;
  default "CONF_THRESHOLD" "0.5" ;;
  default "TCP_HOST" "0.0.0.0" ;;
  default "TCP_PORT" "5000" ;;
  default "YOLO_INTERVAL" "3" ;;
  default "BITRATE" "1500" ;;
  default "KEYFRAME_INTERVAL" "90".

(** Lines 69-79: the command line of [stream_to_kvs.py]. *)
Definition invocation (v : Vars) : Command :=
  Python ["stream_to_kvs.py";
          "--model"; v "MODEL_PATH";
          "--camera"; v "CAMERA_INDEX";
          "--width"; v "WIDTH";
          "--height"; v "HEIGHT";
          "--conf"; v "CONF_THRESHOLD";
          "--host"; v "TCP_HOST";
          "--port"; v "TCP_PORT";
          "--yolo-interval"; v "YOLO_INTERVAL";
          "--bitrate"; v "BITRATE";
          "--keyframe-interval"; v "KEYFRAME_INTERVAL"].

Definition model_error (v : Vars) : string :=
  v "RED" ++ "Error: Model file not found: " ++ v "MODEL_PATH" ++ v "NC".

Definition python_error (v : Vars) : string :=
  v "RED" ++ "Error: python3 not found" ++ v "NC".

(** Line 62: the receiver command the script tells the operator to run. *)
Definition docker_command (v : Vars) : string :=
  "  gst-launch-1.0 -v tcpclientsrc host=host.docker.internal port=" ++
  v "TCP_PORT" ++
  " ! gdpdepay ! video/x-h264,format=avc,alignment=au ! h264parse ! kvssink stream-name=dockerStream".

(** Lines 18-79: everything after the configuration block.  Line 37 tests
    for [python3]; line 69 calls [python]. *)
Definition body (h : Host) : Sh unit :=
  assign "RED" (fun _ => "\033[0;31m") ;;
  assign "GREEN" (fun _ => "\033[0;32m") ;;
  assign "YELLOW" (fun _ => "\033[1;33m") ;;
  assign "NC" (fun _ => "\033[0m") ;;
  echo (fun v => v "GREEN" ++ "=== Shiitake Monitoring - YOLO Streaming ===" ++ v "NC") ;;
  say "" ;;
  when (fun v => negb (is_file h (v "MODEL_PATH")))
       (echo model_error ;;
        say "Please train the model first or specify MODEL_PATH environment variable" ;;
        exit 1) ;;
  echo (fun v => v "GREEN" ++ "✓ Model found: " ++ v "MODEL_PATH" ++ v "NC") ;;
  when (fun _ => negb (has_command h "python3"))
       (echo python_error ;;
        exit 1) ;;
  echo (fun v => v "GREEN" ++ "✓ Python 3 found" ++ v "NC") ;;
  echo (fun v => v "GREEN" ++ "✓ GStreamer found" ++ v "NC") ;;
  say "" ;;
  say "Configuration:" ;;
  echo (fun v => "  Model: " ++ v "MODEL_PATH") ;;
  echo (fun v => "  Camera: " ++ v "CAMERA_INDEX") ;;
  echo (fun v => "  Resolution: " ++ v "WIDTH" ++ "x" ++ v "HEIGHT") ;;
  echo (fun v => "  Confidence: " ++ v "CONF_THRESHOLD") ;;
  echo (fun v => "  YOLO Interval: Every " ++ v "YOLO_INTERVAL" ++ " frames") ;;
  echo (fun v => "  Bitrate: " ++ v "BITRATE" ++ " kbps") ;;
  echo_div h "KEYFRAME_INTERVAL" 30
           (fun v q => "  Keyframe Interval: " ++ v "KEYFRAME_INTERVAL" ++
                       " frames (~" ++ q ++ " sec)") ;;
  echo (fun v => "  TCP Target: " ++ v "TCP_HOST" ++ ":" ++ v "TCP_PORT") ;;
  say "" ;;
  echo (fun v => v "YELLOW" ++
        "Note: Make sure Docker container is running and waiting for connection" ++
        v "NC") ;;
  say "Docker command should be:" ;;
  echo docker_command ;;
  say "" ;;
  read h ;;
  echo (fun v => v "GREEN" ++ "Starting YOLO streaming..." ++ v "NC") ;;
  last h "python" invocation.

Definition start_streaming (h : Host) : Sh unit :=
  configuration ;; body h.

(** The value a configuration variable takes at startup: the one of the
    environment, or the default when that is unset or empty. *)
Definition default_of (x : string) : string :=
  if String.eqb x "MODEL_PATH" then "../../model/best.pt"
  else if String.eqb x "CAMERA_INDEX" then "0"
  else if String.eqb x "WIDTH" then "1280"
  else if String.eqb x "HEIGHT" then "720"
  else if String.eqb x "CONF_THRESHOLD" then "0.5"
  else if String.eqb x "TCP_HOST" then "0.0.0.0"
  else if String.eqb x "TCP_PORT" then "5000"
  else if String.eqb x "YOLO_INTERVAL" then "3"
  else if String.eqb x "BITRATE" then "1500"
  else if String.eqb x "KEYFRAME_INTERVAL" then "90"
  else "".

Definition setting (env : Vars) (x : string) : string :=
  if String.eqb (env x) "" then default_of x else env x.

(** A piece of script that leaves the configuration variables alone and
    launches nothing but [stream_to_kvs.py] on their current values. *)
Definition config_safe {A : Type} (c : Sh A) : Prop :=
  forall s : St,
    (forall x, In x config_vars -> final_vars (c s) x = vars s x) /\
    (forall cmd s', c s = Halt (Last cmd) s' -> cmd = invocation (vars s')).


End StartStreaming.

(** ** deploy/local/docker-entrypoint.sh *)

Module Entrypoint.

Import Sh.

Local Notation "c ;; k" := (seq c k) (at level 61, right associativity).
Local Notation "'say' s" := (echo (fun _ => s)) (at level 10).

Definition credentials_error (v : Vars) : string :=
  v "RED" ++ "Error: AWS credentials not set" ++ v "NC".

Definition gstreamer_error (v : Vars) : string :=
  v "RED" ++ "Error: GStreamer not found" ++ v "NC".

Definition kvssink_error (v : Vars) : string :=
  v "RED" ++ "Error: kvssink plugin not found" ++ v "NC".

(** Lines 82-87: the receiver pipeline. *)
Definition kvs_pipeline (v : Vars) : Gst.Pipeline :=
  Gst.receiver (v "TCP_HOST") (v "TCP_PORT") (v "STREAM_NAME").

(** Lines 16-24: the host the receiver connects to. *)
Definition tcp_host (h : Host) (env : Vars) : string :=
  if String.eqb (env "TCP_HOST") "" then
    if proc_version_linux h then "172.17.0.1" else "host.docker.internal"
  else env "TCP_HOST".

(** The preconditions of the container script, all met. *)
Definition ready (h : Host) (env : Vars) : Prop :=
  env "AWS_ACCESS_KEY_ID" <> "" /\
  env "AWS_SECRET_ACCESS_KEY" <> "" /\
  has_command h "gst-launch-1.0" = true /\
  inspect_kvssink h = true.

Definition docker_entrypoint (h : Host) : Sh unit :=
  assign "RED" (fun _ => "\033[0;31m") ;;
  assign "GREEN" (fun _ => "\033[0;32m") ;;
  assign "YELLOW" (fun _ => "\033[1;33m") ;;
  assign "NC" (fun _ => "\033[0m") ;;
  echo (fun v => v "GREEN" ++ "=== Shiitake Monitoring - KVS Container ===" ++ v "NC") ;;
  say "" ;;
  when (fun v => String.eqb (v "TCP_HOST") "")
       (ifelse (fun _ => proc_version_linux h)
               (assign "TCP_HOST" (fun _ => "172.17.0.1"))
               (assign "TCP_HOST" (fun _ => "host.docker.internal"))) ;;
  when (fun v => String.eqb (v "AWS_ACCESS_KEY_ID") "" ||
                 String.eqb (v "AWS_SECRET_ACCESS_KEY") "")
       (echo credentials_error ;;
        say "" ;;
        say "Please set the following environment variables:" ;;
        say "  AWS_ACCESS_KEY_ID" ;;
        say "  AWS_SECRET_ACCESS_KEY" ;;
        say "  AWS_DEFAULT_REGION (optional, default: ap-northeast-1)" ;;
        say "" ;;
        say "You can set them in the .env file or pass them via docker-compose" ;;
        exit 1) ;;
  echo (fun v => v "GREEN" ++ "✓ AWS credentials configured" ++ v "NC") ;;
  echo (fun v => "  Region: " ++ v "AWS_DEFAULT_REGION") ;;
  echo (fun v => "  Access Key: " ++ String.substring 0 10 (v "AWS_ACCESS_KEY_ID") ++ "...") ;;
  say "" ;;
  say "Verifying GStreamer installation..." ;;
  ifelse (fun _ => has_command h "gst-launch-1.0")
         (echo (fun v => v "GREEN" ++ "✓ GStreamer found" ++ v "NC") ;;
          say (gst_version_line h))
         (echo gstreamer_error ;;
          exit 1) ;;
  ifelse (fun _ => inspect_kvssink h)
         (echo (fun v => v "GREEN" ++ "✓ kvssink plugin found" ++ v "NC"))
         (echo kvssink_error ;;
          exit 1) ;;
  say "" ;;
  say "Configuration:" ;;
  echo (fun v => "  Stream Name: " ++ v "STREAM_NAME") ;;
  echo (fun v => "  TCP Source: " ++ v "TCP_HOST" ++ ":" ++ v "TCP_PORT") ;;
  echo (fun v => "  Region: " ++ v "AWS_DEFAULT_REGION") ;;
  say "" ;;
  ifelse (fun _ => String.eqb (positional1 h) "kvs")
         (echo (fun v => v "YELLOW" ++ "Waiting for connection from host..." ++ v "NC") ;;
          say "Make sure to start the Python streaming script on the host side:" ;;
          say "  ./start_streaming.sh" ;;
          say "" ;;
          echo (fun v => v "GREEN" ++ "Starting KVS receiver..." ++ v "NC") ;;
          say "Pipeline: tcpclientsrc -> gdpdepay -> h264parse -> kvssink" ;;
          say "" ;;
          exec (fun v => GstLaunch (kvs_pipeline v)))
         (ifelse (fun _ => String.eqb (positional1 h) "bash" ||
                           String.eqb (positional1 h) "sh")
                 (echo (fun v => v "YELLOW" ++ "Starting interactive shell..." ++ v "NC") ;;
                  say "" ;;
                  exec (fun _ => BinBash))
                 (echo (fun v => v "RED" ++ "Unknown command: " ++ positional1 h ++ v "NC") ;;
                  say "" ;;
                  say "Available commands:" ;;
                  say "  kvs   - Start KVS receiver (default)" ;;
                  say "  bash  - Start interactive shell" ;;
                  exit 1)).

End Entrypoint.

(** ** Hosts and environments for trying the scripts out *)

Module Demo.

Import Sh.

Definition ready_host (arg : string) : Host :=
  mkHost (fun _ => true) (fun _ => true) (Some "") (fun _ _ => Some "3")
         true "gst-launch-1.0 version 1.20.3" true arg.

Definition no_model_host : Host :=
  mkHost (fun _ => false) (fun _ => true) (Some "") (fun _ _ => Some "3")
         true "gst-launch-1.0 version 1.20.3" true "".

Definition empty_env : Vars := fun _ => "".

Definition container_env : Vars :=
  setvar "AWS_ACCESS_KEY_ID" "AKIAEXAMPLEKEY000"
    (setvar "AWS_SECRET_ACCESS_KEY" "secret"
       (setvar "AWS_DEFAULT_REGION" "ap-northeast-1"
          (setvar "STREAM_NAME" "dockerStream"
             (setvar "TCP_PORT" "5000" empty_env)))).

End Demo.

(** ** The two startup scripts side by side *)

Module Startup.

Import Sh.

Inductive Script : Type :=
| HostSide
| ContainerSide.

Definition program (sc : Script) (h : Host) : Sh unit :=
  match sc with
  | HostSide => StartStreaming.start_streaming h
  | ContainerSide => Entrypoint.docker_entrypoint h
  end.

(** [MODEL_PATH] once the configuration block has run. *)
Definition model_path (env : Vars) : string :=
  if String.eqb (env "MODEL_PATH") "" then "../../model/best.pt" else env "MODEL_PATH".

(** The startup preconditions the scripts test, failing. *)
Definition precondition_fails (sc : Script) (h : Host) (env : Vars) : Prop :=
  match sc with
  | HostSide =>
      is_file h (model_path env) = false \/
      has_command h "python3" = false
  | ContainerSide =>
      env "AWS_ACCESS_KEY_ID" = "" \/
      env "AWS_SECRET_ACCESS_KEY" = "" \/
      has_command h "gst-launch-1.0" = false \/
      inspect_kvssink h = false
  end.

(** A failure line as the scripts print it: red, starting with "Error:". *)
Definition error_line (reason : string) : string :=
  "\033[0;31m" ++ "Error: " ++ reason ++ "\033[0m".

End Startup.

(** ** stream_to_kvs.py: the frame pipeline *)

Module Core.

(** Modelled from the spec: stream_to_kvs.py, which start_streaming.sh
    launches, is not among the sources.  PipelineConfig: camera index,
    resolution, confidence threshold (in thousandths), detection interval,
    target bitrate, keyframe interval, sink host and port; the intervals and
    the bitrate are positive. *)
Record PipelineConfig := mkPipelineConfig {
  camera_index : nat;
  width : nat;
  height : nat;
  conf_threshold : nat;
  detection_interval : positive;
  bitrate : positive;
  keyframe_interval : positive;
  sink_host : string;
  sink_port : nat
}.

(** Modelled from the spec: a Frame carries its pixel buffer, its capture
    timestamp and its sequence number. *)
Record Frame := mkFrame {
  seq : nat;
  timestamp : nat;
  pixels : list nat
}.

(** Modelled from the spec: a box [{x, y, w, h, label, score}], the score in
    thousandths. *)
Record Box := mkBox {
  box_x : nat;
  box_y : nat;
  box_w : nat;
  box_h : nat;
  label : string;
  score : nat
}.

(** Modelled from the spec: a DetectionResult is the boxes and the sequence
    number of the frame they were computed from. *)
Record DetectionResult := mkDetectionResult {
  boxes : list Box;
  source_seq : nat
}.

(** Modelled from the spec: the AnnotatedFrame of [compose]: the frame and
    the cache snapshot drawn onto its copy ([None]: passed through). *)
Record AnnotatedFrame := mkAnnotatedFrame {
  frame : Frame;
  overlay : option DetectionResult
}.

(** Modelled from the spec: an EncodedChunk, its bytes left out. *)
Record EncodedChunk := mkEncodedChunk {
  is_keyframe : bool;
  chunk_seq : nat
}.

(** Modelled from the spec: the DetectionScheduler with the DetectionCache
    it writes.  [pending] are the frames handed to the detector and not yet
    answered, [invoked] the sequence numbers inference was invoked on,
    [completed] the results published so far, oldest first. *)
Record Scheduler := mkScheduler {
  cache : option DetectionResult;
  pending : list Frame;
  invoked : list nat;
  completed : list DetectionResult
}.

(** Modelled from the spec: the Encoder state: how many chunks the current
    GOP holds, and the sequence number of the last frame taken. *)
Record Encoder := mkEncoder {
  gop_length : nat;
  last_seq : option nat
}.

(** Modelled from the spec: what reaches the pipeline: a frame from the
    FrameSource, or the answer of the detector for the frame with sequence
    number [s] ([None]: the call failed). *)
Inductive Event : Type :=
| Captured (f : Frame)
| Completed (s : nat) (answer : option (list Box)).

(** Modelled from the spec (4.2): is the frame's sequence number a multiple
    of the detection interval? *)
Definition due (interval : positive) (f : Frame) : bool :=
  Nat.eqb (seq f mod Pos.to_nat interval) 0.

(** Modelled from the spec (4.3): [compose(Frame, DetectionCache snapshot)]. *)
Definition compose (f : Frame) (snapshot : option DetectionResult) : AnnotatedFrame :=
  mkAnnotatedFrame f snapshot.

(** Modelled from the spec (4.2): a due frame is submitted to the detector;
    every frame is forwarded at once with the cache as it stands. *)
Definition on_frame (cfg : PipelineConfig) (sch : Scheduler) (f : Frame)
  : Scheduler * AnnotatedFrame :=
  (if due (detection_interval cfg) f
   then mkScheduler (cache sch) (pending sch ++ [f]) (invoked sch ++ [seq f])
                    (completed sch)
   else sch,
   compose f (cache sch)).

(** Modelled from the spec (3): scores below the threshold are dropped
    before the result is published. *)
Definition publish (cfg : PipelineConfig) (s : nat) (bs : list Box) : DetectionResult :=
  mkDetectionResult (filter (fun b => conf_threshold cfg <=? score b)%nat bs) s.

Definition newer (r : DetectionResult) (c : option DetectionResult) : bool :=
  match c with
  | None => true
  | Some r0 => (source_seq r0 <? source_seq r)%nat
  end.

Definition is_pending (s : nat) (sch : Scheduler) : bool :=
  existsb (fun f => Nat.eqb (seq f) s) (pending sch).

(** Modelled from the spec (4.2): a result replaces the cache only when its
    sequence number is newer; a failed call leaves the cache as it is. *)
Definition on_completion (cfg : PipelineConfig) (sch : Scheduler) (s : nat)
           (answer : option (list Box)) : Scheduler :=
  if is_pending s sch then
    let rest := filter (fun f => negb (Nat.eqb (seq f) s)) (pending sch) in
    match answer with
    | None => mkScheduler (cache sch) rest (invoked sch) (completed sch)
    | Some bs =>
        let r := publish cfg s bs in
        mkScheduler (if newer r (cache sch) then Some r else cache sch)
                    rest (invoked sch) (completed sch ++ [r])
    end
  else sch.

(** Modelled from the spec (4.4): the first frame, a frame out of sequence
    and the frame that would make the GOP longer than [keyframe_interval]
    are coded as keyframes. *)
Definition needs_keyframe (cfg : PipelineConfig) (enc : Encoder) (f : Frame) : bool :=
  match last_seq enc with
  | None => true
  | Some l =>
      negb (Nat.eqb (seq f) (S l)) ||
      (Pos.to_nat (keyframe_interval cfg) <=? gop_length enc)%nat
  end.

Definition encode (cfg : PipelineConfig) (enc : Encoder) (af : AnnotatedFrame)
  : Encoder * EncodedChunk :=
  let key := needs_keyframe cfg enc (frame af) in
  (mkEncoder (if key then 1%nat else S (gop_length enc)) (Some (seq (frame af))),
   mkEncodedChunk key (seq (frame af))).

(** Modelled from the spec (4.6): the orchestrator owns the configuration
    and the stages; [annotated] and [chunks] log what the compositor and the
    encoder put out. *)
Record Pipeline := mkPipeline {
  config : PipelineConfig;
  scheduler : Scheduler;
  encoder : Encoder;
  annotated : list AnnotatedFrame;
  chunks : list EncodedChunk
}.

Definition start (cfg : PipelineConfig) : Pipeline :=
  mkPipeline cfg (mkScheduler None [] [] []) (mkEncoder 0 None) [] [].

Definition step (p : Pipeline) (ev : Event) : Pipeline :=
  match ev with
  | Captured f =>
      let '(sch, af) := on_frame (config p) (scheduler p) f in
      let '(enc, c) := encode (config p) (encoder p) af in
      mkPipeline (config p) sch enc (annotated p ++ [af]) (chunks p ++ [c])
  | Completed s answer =>
      mkPipeline (config p) (on_completion (config p) (scheduler p) s answer)
                 (encoder p) (annotated p) (chunks p)
  end.

Definition run (cfg : PipelineConfig) (evs : list Event) : Pipeline :=
  fold_left step evs (start cfg).

(** The frames among the events, in order. *)
Fixpoint frames_of (evs : list Event) : list Frame :=
  match evs with
  | [] => []
  | Captured f :: evs' => f :: frames_of evs'
  | Completed _ _ :: evs' => frames_of evs'
  end.

(** The encoder alone, over a sequence of frames. *)
Fixpoint encode_all (cfg : PipelineConfig) (enc : Encoder) (fs : list Frame)
  : list EncodedChunk :=
  match fs with
  | [] => []
  | f :: fs' =>
      let '(enc', c) := encode cfg enc (compose f None) in
      c :: encode_all cfg enc' fs'
  end.

(** No run of [k] chunks without a keyframe, [c] such chunks already seen. *)
Fixpoint gaps_ok (k c : nat) (l : list EncodedChunk) : bool :=
  match l with
  | [] => true
  | x :: l' =>
      if is_keyframe x then gaps_ok k 0 l'
      else (S c <? k)%nat && gaps_ok k (S c) l'
  end.

(** Where the encoder stands inside its GOP, as a count of chunks since the
    last keyframe. *)
Definition in_gop (cfg : PipelineConfig) (enc : Encoder) (c : nat) : Prop :=
  last_seq enc = None \/
  (1 <= gop_length enc <= Pos.to_nat (keyframe_interval cfg) /\
   c = gop_length enc - 1)%nat.

(** The cache holds the published result with the highest sequence number. *)
Definition latest (c : option DetectionResult) (log : list DetectionResult) : Prop :=
  match c with
  | None => log = []
  | Some r => In r log /\
              Forall (fun r' => (source_seq r' <= source_seq r)%nat) log
  end.

(** The configuration the wrapper script asks for by default. *)
Definition default_config : PipelineConfig :=
  mkPipelineConfig 0 1280 720 500 3 1500 90 "0.0.0.0" 5000.

Definition demo_frames (n : nat) : list Event :=
  map (fun i => Captured (mkFrame i i [])) (List.seq 0 n).

End Core.

(** ** stream_to_kvs.py: the stream sink *)

Module Sink.

Import Core.

(** Modelled from the spec: stream_to_kvs.py, which holds the StreamSink, is
    not among the sources.  The numbers the spec leaves open: the capacity
    of the sink's buffer in chunks (4.5: small, fixed), the first
    reconnection delay and the ceiling of the delays (5: increasing delays
    with a capped ceiling). *)
Record Policy := mkPolicy {
  capacity : positive;
  first_delay : nat;
  max_delay : nat
}.

(** Modelled from the spec (4.5): the two states of the sink. *)
Inductive Link : Type :=
| Disconnected
| Connected.

(** Modelled from the spec (4.5): a connect attempt to a host and port,
    made after a wait. *)
Record Attempt := mkAttempt {
  to_host : string;
  to_port : nat;
  waited : nat
}.

(** Modelled from the spec (4.5): the StreamSink.  [backoff] is the wait
    before the next attempt, should the pending one fail; [in_flight] the
    chunk being written; [buffer] the chunks waiting behind it, oldest
    first; [awaiting_keyframe] is set while the sink waits for the next
    keyframe chunk after a drop.  [wire] logs the chunks written in full,
    [discarded] the chunks dropped, [attempts] the connect attempts; in
    state [Disconnected] the last attempt is the pending one. *)
Record StreamSink := mkStreamSink {
  link : Link;
  backoff : nat;
  in_flight : option EncodedChunk;
  buffer : list EncodedChunk;
  awaiting_keyframe : bool;
  wire : list EncodedChunk;
  discarded : list EncodedChunk;
  attempts : list Attempt
}.

(** Modelled from the spec (4.5): what the stream socket reports: the
    outcome of a connect attempt, and of the write of the chunk in flight
    (complete, partial, error). *)
Inductive NetEvent : Type :=
| ConnectSucceeded
| ConnectFailed
| WriteCompleted
| WritePartial
| WriteFailed.

(** Modelled from the spec (4.5): what reaches the sink: [send(chunk)] from
    the encoder, or a report of the socket. *)
Inductive Event : Type :=
| Chunk (c : EncodedChunk)
| Network (e : NetEvent).

Definition non_keyframe (c : EncodedChunk) : bool := negb (is_keyframe c).

Definition first_backoff (pol : Policy) : nat :=
  Nat.min (first_delay pol) (max_delay pol).

(** Modelled from the spec (4.6): the sink starts Disconnected, with its
    first connect attempt to the configured host and port under way. *)
Definition start (pol : Policy) (cfg : PipelineConfig) : StreamSink :=
  mkStreamSink Disconnected (first_backoff pol) None [] false [] []
               [mkAttempt (sink_host cfg) (sink_port cfg) 0].

(** Modelled from the spec (4.5): a connected sink with nothing in flight
    starts writing the oldest buffered chunk. *)
Definition pump (s : StreamSink) : StreamSink :=
  match link s, in_flight s, buffer s with
  | Connected, None, c :: rest =>
      mkStreamSink Connected (backoff s) (Some c) rest (awaiting_keyframe s)
                   (wire s) (discarded s) (attempts s)
  | _, _, _ => s
  end.

(** Modelled from the spec (4.5): after a drop the sink waits for the next
    keyframe chunk: the chunks before it go. *)
Fixpoint skip_to_keyframe (b : list EncodedChunk) : list EncodedChunk :=
  match b with
  | [] => []
  | c :: b' => if is_keyframe c then b else skip_to_keyframe b'
  end.

Fixpoint before_keyframe (b : list EncodedChunk) : list EncodedChunk :=
  match b with
  | [] => []
  | c :: b' => if is_keyframe c then [] else c :: before_keyframe b'
  end.

(** Modelled from the spec (4.5): [send(EncodedChunk)].  While the sink
    waits for a keyframe, other chunks are dropped.  A chunk that fits is
    buffered.  On overflow the buffered non-keyframe chunks are dropped
    first (the new chunk among them: a later non-keyframe chunk would hang
    on a dropped one, so the sink waits for the next keyframe); if the
    keyframes alone still overflow, the oldest goes, up to and including
    the next keyframe boundary. *)
Definition send (pol : Policy) (s : StreamSink) (c : EncodedChunk) : StreamSink :=
  if awaiting_keyframe s && non_keyframe c then
    mkStreamSink (link s) (backoff s) (in_flight s) (buffer s) true
                 (wire s) (discarded s ++ [c]) (attempts s)
  else
    let b := (buffer s ++ [c])%list in
    if (List.length b <=? Pos.to_nat (capacity pol))%nat then
      pump (mkStreamSink (link s) (backoff s) (in_flight s) b false
                         (wire s) (discarded s) (attempts s))
    else
      let keys := filter is_keyframe b in
      let fits := (List.length keys <=? Pos.to_nat (capacity pol))%nat in
      pump (mkStreamSink (link s) (backoff s) (in_flight s)
                         (if fits then keys else tl keys)
                         (non_keyframe c)
                         (wire s)
                         (discarded s ++ filter non_keyframe b ++
                          (if fits then [] else firstn 1 keys))
                         (attempts s)).

(** Modelled from the spec (4.5): the state machine.  Disconnected: a
    connect that succeeds leads to Connected; one that fails leaves the sink
    Disconnected, and the next attempt is made after the backoff, which
    doubles up to its ceiling.  Connected: a complete write puts the chunk
    on the wire; a partial write goes on; a write error leads to
    Disconnected, the chunk in flight is discarded, the buffered chunks up
    to the next keyframe with it, and a new connect attempt starts. *)
Definition on_net (pol : Policy) (cfg : PipelineConfig) (s : StreamSink)
           (e : NetEvent) : StreamSink :=
  match link s, e with
  | Disconnected, ConnectSucceeded =>
      pump (mkStreamSink Connected (first_backoff pol) (in_flight s) (buffer s)
                         (awaiting_keyframe s) (wire s) (discarded s) (attempts s))
  | Disconnected, ConnectFailed =>
      mkStreamSink Disconnected (Nat.min (2 * backoff s) (max_delay pol))
                   (in_flight s) (buffer s) (awaiting_keyframe s) (wire s)
                   (discarded s)
                   (attempts s ++
                    [mkAttempt (sink_host cfg) (sink_port cfg) (backoff s)])
  | Connected, WriteCompleted =>
      match in_flight s with
      | Some c =>
          pump (mkStreamSink Connected (backoff s) None (buffer s)
                             (awaiting_keyframe s) (wire s ++ [c]) (discarded s)
                             (attempts s))
      | None => s
      end
  | Connected, WriteFailed =>
      match in_flight s with
      | Some c =>
          let rest := skip_to_keyframe (buffer s) in
          mkStreamSink Disconnected (first_backoff pol) None rest
                       (awaiting_keyframe s ||
                        match rest with [] => true | _ :: _ => false end)
                       (wire s)
                       (discarded s ++ c :: before_keyframe (buffer s))
                       (attempts s ++
                        [mkAttempt (sink_host cfg) (sink_port cfg) 0])
      | None => s
      end
  | _, _ => s
  end.

(** Modelled from the spec (4.5): the sink takes its events one by one. *)
Definition step (pol : Policy) (cfg : PipelineConfig) (s : StreamSink)
           (e : Event) : StreamSink :=
  match e with
  | Chunk c => send pol s c
  | Network n => on_net pol cfg s n
  end.

Definition run_from (pol : Policy) (cfg : PipelineConfig) (s : StreamSink)
           (evs : list Event) : StreamSink :=
  fold_left (step pol cfg) evs s.

(** The chunks the sink holds: the one in flight and the buffered ones. *)
Definition held (s : StreamSink) : list EncodedChunk :=
  match in_flight s with
  | Some c => c :: buffer s
  | None => buffer s
  end.

(** The next chunk to reach the wire is a keyframe. *)
Definition resumes_at_keyframe (s : StreamSink) : Prop :=
  match held s with
  | c :: _ => is_keyframe c = true
  | [] => awaiting_keyframe s = true
  end.

(** The attempts after [n] failures in a row: the first at once, the
    [k]-th retry after the first delay doubled [k] times, up to the
    ceiling. *)
Definition backoff_after (pol : Policy) (n : nat) : nat :=
  Nat.min (first_delay pol * 2 ^ n) (max_delay pol).

Definition retries (pol : Policy) (cfg : PipelineConfig) (n : nat) : list Attempt :=
  map (fun k => mkAttempt (sink_host cfg) (sink_port cfg) (backoff_after pol k))
      (List.seq 0 n).

Definition to_configured (cfg : PipelineConfig) (a : Attempt) : Prop :=
  to_host a = sink_host cfg /\ to_port a = sink_port cfg.

(** A sink a run from [start] can be in: Disconnected it writes nothing,
    its buffer is within the capacity and its backoff under the ceiling. *)
Definition well_formed (pol : Policy) (s : StreamSink) : Prop :=
  (link s = Disconnected -> in_flight s = None) /\
  (List.length (buffer s) <= Pos.to_nat (capacity pol))%nat /\
  (backoff s <= max_delay pol)%nat.

End Sink.

(** ** stream_to_kvs.py: the orchestrator *)

Module Orchestrator.

Import Core.

(** Modelled from the spec (7): the fatal errors of the stages. *)
Inductive Fatal : Type :=
| CaptureError
| EncoderInitFailure.

(** Modelled from the spec (4.6, 7): what reaches the orchestrator: an event
    of the frame stages, a report of the stream socket, a fatal error of a
    stage, or the termination signal. *)
Inductive Input : Type :=
| Stage (ev : Core.Event)
| Socket (e : Sink.NetEvent)
| StageFailed (f : Fatal)
| TerminationSignal.

(** Modelled from the spec (4.6, 7): the process runs, has terminated on a
    fatal error with its diagnostic, or has shut down on the signal. *)
Inductive Status : Type :=
| Running
| Terminated (diagnostic : Fatal)
| ShutDown.

(** Modelled from the spec (4.6): the orchestrator owns the stages and the
    sink. *)
Record Process := mkProcess {
  pipeline : Core.Pipeline;
  sink : Sink.StreamSink;
  status : Status
}.

(** Modelled from the spec (4.6): the process starts with the stages
    initialised and the sink Disconnected. *)
Definition boot (pol : Sink.Policy) (cfg : PipelineConfig) : Process :=
  mkProcess (Core.start cfg) (Sink.start pol cfg) Running.

(** Modelled from the spec (4.6): an event of the stages goes through the
    pipeline, and the chunks the encoder puts out go to the sink; a report
    of the socket goes to the sink alone; a fatal error or the signal ends
    the process (the draining of the stages and the flush of the sink that
    a shutdown starts with are left out). *)
Definition step (pol : Sink.Policy) (p : Process) (i : Input) : Process :=
  match status p with
  | Running =>
      match i with
      | Stage ev =>
          let pl := Core.step (pipeline p) ev in
          let new := skipn (List.length (chunks (pipeline p))) (chunks pl) in
          mkProcess pl (fold_left (Sink.send pol) new (sink p)) Running
      | Socket e =>
          mkProcess (pipeline p)
                    (Sink.on_net pol (config (pipeline p)) (sink p) e) Running
      | StageFailed f => mkProcess (pipeline p) (sink p) (Terminated f)
      | TerminationSignal => mkProcess (pipeline p) (sink p) ShutDown
      end
  | _ => p
  end.

Definition run (pol : Sink.Policy) (cfg : PipelineConfig) (inputs : list Input)
  : Process :=
  fold_left (step pol) inputs (boot pol cfg).

(** The inputs that are no reason to stop. *)
Definition survivable (i : Input) : bool :=
  match i with
  | Stage _ | Socket _ => true
  | StageFailed _ | TerminationSignal => false
  end.

(** What the sink gets to see of a run of inputs that starts from the
    pipeline [pl]: the chunks of the encoder as they come out, and the
    reports of the socket in between. *)
Fixpoint sink_events (pl : Core.Pipeline) (inputs : list Input) : list Sink.Event :=
  match inputs with
  | [] => []
  | Stage ev :: rest =>
      (map Sink.Chunk (skipn (List.length (chunks pl)) (chunks (Core.step pl ev))) ++
       sink_events (Core.step pl ev) rest)%list
  | Socket e :: rest => Sink.Network e :: sink_events pl rest
  | _ :: _ => []
  end.

(** The events of the frame stages among the inputs, in order. *)
Fixpoint stage_events (inputs : list Input) : list Core.Event :=
  match inputs with
  | [] => []
  | Stage ev :: rest => ev :: stage_events rest
  | _ :: rest => stage_events rest
  end.

(** What holds of the process at every moment: the configuration is the one
    it was booted with, the sink is well formed, and every connect attempt
    so far went to the configured host and port. *)
Definition steady (pol : Sink.Policy) (cfg : PipelineConfig) (p : Process) : Prop :=
  config (pipeline p) = cfg /\
  Sink.well_formed pol (sink p) /\
  Forall (Sink.to_configured cfg) (Sink.attempts (sink p)) /\
  Sink.attempts (sink p) <> [].

End Orchestrator.

(** ** What the scripts decide, and what they let out *)

Module Outcome.

Import Sh.

Definition is_some {A : Type} (o : option A) : bool :=
  match o with Some _ => true | None => false end.

(** What start_streaming.sh needs to reach its last line: the model file,
    [python3], and the line [read] waits for. *)
Definition can_launch (h : Host) (env : Vars) : bool :=
  is_file h (Startup.model_path env) &&
  has_command h "python3" &&
  is_some (stdin_line h).

(** The tests of docker-entrypoint.sh before its [case]. *)
Definition container_ready (h : Host) (env : Vars) : bool :=
  negb (String.eqb (env "AWS_ACCESS_KEY_ID") "") &&
  negb (String.eqb (env "AWS_SECRET_ACCESS_KEY") "") &&
  has_command h "gst-launch-1.0" &&
  inspect_kvssink h.

Section Indifference.

(** A relation between the variables of two runs that are meant to look the
    same from outside. *)
Variable R : Vars -> Vars -> Prop.

Definition alike (s s' : St) : Prop :=
  stdout s = stdout s' /\ R (vars s) (vars s').

(** A piece of script whose output and outcome are the same on related
    variables. *)
Definition indifferent {A : Type} (c : Sh A) : Prop :=
  forall s s', alike s s' ->
    match c s, c s' with
    | Next a t, Next a' t' => a = a' /\ alike t t'
    | Halt st t, Halt st' t' => st = st' /\ alike t t'
    | _, _ => False
    end.

(** A reading of the variables that is the same on related variables. *)
Definition blind {B : Type} (f : Vars -> B) : Prop :=
  forall v v', R v v' -> f v = f v'.

End Indifference.

(** Variables that differ at most in the value of a set
    [AWS_SECRET_ACCESS_KEY]. *)
Definition same_but_secret (v v' : Vars) : Prop :=
  (forall x, x <> "AWS_SECRET_ACCESS_KEY" -> v x = v' x) /\
  String.eqb (v "AWS_SECRET_ACCESS_KEY") "" = String.eqb (v' "AWS_SECRET_ACCESS_KEY") "".

(** Variables that differ at most in [AWS_ACCESS_KEY_ID], behind its first
    ten characters. *)
Definition same_but_key_tail (v v' : Vars) : Prop :=
  (forall x, x <> "AWS_ACCESS_KEY_ID" -> v x = v' x) /\
  String.eqb (v "AWS_ACCESS_KEY_ID") "" = String.eqb (v' "AWS_ACCESS_KEY_ID") "" /\
  String.substring 0 10 (v "AWS_ACCESS_KEY_ID") =
  String.substring 0 10 (v' "AWS_ACCESS_KEY_ID").

End Outcome.

(** ** app.js: the rest of the dashboard *)

Module Dashboard.

Import App.

(** What [formatTime] answers; the digits and the unit are put together by
    the template strings. *)
Inductive TimeLabel : Type :=
| JustNow
| MinutesAgo (n : Z)
| HoursAgo (n : Z)
| DaysAgo (n : Z)
| OnDate (date : Z).

(** [formatTime(dateString)], with [now] the value of [new Date()] and
    [date] the one of [new Date(dateString)], both in milliseconds. *)
Definition formatTime (now date : Z) : TimeLabel :=
  let diffMs := now - date in
  let diffMins := diffMs / 60000 in
  if diffMins <? 1 then JustNow
  else if diffMins <? 60 then MinutesAgo diffMins
  else
    let diffHours := diffMins / 60 in
    if diffHours <? 24 then HoursAgo diffHours
    else
      let diffDays := diffHours / 24 in
      if diffDays <? 7 then DaysAgo diffDays
      else OnDate date.

(** [s.split(sep)] for a one-character separator. *)
Fixpoint split (sep : ascii) (s : string) : list string :=
  match s with
  | EmptyString => [EmptyString]
  | String c s' =>
      if Ascii.eqb c sep then EmptyString :: split sep s'
      else match split sep s' with
           | [] => [String c EmptyString]
           | seg :: rest => String c seg :: rest
           end
  end.

(** [video.key.split('/').pop()]. *)
Definition filename (key : string) : string :=
  last (split "/"%char key) EmptyString.

Fixpoint has_char (c : ascii) (s : string) : bool :=
  match s with
  | EmptyString => false
  | String c' s' => Ascii.eqb c' c || has_char c s'
  end.

(** A card of the grid, as [createVideoCard] builds it: the three values
    its template string puts into [card.innerHTML], and the video its click
    opens.  [card_title_html] is the text put between the tags of the
    [video-title] element, as written: it goes in unescaped, so a file name
    holding markup is read by the browser as markup, and the title shown is
    the browser's reading of it, not this string.  [card_size] is the
    number handed to [formatBytes], [card_time] the label of
    [formatTime]. *)
Record Card := mkCard {
  card_title_html : string;
  card_size : Z;
  card_time : TimeLabel;
  card_video : Video
}.

(** [createVideoCard(video)]. *)
Definition createVideoCard (now : Z) (video : Video) : Card :=
  mkCard (filename (key video)) (size video)
         (formatTime now (last_modified video)) video.

(** The list part of the page: [state], the two form controls, the grid, the
    loading, error and empty-state elements and the statistics.
    [totalSize] is the number handed to [formatBytes]; [lastUpdate] is
    [None] for the dash. *)
Record ListView := mkListView {
  st : State;
  searchInput : string;
  sortSelect : string;
  videosGrid : list Card;
  emptyState_display : string;
  loading_display : string;
  error_text : string;
  error_display : string;
  totalVideos : nat;
  totalSize : Z;
  avgDetections : string;
  lastUpdate : option TimeLabel
}.

(** [showLoading(show)]. *)
Definition showLoading (show : bool) (v : ListView) : ListView :=
  mkListView (mkState (videos (st v)) (filteredVideos (st v)) show)
             (searchInput v) (sortSelect v) (videosGrid v) (emptyState_display v)
             (if show then "block" else "none") (error_text v) (error_display v)
             (totalVideos v) (totalSize v) (avgDetections v) (lastUpdate v).

(** [showError(message)]; the timer that hides the message five seconds
    later is a later event. *)
Definition showError (message : string) (v : ListView) : ListView :=
  mkListView (st v) (searchInput v) (sortSelect v) (videosGrid v)
             (emptyState_display v) (loading_display v) message "block"
             (totalVideos v) (totalSize v) (avgDetections v) (lastUpdate v).

Definition with_st (s : State) (v : ListView) : ListView :=
  mkListView s (searchInput v) (sortSelect v) (videosGrid v)
             (emptyState_display v) (loading_display v) (error_text v)
             (error_display v) (totalVideos v) (totalSize v) (avgDetections v)
             (lastUpdate v).

Definition with_error_display (d : string) (v : ListView) : ListView :=
  mkListView (st v) (searchInput v) (sortSelect v) (videosGrid v)
             (emptyState_display v) (loading_display v) (error_text v) d
             (totalVideos v) (totalSize v) (avgDetections v) (lastUpdate v).

Definition with_emptyState (d : string) (v : ListView) : ListView :=
  mkListView (st v) (searchInput v) (sortSelect v) (videosGrid v) d
             (loading_display v) (error_text v) (error_display v)
             (totalVideos v) (totalSize v) (avgDetections v) (lastUpdate v).

(** [filterAndSortVideos()] on the page. *)
Definition filterAndSort (toLowerCase : JsString.LowerCase) (v : ListView) : ListView :=
  with_st (filterAndSortVideos toLowerCase
             (mkElements (searchInput v) (sortSelect v)) (st v)) v.

(** [renderVideos()]. *)
Definition renderVideos (now : Z) (v : ListView) : ListView :=
  match filteredVideos (st v) with
  | [] =>
      mkListView (st v) (searchInput v) (sortSelect v) [] "block"
                 (loading_display v) (error_text v) (error_display v)
                 (totalVideos v) (totalSize v) (avgDetections v) (lastUpdate v)
  | _ :: _ =>
      mkListView (st v) (searchInput v) (sortSelect v)
                 (map (createVideoCard now) (filteredVideos (st v))) "none"
                 (loading_display v) (error_text v) (error_display v)
                 (totalVideos v) (totalSize v) (avgDetections v) (lastUpdate v)
  end.

(** The [reduce] of [updateStatistics] that picks the latest video: a later
    video replaces the pick only when it is strictly newer. *)
Definition latestVideo (first : Video) (rest : list Video) : Video :=
  fold_left (fun latest video =>
               if last_modified latest <? last_modified video then video else latest)
            rest first.

(** [updateStatistics()]. *)
Definition updateStatistics (now : Z) (v : ListView) : ListView :=
  mkListView (st v) (searchInput v) (sortSelect v) (videosGrid v)
             (emptyState_display v) (loading_display v) (error_text v)
             (error_display v)
             (List.length (videos (st v)))
             (fold_left (fun sum video => sum + size video) (videos (st v)) 0)
             "-"
             (match videos (st v) with
              | [] => None
              | first :: rest =>
                  Some (formatTime now (last_modified (latestVideo first rest)))
              end).

(** What [fetch(.../videos)] and [response.json()] come to: a rejected
    request, a status outside 200-299, a body that is no JSON, or the
    [videos] field of the body ([None]: absent or falsy). *)
Inductive VideosResponse : Type :=
| Rejected (message : string)
| NotOk (status : string)
| NotJson (message : string)
| Body (videos : option (list Video)).

(** [fetchVideos()]. *)
Definition fetchVideos (toLowerCase : JsString.LowerCase) (now : Z)
           (resp : VideosResponse) (v : ListView) : ListView :=
  let v1 := with_error_display "none" (showLoading true v) in
  let failed message :=
    with_emptyState "block" (showError ("映像の取得に失敗しました: " ++ message) v1) in
  let v2 :=
    match resp with
    | Rejected m => failed m
    | NotOk status => failed ("HTTP error! status: " ++ status)
    | NotJson m => failed m
    | Body vs =>
        let vids := match vs with Some l => l | None => [] end in
        renderVideos now
          (updateStatistics now
             (filterAndSort toLowerCase
                (with_st (mkState vids (filteredVideos (st v1)) (isLoading (st v1))) v1)))
    end in
  showLoading false v2.

(** The listeners of the search box and of the sort menu (lines 303-312):
    [filterAndSortVideos(); renderVideos();]. *)
Definition listChanged (toLowerCase : JsString.LowerCase) (now : Z)
           (v : ListView) : ListView :=
  renderVideos now (filterAndSort toLowerCase v).

(** The answer of [/stream/status], as [updateStreamStatus] reads it:
    [detections] is [None] when undefined, [fps] holds [data.fps.toFixed(1)]
    when [data.fps] is truthy, [resolution] is [None] when falsy. *)
Record StreamData := mkStreamData {
  active : bool;
  detections : option string;
  fps : option string;
  resolution : option string
}.

(** [state.streamStatus] and the elements of the stream panel. *)
Record Badge := mkBadge {
  streamStatus : string;
  streamStatus_text : string;
  streamStatus_className : string;
  detectionCount : string;
  streamFps : string;
  streamResolution : string
}.

Definition dash (o : option string) : string :=
  match o with Some s => s | None => "-" end.

(** [updateStreamStatus(data)]. *)
Definition updateStreamStatus (data : StreamData) : Badge :=
  let isActive := active data in
  let shown := match detections data with
               | Some d => if isActive then Some d else None
               | None => None
               end in
  mkBadge (if isActive then "online" else "offline")
          (if isActive then "オンライン" else "オフライン")
          ("status-badge " ++ (if isActive then "online" else ""))
          (dash shown)
          (match shown with Some _ => dash (fps data) | None => "-" end)
          (match shown with Some _ => dash (resolution data) | None => "-" end).

Inductive StatusResponse : Type :=
| StatusRejected
| StatusNotOk
| StatusNotJson
| StatusBody (data : StreamData).

(** [checkStreamStatus()]. *)
Definition checkStreamStatus (resp : StatusResponse) : Badge :=
  match resp with
  | StatusBody data => updateStreamStatus data
  | _ => updateStreamStatus (mkStreamData false None None None)
  end.

(** The answers on which [fetchVideos] takes its [catch] branch. *)
Definition failure (resp : VideosResponse) : bool :=
  match resp with Body _ => false | _ => true end.

End Dashboard.

(** ** kvs-player.js: playing, refreshing, recovering *)

Module PlayerOps.

Import Player.

(** What [getHLSStreamingEndpoint()] comes to: a rejected request, a status
    that is not OK (it then throws "Failed to get HLS URL: status"), a body
    that is no JSON, or [data.hlsUrl] ([None] when the field is missing). *)
Inductive Endpoint : Type :=
| EndpointRejected (message : string)
| EndpointNotOk (status : string)
| EndpointNotJson (message : string)
| EndpointUrl (url : option string).

(** What the browser can do: HLS.js ([window.Hls && Hls.isSupported()]),
    native HLS ([canPlayType]), and whether [video.play()] is let through
    or rejected by the autoplay policy. *)
Record Browser := mkBrowser {
  Hls_isSupported : bool;
  canPlayType_hls : bool;
  autoplay_allowed : bool
}.

(** [data.type] of an HLS.js error. *)
Inductive ErrorType : Type :=
| NETWORK_ERROR
| MEDIA_ERROR
| OTHER_ERROR.

(** What the methods do to the outside, in program order. *)
Inductive Effect : Type :=
| Released (e : Player.Effect)
| FetchHlsUrl (streamName : string)
| HlsCreated
| HlsLoadSource (url : option string)
| HlsAttachMedia
| HlsStartLoad
| HlsRecoverMediaError
| VideoPlay.

(** The player on its page, the id [setInterval] hands out next, and the
    effects so far. *)
Record World := mkWorld {
  page : Page;
  next_id : positive;
  log : list Effect
}.

Definition emit (es : list Effect) (w : World) : World :=
  mkWorld (page w) (next_id w) (log w ++ es)%list.

Definition with_kvs (f : KVSPlayer -> KVSPlayer) (w : World) : World :=
  mkWorld (mkPage (video (page w)) (f (kvs (page w)))) (next_id w) (log w).

Definition set_hlsUrl (u : option string) (p : KVSPlayer) : KVSPlayer :=
  mkKVSPlayer (config p) u (hls p) (refreshTimer p) (isPlaying p).

(** What [src = url] leaves in the attribute. *)
Definition src_of (u : option string) : string :=
  match u with Some s => s | None => "undefined" end.

(** [stop()] in the world. *)
Definition stop (w : World) : World :=
  let '(pg, es) := Player.stop (page w) in
  mkWorld pg (next_id w) (log w ++ map Released es)%list.

(** [setupRefreshTimer()] in the world: [setInterval] answers [next_id]. *)
Definition setupRefreshTimer (w : World) : World :=
  let '(p, es) := Player.setupRefreshTimer (next_id w) (kvs (page w)) in
  mkWorld (mkPage (video (page w)) p) (Pos.succ (next_id w))
          (log w ++ map Released es)%list.

Definition endpoint_error (ep : Endpoint) : option string :=
  match ep with
  | EndpointRejected m => Some m
  | EndpointNotOk status => Some ("Failed to get HLS URL: " ++ status)
  | EndpointNotJson m => Some m
  | EndpointUrl _ => None
  end.

(** [play()]: the world it leaves and the error it throws, if any. *)
Definition play (B : Browser) (ep : Endpoint) (w : World) : World * option string :=
  let w0 := emit [FetchHlsUrl (streamName (config (kvs (page w))))] w in
  match ep with
  | EndpointUrl u =>
      let w1 := with_kvs (set_hlsUrl u) w0 in
      let started :=
        if Hls_isSupported B then
          Some (emit [HlsCreated; HlsLoadSource u; HlsAttachMedia]
                     (with_kvs (set_hls (JsObject (mkHls true u true))) w1))
        else if canPlayType_hls B then
          Some (emit [VideoPlay]
                     (mkWorld (mkPage (mkVideoElement (src_of u)
                                         (if autoplay_allowed B then false
                                          else paused (video (page w1))))
                                      (kvs (page w1)))
                              (next_id w1) (log w1)))
        else None in
      match started with
      | Some w2 => (setupRefreshTimer (with_kvs (set_isPlaying true) w2), None)
      | None => (w1, Some "HLS is not supported in this browser")
      end
  | _ => (w0, endpoint_error ep)
  end.

(** [handleError(data)], called by the error listener for fatal errors
    only.  The listener lives on the Hls object; without one the call
    cannot happen and the world stays as it is. *)
Definition handleError (ty : ErrorType) (w : World) : World :=
  match ty with
  | NETWORK_ERROR =>
      if truthy (hls (kvs (page w))) then emit [HlsStartLoad] w else w
  | MEDIA_ERROR =>
      if truthy (hls (kvs (page w))) then emit [HlsRecoverMediaError] w else w
  | OTHER_ERROR => stop w
  end.

(** The error listener of [play()]. *)
Definition onHlsError (fatal : bool) (ty : ErrorType) (w : World) : World :=
  if fatal then handleError ty w else w.

Definition same_url (a b : option string) : bool :=
  match a, b with
  | Some x, Some y => String.eqb x y
  | None, None => true
  | _, _ => false
  end.

(** One run of the refresh callback of [setupRefreshTimer()]. *)
Definition refresh (B : Browser) (ep : Endpoint) (w : World) : World :=
  let w0 := emit [FetchHlsUrl (streamName (config (kvs (page w))))] w in
  match ep with
  | EndpointUrl newHlsUrl =>
      if same_url newHlsUrl (hlsUrl (kvs (page w0))) then w0
      else
        let w1 := with_kvs (set_hlsUrl newHlsUrl) w0 in
        match hls (kvs (page w1)) with
        | JsObject h =>
            emit [HlsLoadSource newHlsUrl]
                 (with_kvs (set_hls (JsObject (mkHls (lowLatencyMode h) newHlsUrl
                                                     (attachedMedia h)))) w1)
        | _ =>
            if canPlayType_hls B then
              mkWorld (mkPage (mkVideoElement (src_of newHlsUrl)
                                              (paused (video (page w1))))
                              (kvs (page w1)))
                      (next_id w1) (log w1)
            else w1
        end
  | _ => w0
  end.

(** What can happen to a player, one after the other. *)
Inductive Op : Type :=
| Play (ep : Endpoint)
| Stop
| HlsError (fatal : bool) (ty : ErrorType)
| Refresh (ep : Endpoint).

Definition apply (B : Browser) (w : World) (op : Op) : World :=
  match op with
  | Play ep => fst (play B ep w)
  | Stop => stop w
  | HlsError fatal ty => onHlsError fatal ty w
  | Refresh ep => refresh B ep w
  end.

(** A new player on a page. *)
Definition fresh (v : VideoElement) (first_id : positive) : World :=
  mkWorld (mkPage v (constructor None None None)) first_id [].

(** The interval timers that run after a sequence of effects. *)
Fixpoint running (es : list Effect) (acc : list positive) : list positive :=
  match es with
  | [] => acc
  | Released (SetInterval id _) :: es' => running es' (acc ++ [id])
  | Released (ClearInterval id) :: es' =>
      running es' (filter (fun i => negb (Pos.eqb i id)) acc)
  | _ :: es' => running es' acc
  end.

Definition owned (p : KVSPlayer) : list positive :=
  match refreshTimer p with
  | Some id => [id]
  | None => []
  end.

(** The player owns the timers that run. *)
Definition timers_owned (w : World) : Prop :=
  running (log w) [] = owned (kvs (page w)).

End PlayerOps.

(** ** kvs-integration-simple.js: stopping and switching modes *)

Module LiveUi.

Import Player Integration.

(** The functions the start button's [onclick] is set to. *)
Inductive Handler : Type :=
| StartLiveStream
| StopStream.

(** The start button and the time-range controls. *)
Record Controls := mkControls {
  startBtn_text : string;
  startBtn_disabled : bool;
  startBtn_display : string;
  startBtn_onclick : option Handler;
  timeRangeControls_display : string
}.

Record Ui := mkUi {
  world : World;
  controls : Controls
}.

(** The local-time getters of [Date], on milliseconds since the epoch. *)
Record LocalTime := mkLocalTime {
  getFullYear : Z -> N;
  getMonth : Z -> N;
  getDate : Z -> N;
  getHours : Z -> N;
  getMinutes : Z -> N
}.

(** [String(n)] for a natural number. *)
Definition decimal (n : N) : string :=
  NilEmpty.string_of_uint (N.to_uint n).

(** A test that holds for every number below [n]. *)
Definition all_below (f : N -> bool) (n : N) : bool :=
  N.peano_rect (fun _ => bool) true (fun k acc => f k && acc) n.

Fixpoint zeros (k : nat) : string :=
  match k with
  | O => ""
  | S k' => String "0"%char (zeros k')
  end.

(** [s.padStart(target, '0')]. *)
Definition padStart (target : nat) (s : string) : string :=
  zeros (target - String.length s) ++ s.

(** [formatDateTimeLocal(date)]. *)
Definition formatDateTimeLocal (T : LocalTime) (date : Z) : string :=
  let year := decimal (getFullYear T date) in
  let month := padStart 2 (decimal (getMonth T date + 1)%N) in
  let day := padStart 2 (decimal (getDate T date)) in
  let hours := padStart 2 (decimal (getHours T date)) in
  let minutes := padStart 2 (decimal (getMinutes T date)) in
  year ++ "-" ++ month ++ "-" ++ day ++ "T" ++ hours ++ ":" ++ minutes.

Definition with_stopped (e : Elements) : Elements :=
  mkElements (videoElement e) "none" "flex"
             (startTimeInput_value e) (endTimeInput_value e)
             "ストリーム停止"
             (applyTimeRangeBtn_disabled e) (applyTimeRangeBtn_text e)
             "オフライン" "status-badge" "-" "-" "-".

Definition with_range (startTime endTime : string) (e : Elements) : Elements :=
  mkElements (videoElement e) (videoElement_display e) (placeholder_display e)
             startTime endTime (streamMessage e)
             (applyTimeRangeBtn_disabled e) (applyTimeRangeBtn_text e)
             (statusBadge_text e) (statusBadge_className e)
             (streamModeDisplay e) (streamResolution e) (connectionTime e).

Definition with_mode (m : StreamMode) (st : State) : State :=
  mkState (kvsPlayer st) m (isPlaying st).

(** [stopStream()].  Without the video element the first access to its
    style throws, and the [catch] leaves everything as it is; a player
    exists only on a page that has the element. *)
Definition stopStream (ui : Ui) : Ui :=
  let w := world ui in
  match videoElement (elements w) with
  | None => ui
  | Some v =>
      let w1 :=
        match kvsPlayer (state w) with
        | Some p =>
            let '(pg, es) := stop (mkPage v p) in
            emit (PlayerStopped es)
                 (set_state (with_player (Some (kvs pg)))
                            (set_elements (with_video (Some (video pg))) w))
        | None => w
        end in
      let w2 := set_state (with_isPlaying false) (set_elements with_stopped w1) in
      mkUi w2
           (match streamMode (state w2) with
            | Live =>
                mkControls "ライブストリーム開始" false
                           (startBtn_display (controls ui)) (Some StartLiveStream)
                           (timeRangeControls_display (controls ui))
            | TimeRange => controls ui
            end)
  end.

(** [handleStreamModeChange(event)], [mode] being [event.target.value] and
    [now] the value of [new Date()]. *)
Definition handleStreamModeChange (T : LocalTime) (now : Z) (mode : StreamMode)
           (ui : Ui) : Ui :=
  let w1 := set_state (with_mode mode) (world ui) in
  let c := controls ui in
  let ui1 :=
    match mode with
    | Live =>
        mkUi w1 (mkControls (startBtn_text c) (startBtn_disabled c) "inline-block"
                            (startBtn_onclick c) "none")
    | TimeRange =>
        mkUi (set_elements (with_range (formatDateTimeLocal T (now - 10 * 60 * 1000))
                                       (formatDateTimeLocal T now)) w1)
             (mkControls (startBtn_text c) (startBtn_disabled c) "none"
                         (startBtn_onclick c) "flex")
    end in
  if isPlaying (state (world ui1)) then stopStream ui1 else ui1.

(** A clock and a parser for trying the mode switch out, at half a minute
    past 09:00 on a day in January 2025. *)
Definition demo_now : Z := 1500030000.

Definition demo_LocalTime : LocalTime :=
  mkLocalTime (fun _ => 2025%N) (fun _ => 0%N) (fun _ => 10%N)
              (fun t => if 1500000000 <=? t then 9%N else 8%N)
              (fun t => if 1500000000 <=? t then 0%N else 50%N).

Definition demo_Browser : Browser :=
  mkBrowser demo_now
            (fun s => if String.eqb s "2025-01-10T09:00" then Some 1500000000
                      else if String.eqb s "2025-01-10T08:50" then Some 1499400000
                      else None)
            (fun t => if t =? 1500000000 then "end" else "start")
            (fun _ => "") (fun _ => "") true false
            (fun _ => Response true "200"
                        (Some (mkBody (Some "https://kvs.example/range.m3u8")
                                      None None)))
            None.

Definition demo_Ui : Ui :=
  mkUi (demo_World "" "")
       (mkControls "ライブストリーム開始" false "inline-block" None "none").

End LiveUi.

(** * Properties *)

(** ** app.js: the filtered list *)

Module AppFacts.

Import JsString App.

Section SortFacts.

Variable A : Type.
Variable cmp : A -> A -> Z.

Lemma insert_perm (x : A) (l : list A) : Permutation (insert cmp x l) (x :: l).
Proof.
  induction l as [|y l IH]; simpl.
  - apply Permutation_refl.
  - destruct (0 <? cmp x y).
    + eapply perm_trans; [apply perm_skip, IH | apply perm_swap].
    + apply Permutation_refl.
Qed.

Lemma array_sort_perm (l : list A) : Permutation (array_sort cmp l) l.
Proof.
  induction l as [|x l IH]; simpl.
  - constructor.
  - eapply perm_trans; [apply insert_perm | apply perm_skip, IH].
Qed.

(** A comparator that never answers a positive number moves nothing. *)
Lemma array_sort_fixed (l : list A) :
  (forall a b, cmp a b <= 0) -> array_sort cmp l = l.
Proof.
  intros Hle. induction l as [|x l IH]; simpl; [reflexivity|].
  rewrite IH. destruct l as [|y l']; simpl; [reflexivity|].
  destruct (Z.ltb_spec 0 (cmp x y)) as [Hpos|_]; [|reflexivity].
  specialize (Hle x y). lia.
Qed.

Variable le : A -> A -> Prop.
Hypothesis le_trans : forall a b c, le a b -> le b c -> le a c.
Hypothesis cmp_pos : forall a b, 0 < cmp a b -> le b a.
Hypothesis cmp_nonpos : forall a b, cmp a b <= 0 -> le a b.

Lemma insert_sorted (x : A) (l : list A) :
  StronglySorted le l -> StronglySorted le (insert cmp x l).
Proof.
  induction 1 as [|y l Hs IH Hall]; simpl.
  - repeat constructor.
  - destruct (Z.ltb_spec 0 (cmp x y)) as [Hpos|Hnp].
    + constructor; [exact IH|].
      eapply Permutation_Forall; [apply Permutation_sym, insert_perm|].
      constructor; [apply cmp_pos, Hpos | exact Hall].
    + constructor; [constructor; assumption|].
      constructor; [apply cmp_nonpos, Hnp|].
      eapply Forall_impl; [|exact Hall].
      intros z Hz. eapply le_trans; [apply cmp_nonpos, Hnp | exact Hz].
Qed.

Lemma array_sort_sorted (l : list A) : StronglySorted le (array_sort cmp l).
Proof.
  induction l as [|x l IH]; simpl; [constructor | apply insert_sorted, IH].
Qed.

End SortFacts.

Lemma sorted_newest l : StronglySorted newest_first (array_sort (compareFn "newest") l).
Proof.
  apply array_sort_sorted; unfold newest_first, compareFn; simpl; intros; lia.
Qed.

Lemma sorted_oldest l : StronglySorted oldest_first (array_sort (compareFn "oldest") l).
Proof.
  apply array_sort_sorted; unfold oldest_first, compareFn; simpl; intros; lia.
Qed.

Lemma sorted_size_desc l :
  StronglySorted largest_first (array_sort (compareFn "size-desc") l).
Proof.
  apply array_sort_sorted; unfold largest_first, compareFn; simpl; intros; lia.
Qed.

Lemma sorted_size_asc l :
  StronglySorted smallest_first (array_sort (compareFn "size-asc") l).
Proof.
  apply array_sort_sorted; unfold smallest_first, compareFn; simpl; intros; lia.
Qed.

Lemma compareFn_default sortBy a b :
  recognised sortBy = false -> compareFn sortBy a b = 0.
Proof.
  unfold recognised, compareFn. intros H.
  repeat (apply orb_false_elim in H; destruct H as [H ?]).
  repeat match goal with E : String.eqb _ _ = false |- _ => rewrite E; clear E end.
  reflexivity.
Qed.

(** C8: for every videos list and search string, and whatever
    [toLowerCase] answers on them (the browser's function, letters outside
    ASCII included): after [filterAndSortVideos], [state.videos] is
    untouched and [state.filteredVideos] holds exactly the entries of
    [state.videos] whose lowercased key includes the lowercased search term
    (same entries, same multiplicities); under "newest" / "oldest" it is ordered by descending /
    ascending [last_modified], under "size-desc" / "size-asc" by descending /
    ascending [size]; under any other sort value it is the filtered list in
    its original order. *)
Theorem filterAndSortVideos_spec :
  forall (toLowerCase : LowerCase) (els : Elements) (st : State),
    let st' := filterAndSortVideos toLowerCase els st in
    let kept :=
      filter (fun v => includes (toLowerCase (key v))
                                (toLowerCase (searchInput_value els)))
             (videos st) in
    videos st' = videos st /\
    Permutation (filteredVideos st') kept /\
    (forall v, In v (filteredVideos st') <->
               In v (videos st) /\
               includes (toLowerCase (key v))
                        (toLowerCase (searchInput_value els)) = true) /\
    (sortSelect_value els = "newest" ->
       StronglySorted newest_first (filteredVideos st')) /\
    (sortSelect_value els = "oldest" ->
       StronglySorted oldest_first (filteredVideos st')) /\
    (sortSelect_value els = "size-desc" ->
       StronglySorted largest_first (filteredVideos st')) /\
    (sortSelect_value els = "size-asc" ->
       StronglySorted smallest_first (filteredVideos st')) /\
    (recognised (sortSelect_value els) = false -> filteredVideos st' = kept).
Proof.
  intros toLowerCase els st st' kept. subst st' kept.
  unfold filterAndSortVideos, matches; simpl.
  split; [reflexivity|].
  split; [apply array_sort_perm|].
  split.
  { intros v.
    rewrite <- (filter_In (fun v => includes (toLowerCase (key v))
                                      (toLowerCase (searchInput_value els)))).
    split; intros H.
    - eapply Permutation_in; [apply array_sort_perm | exact H].
    - eapply Permutation_in; [apply Permutation_sym, array_sort_perm | exact H]. }
  split; [intros ->; apply sorted_newest|].
  split; [intros ->; apply sorted_oldest|].
  split; [intros ->; apply sorted_size_desc|].
  split; [intros ->; apply sorted_size_asc|].
  intros Hun. apply array_sort_fixed.
  intros a b. rewrite (compareFn_default _ a b Hun). lia.
Qed.

(** A run of the function on three entries with ASCII keys, searching for
    "CAM". *)
Example filterAndSortVideos_run :
  filteredVideos
    (filterAndSortVideos ascii_toLowerCase
       (mkElements "CAM" "size-desc")
       (mkState [mkVideo "clips/Cam1.mp4" 10 300;
                 mkVideo "clips/other.mp4" 20 900;
                 mkVideo "clips/cam2.mp4" 30 700] [] false))
  = [mkVideo "clips/cam2.mp4" 30 700; mkVideo "clips/Cam1.mp4" 10 300].
Proof. reflexivity. Qed.

End AppFacts.

(** ** kvs-player.js: [stop] *)

Module PlayerFacts.

Import Player.

(** C10, as stated, fails on a player that never attached HLS.js: [stop]
    skips the assignment and [hls] stays [undefined], which is not [null]. *)
Lemma stop_fresh_player_hls_not_null :
  hls (kvs (fst (stop fresh_page))) = JsUndefined /\
  hls (kvs (fst (stop fresh_page))) <> JsNull.
Proof.
  split; [reflexivity | discriminate].
Qed.

Lemma stop_clears_timer (pg : Page) : refreshTimer (kvs (fst (stop pg))) = None.
Proof.
  destruct pg as [v [c u h t b]]; destruct h, t; reflexivity.
Qed.

Lemma stop_hls (pg : Page) :
  hls (kvs (fst (stop pg))) =
  if truthy (hls (kvs pg)) then JsNull else hls (kvs pg).
Proof.
  destruct pg as [v [c u h t b]]; destruct h, t; reflexivity.
Qed.

(** C10 (amended): after [stop()] returns, whatever the prior state, [hls]
    holds no Hls object: it is [null] when an object was attached and keeps
    its prior value ([null] or [undefined]) otherwise; [refreshTimer] is
    [null]; the [playing] getter answers false; the video element is paused
    with an empty source; and a second [stop()] leaves the player and the
    element exactly as the first one left them. *)
Theorem stop_postcondition :
  forall pg : Page,
    let pg' := fst (stop pg) in
    truthy (hls (kvs pg')) = false /\
    (truthy (hls (kvs pg)) = true -> hls (kvs pg') = JsNull) /\
    (truthy (hls (kvs pg)) = false -> hls (kvs pg') = hls (kvs pg)) /\
    refreshTimer (kvs pg') = None /\
    playing (kvs pg') = false /\
    video pg' = mkVideoElement "" true /\
    fst (stop pg') = pg'.
Proof.
  intros pg pg'. subst pg'.
  repeat split.
  - rewrite stop_hls. destruct (hls (kvs pg)); reflexivity.
  - intros H. rewrite stop_hls, H. reflexivity.
  - intros H. rewrite stop_hls, H. reflexivity.
  - apply stop_clears_timer.
  - destruct pg as [v [c u h t b]]; destruct h, t; reflexivity.
  - destruct pg as [v [c u h t b]]; destruct h, t; reflexivity.
  - destruct pg as [v [c u h t b]]; destruct h, t; reflexivity.
Qed.

(** The second [stop] of a player that was streaming through HLS.js has
    nothing left to release. *)
Example stop_twice_effects :
  let streaming :=
    mkPage (mkVideoElement "" false)
           (mkKVSPlayer (mkConfig "dockerStream" "ap-northeast-1" 60000)
                        (Some "https://kvs.example/hls.m3u8")
                        (JsObject (mkHls true (Some "https://kvs.example/hls.m3u8") true))
                        (Some 7%positive) true) in
  snd (stop streaming) = [HlsDestroy; VideoPause; ClearInterval 7%positive] /\
  snd (stop (fst (stop streaming))) = [VideoPause].
Proof. split; reflexivity. Qed.

End PlayerFacts.

(** ** kvs-integration-simple.js: the guards of time-range playback *)

Module IntegrationFacts.

Import Player Integration.

Lemma effects_emit (e : Effect) (w : World) :
  effects (emit e w) = (effects w ++ [e])%list.
Proof. reflexivity. Qed.

(** The catch block adds one alert and leaves [state] and the video element
    alone. *)
Lemma catchBlock_spec (m : string) (w : World) :
  state (catchBlock m w) = state w /\
  videoElement (elements (catchBlock m w)) = videoElement (elements w) /\
  exists msg, effects (catchBlock m w) = (effects w ++ [Alert msg])%list.
Proof.
  unfold catchBlock. repeat split. eexists. reflexivity.
Qed.

(** A rejected input never gets past the guards: the [try] block ends with
    the world untouched, either by an alert and an early return or by the
    exception of [toISOString]. *)
Lemma tryBlock_rejects (cfg : CONFIG) (B : Browser) (w : World) :
  startTimeInput_value (elements w) = "" \/
  endTimeInput_value (elements w) = "" \/
  date_lt (Date_parse B (startTimeInput_value (elements w)))
          (Date_parse B (endTimeInput_value (elements w))) = false \/
  date_gt (Date_parse B (startTimeInput_value (elements w))) (Some (now B)) = true ->
  (exists msg, tryBlock cfg B w = (emit (Alert msg) w, Done)) \/
  (exists m, tryBlock cfg B w = (w, Thrown m)).
Proof.
  intros H. unfold tryBlock.
  destruct (String.eqb_spec (startTimeInput_value (elements w)) "") as [E1|N1];
    [left; eexists; reflexivity|].
  destruct (String.eqb_spec (endTimeInput_value (elements w)) "") as [E2|N2];
    [left; eexists; reflexivity|].
  simpl.
  destruct (date_ge _ _) eqn:Hge; [left; eexists; reflexivity|].
  destruct (date_gt _ _) eqn:Hgt; [left; eexists; reflexivity|].
  destruct H as [H|[H|[H|H]]]; try contradiction; try congruence.
  destruct (Date_parse B (startTimeInput_value (elements w))) as [s|];
    [|right; eexists; reflexivity].
  destruct (Date_parse B (endTimeInput_value (elements w))) as [e|];
    [|right; eexists; reflexivity].
  simpl in H, Hge. apply Z.ltb_ge in H. apply Z.leb_gt in Hge. lia.
Qed.

(** C9: whenever the start or the end input is empty, the start time is not
    strictly before the end time, or the start time lies in the future,
    [startTimeRangePlayback] issues no [fetch], starts no playback, shows
    exactly one alert and returns with [state] (the player included) and the
    video element unchanged. *)
Theorem startTimeRangePlayback_rejects :
  forall (cfg : CONFIG) (B : Browser) (w : World),
    startTimeInput_value (elements w) = "" \/
    endTimeInput_value (elements w) = "" \/
    date_lt (Date_parse B (startTimeInput_value (elements w)))
            (Date_parse B (endTimeInput_value (elements w))) = false \/
    date_gt (Date_parse B (startTimeInput_value (elements w))) (Some (now B)) = true ->
    let w' := startTimeRangePlayback cfg B w in
    filter is_fetch (effects w') = filter is_fetch (effects w) /\
    filter is_playback (effects w') = filter is_playback (effects w) /\
    state w' = state w /\
    videoElement (elements w') = videoElement (elements w) /\
    exists msg, effects w' = (effects w ++ [Alert msg])%list.
Proof.
  intros cfg B w H w'. subst w'. unfold startTimeRangePlayback.
  destruct (tryBlock_rejects cfg B w H) as [[msg E]|[m E]]; rewrite E.
  - rewrite effects_emit, !filter_app; simpl. rewrite !app_nil_r.
    repeat split. exists msg. reflexivity.
  - destruct (catchBlock_spec m w) as (Hs & Hv & msg & He).
    rewrite He, !filter_app; simpl. rewrite !app_nil_r.
    repeat split; try assumption. exists msg. reflexivity.
Qed.

(** The theorem at a start time in 2030, seen from January 2025. *)
Lemma startTimeRangePlayback_rejects_witness :
  let w := demo_World "2030-01-01T00:00" "2025-01-10T09:10" in
  let w' := startTimeRangePlayback demo_CONFIG demo_Browser w in
  filter is_fetch (effects w') = filter is_fetch (effects w) /\
  filter is_playback (effects w') = filter is_playback (effects w) /\
  state w' = state w /\
  videoElement (elements w') = videoElement (elements w) /\
  exists msg, effects w' = (effects w ++ [Alert msg])%list.
Proof.
  apply (startTimeRangePlayback_rejects demo_CONFIG demo_Browser
           (demo_World "2030-01-01T00:00" "2025-01-10T09:10")).
  right; right; left. reflexivity.
Defined.

(** A valid range does reach the network and the player. *)
Example startTimeRangePlayback_accepts :
  let w' := startTimeRangePlayback demo_CONFIG demo_Browser
              (demo_World "2025-01-10T09:00" "2025-01-10T09:10") in
  effects w' =
    [Fetch "https://shiitake.example/api/kvs/hls-url?stream=dockerStream&mode=on_demand&start=2025-01-10T09:00:00.000Z&end=2025-01-10T09:10:00.000Z";
     HlsLoadSource "https://kvs.example/range.m3u8"] /\
  isPlaying (state w') = true.
Proof. split; reflexivity. Qed.

(** An unparsable start time is stopped by [toISOString] before the fetch. *)
Example startTimeRangePlayback_invalid_date :
  let w' := startTimeRangePlayback demo_CONFIG demo_Browser
              (demo_World "yesterday" "2025-01-10T09:10") in
  filter is_fetch (effects w') = [] /\ List.length (effects w') = 1%nat.
Proof. split; reflexivity. Qed.

End IntegrationFacts.

(** ** The startup scripts: fatal preconditions *)

Module StartupFacts.

Import Sh Startup.

(** Run a script as far as the tests on the host and on the environment
    that are still open allow. *)
Ltac run_script :=
  lazy -[is_file has_command proc_version_linux inspect_kvssink stdin_line
         arith_div positional1 gst_version_line].

Ltac find_line := run_script; repeat ((left; reflexivity) || right).

Ltac halted := eexists; split; [reflexivity | find_line].

Lemma start_streaming_no_model (h : Host) (env : Vars) :
  is_file h (model_path env) = false ->
  exists s, run (StartStreaming.start_streaming h) env = (Exit 1, s) /\
            In (error_line ("Model file not found: " ++ model_path env)) (stdout s).
Proof.
  unfold model_path. intros Hf.
  destruct (env "MODEL_PATH") eqn:Em; simpl in Hf; run_script;
    rewrite ?Em; run_script; rewrite Hf; halted.
Qed.

Lemma start_streaming_no_python (h : Host) (env : Vars) :
  is_file h (model_path env) = true ->
  has_command h "python3" = false ->
  exists s, run (StartStreaming.start_streaming h) env = (Exit 1, s) /\
            In (error_line "python3 not found") (stdout s).
Proof.
  unfold model_path. intros Hf Hp.
  destruct (env "MODEL_PATH") eqn:Em; simpl in Hf; run_script;
    rewrite ?Em; run_script; rewrite Hf; run_script; rewrite Hp; halted.
Qed.

(** The container script up to its first [exit]: the tests on [TCP_HOST]
    before it only pick a value for that variable. *)
Ltac past_tcp_host h env :=
  let Eh := fresh "Eh" in
  let El := fresh "El" in
  destruct (env "TCP_HOST") eqn:Eh;
  [ destruct (proc_version_linux h) eqn:El;
    run_script; rewrite ?Eh; run_script; rewrite El; run_script
  | run_script; rewrite ?Eh; run_script ].

Lemma entrypoint_no_access_key (h : Host) (env : Vars) :
  env "AWS_ACCESS_KEY_ID" = "" ->
  exists s, run (Entrypoint.docker_entrypoint h) env = (Exit 1, s) /\
            In (error_line "AWS credentials not set") (stdout s).
Proof.
  intros Hc. past_tcp_host h env; rewrite Hc; halted.
Qed.

Lemma entrypoint_no_secret_key (h : Host) (env : Vars) :
  env "AWS_SECRET_ACCESS_KEY" = "" ->
  exists s, run (Entrypoint.docker_entrypoint h) env = (Exit 1, s) /\
            In (error_line "AWS credentials not set") (stdout s).
Proof.
  intros Hc.
  destruct (env "AWS_ACCESS_KEY_ID") eqn:Ek;
    [apply entrypoint_no_access_key, Ek|].
  past_tcp_host h env; rewrite Ek; run_script; rewrite Hc; halted.
Qed.

Lemma entrypoint_no_gstreamer (h : Host) (env : Vars) :
  env "AWS_ACCESS_KEY_ID" <> "" ->
  env "AWS_SECRET_ACCESS_KEY" <> "" ->
  has_command h "gst-launch-1.0" = false ->
  exists s, run (Entrypoint.docker_entrypoint h) env = (Exit 1, s) /\
            In (error_line "GStreamer not found") (stdout s).
Proof.
  intros Hk Hs Hg.
  destruct (env "AWS_ACCESS_KEY_ID") eqn:Ek; [contradiction|].
  destruct (env "AWS_SECRET_ACCESS_KEY") eqn:Es; [contradiction|].
  past_tcp_host h env; rewrite Ek; run_script; rewrite Es; run_script;
    rewrite Hg; halted.
Qed.

Lemma entrypoint_no_kvssink (h : Host) (env : Vars) :
  env "AWS_ACCESS_KEY_ID" <> "" ->
  env "AWS_SECRET_ACCESS_KEY" <> "" ->
  has_command h "gst-launch-1.0" = true ->
  inspect_kvssink h = false ->
  exists s, run (Entrypoint.docker_entrypoint h) env = (Exit 1, s) /\
            In (error_line "kvssink plugin not found") (stdout s).
Proof.
  intros Hk Hs Hg Hi.
  destruct (env "AWS_ACCESS_KEY_ID") eqn:Ek; [contradiction|].
  destruct (env "AWS_SECRET_ACCESS_KEY") eqn:Es; [contradiction|].
  past_tcp_host h env; rewrite Ek; run_script; rewrite Es; run_script;
    rewrite Hg; run_script; rewrite Hi; halted.
Qed.

Lemma fatal_of_exit1 (r : Status * St) (reason : string) :
  (exists s, r = (Exit 1, s) /\ In (error_line reason) (stdout s)) ->
  is_exit_nonzero (fst r) = true /\
  started (fst r) = false /\
  exists reason', In (error_line reason') (stdout (snd r)).
Proof.
  intros (s & -> & Hin). repeat split. exists reason. exact Hin.
Qed.

(** C6: whenever a startup precondition fails (on the host: the model file
    is missing or [python3] is not installed; in the container: an AWS
    credential is unset, [gst-launch-1.0] is missing or the [kvssink] plugin
    cannot be inspected), the script prints a red "Error: ..." line and ends
    with a non-zero exit status without handing control to the streaming
    program or the receiver pipeline. *)
Theorem startup_failure_is_fatal :
  forall (sc : Script) (h : Host) (env : Vars),
    precondition_fails sc h env ->
    let r := run (program sc h) env in
    is_exit_nonzero (fst r) = true /\
    started (fst r) = false /\
    exists reason, In (error_line reason) (stdout (snd r)).
Proof.
  intros sc h env Hfail r. subst r.
  destruct sc; simpl in Hfail; simpl program.
  - destruct (is_file h (model_path env)) eqn:Hf.
    + destruct Hfail as [Hfail|Hp]; [discriminate|].
      eapply fatal_of_exit1, start_streaming_no_python; assumption.
    + eapply fatal_of_exit1, start_streaming_no_model; assumption.
  - destruct (string_dec (env "AWS_ACCESS_KEY_ID") "") as [Hk|Hk];
      [eapply fatal_of_exit1, entrypoint_no_access_key; assumption|].
    destruct (string_dec (env "AWS_SECRET_ACCESS_KEY") "") as [Hs|Hs];
      [eapply fatal_of_exit1, entrypoint_no_secret_key; assumption|].
    destruct (has_command h "gst-launch-1.0") eqn:Hg;
      [|eapply fatal_of_exit1, entrypoint_no_gstreamer; assumption].
    destruct Hfail as [?|[?|[?|Hi]]]; try contradiction; try discriminate.
    eapply fatal_of_exit1, entrypoint_no_kvssink; assumption.
Qed.

(** The theorem on a host without the model file. *)
Lemma startup_failure_is_fatal_witness :
  let r := run (program HostSide Demo.no_model_host) Demo.empty_env in
  is_exit_nonzero (fst r) = true /\
  started (fst r) = false /\
  exists reason, In (error_line reason) (stdout (snd r)).
Proof.
  apply (startup_failure_is_fatal HostSide Demo.no_model_host Demo.empty_env).
  left. reflexivity.
Defined.

(** With every precondition met the scripts do hand over. *)
Example ready_host_starts :
  fst (run (program HostSide (Demo.ready_host "")) Demo.empty_env)
  = Last (Python ["stream_to_kvs.py"; "--model"; "../../model/best.pt";
                  "--camera"; "0"; "--width"; "1280"; "--height"; "720";
                  "--conf"; "0.5"; "--host"; "0.0.0.0"; "--port"; "5000";
                  "--yolo-interval"; "3"; "--bitrate"; "1500";
                  "--keyframe-interval"; "90"]) /\
  fst (run (program ContainerSide (Demo.ready_host "kvs")) Demo.container_env)
  = Exec (GstLaunch (Entrypoint.kvs_pipeline
                       (setvar "TCP_HOST" "172.17.0.1" Demo.container_env))).
Proof. split; vm_compute; reflexivity. Qed.

End StartupFacts.

(** ** The receiver pipeline *)

Module StreamFacts.

Import Sh Gst.

(** With its preconditions met and the [kvs] command, the container script
    ends by [exec]ing one [gst-launch-1.0] run of the receiver pipeline. *)
Lemma entrypoint_execs_pipeline (h : Host) (env : Vars) :
  Entrypoint.ready h env ->
  positional1 h = "kvs" ->
  fst (run (Entrypoint.docker_entrypoint h) env)
  = Exec (GstLaunch (receiver (Entrypoint.tcp_host h env)
                              (env "TCP_PORT") (env "STREAM_NAME"))).
Proof.
  intros (Hk & Hs & Hg & Hi) Ha. unfold Entrypoint.tcp_host.
  destruct (env "AWS_ACCESS_KEY_ID") eqn:Ek; [contradiction|].
  destruct (env "AWS_SECRET_ACCESS_KEY") eqn:Es; [contradiction|].
  StartupFacts.past_tcp_host h env; rewrite Ek; StartupFacts.run_script;
    rewrite Es; StartupFacts.run_script; rewrite Hg; StartupFacts.run_script;
    rewrite Hi; StartupFacts.run_script; rewrite Ha; StartupFacts.run_script;
    rewrite ?Eh; reflexivity.
Qed.

End StreamFacts.

(** ** The frame pipeline *)

Module CoreFacts.

Import Core.

Lemma config_step (p : Pipeline) (ev : Event) : config (step p ev) = config p.
Proof.
  destruct ev as [f|s a]; reflexivity.
Qed.


(** *** The scheduler *)









(** 300 frames at interval 3: inference on 0, 3, ..., 297, that is 100
    times. *)
Example detection_schedule_300 :
  invoked (scheduler (run default_config (demo_frames 300)))
  = map (fun i => (3 * i)%nat) (List.seq 0 100).
Proof. vm_compute. reflexivity. Qed.

(** *** The encoder *)

Lemma encode_frame_only (cfg : PipelineConfig) (enc : Encoder) (f : Frame)
      (c : option DetectionResult) :
  encode cfg enc (compose f c) = encode cfg enc (compose f None).
Proof. reflexivity. Qed.

Lemma chunks_fold (evs : list Event) (p : Pipeline) :
  chunks (fold_left step evs p) =
  (chunks p ++ encode_all (config p) (encoder p) (frames_of evs))%list.
Proof.
  revert p. induction evs as [|[f|s a] evs IH]; intros p; simpl.
  - now rewrite app_nil_r.
  - rewrite IH. simpl. rewrite <- app_assoc. reflexivity.
  - rewrite IH. reflexivity.
Qed.

Lemma encode_all_gaps (cfg : PipelineConfig) (fs : list Frame) :
  forall (enc : Encoder) (c : nat),
    in_gop cfg enc c ->
    gaps_ok (Pos.to_nat (keyframe_interval cfg)) c (encode_all cfg enc fs) = true.
Proof.
  pose proof (Pos2Nat.is_pos (keyframe_interval cfg)) as HK.
  induction fs as [|f fs IH]; intros enc c Hinv; simpl; [reflexivity|].
  unfold needs_keyframe.
  destruct (last_seq enc) as [l|] eqn:El; simpl.
  - destruct Hinv as [Hn|[Hb Hc]]; [congruence|].
    destruct (Nat.eqb (seq f) (S l)); simpl.
    + destruct (Nat.leb_spec (Pos.to_nat (keyframe_interval cfg)) (gop_length enc))
        as [Hfull|Hroom]; simpl.
      * apply IH. right. simpl. lia.
      * apply andb_true_iff. split; [apply Nat.ltb_lt; lia|].
        apply IH. right. simpl. lia.
    + apply IH. right. simpl. lia.
  - apply IH. right. simpl. lia.
Qed.

Lemma gaps_ok_suffix (k : nat) (pre rest : list EncodedChunk) :
  forall c, gaps_ok k c (pre ++ rest) = true -> exists c', gaps_ok k c' rest = true.
Proof.
  induction pre as [|x pre IH]; intros c H; simpl in *; [eauto|].
  destruct (is_keyframe x); [eauto|].
  apply andb_true_iff in H as [_ H]. eauto.
Qed.

Lemma gaps_ok_window (k : nat) (win post : list EncodedChunk) :
  forall c, gaps_ok k c (win ++ post) = true ->
            existsb is_keyframe win = false ->
            win = [] \/ (c + List.length win < k)%nat.
Proof.
  induction win as [|x win IH]; intros c H Hno; simpl in *; [left; reflexivity|].
  right. destruct (is_keyframe x); [discriminate|]. simpl in Hno.
  apply andb_true_iff in H as [Hc H]. apply Nat.ltb_lt in Hc.
  destruct (IH _ H Hno) as [->|Hlt]; simpl; lia.
Qed.

(** C2: whatever reaches the pipeline, every window of [keyframe_interval]
    consecutive chunks the encoder has put out holds a keyframe. *)
Theorem keyframe_in_every_window :
  forall (cfg : PipelineConfig) (evs : list Event)
         (pre win post : list EncodedChunk),
    chunks (run cfg evs) = (pre ++ win ++ post)%list ->
    List.length win = Pos.to_nat (keyframe_interval cfg) ->
    existsb is_keyframe win = true.
Proof.
  intros cfg evs pre win post Hout Hlen.
  pose proof (Pos2Nat.is_pos (keyframe_interval cfg)) as HK.
  unfold run in Hout. rewrite chunks_fold in Hout. simpl in Hout.
  assert (Hg : gaps_ok (Pos.to_nat (keyframe_interval cfg)) 0
                       (pre ++ win ++ post) = true).
  { rewrite <- Hout. apply encode_all_gaps. left. reflexivity. }
  apply gaps_ok_suffix in Hg as [c Hg].
  destruct (existsb is_keyframe win) eqn:Hno; [reflexivity|].
  destruct (gaps_ok_window _ _ _ _ Hg Hno) as [->|Hlt]; simpl in *; lia.
Qed.

(** The theorem on 200 frames at the default interval of 90: the window that
    starts at chunk 45. *)
Lemma keyframe_in_every_window_witness :
  existsb is_keyframe
    (firstn 90 (skipn 45 (chunks (run default_config (demo_frames 200))))) = true.
Proof.
  apply (keyframe_in_every_window default_config (demo_frames 200)
           (firstn 45 (chunks (run default_config (demo_frames 200))))
           (firstn 90 (skipn 45 (chunks (run default_config (demo_frames 200)))))
           (skipn 135 (chunks (run default_config (demo_frames 200))))).
  - vm_compute. reflexivity.
  - vm_compute. reflexivity.
Defined.

(** Keyframes of a steady stream at the default interval. *)
Example keyframes_of_200 :
  map chunk_seq (filter is_keyframe (chunks (run default_config (demo_frames 200))))
  = [0; 90; 180]%nat.
Proof. vm_compute. reflexivity. Qed.

End CoreFacts.

(** ** The stream sink *)

Module SinkFacts.

Import Core Sink.

Lemma pump_keeps (s : StreamSink) :
  link (pump s) = link s /\ wire (pump s) = wire s /\ held (pump s) = held s /\
  backoff (pump s) = backoff s /\ attempts (pump s) = attempts s /\
  awaiting_keyframe (pump s) = awaiting_keyframe s /\
  discarded (pump s) = discarded s /\
  (List.length (buffer (pump s)) <= List.length (buffer s))%nat.
Proof.
  unfold pump, held.
  destruct (link s) eqn:El; [rewrite ?El; repeat split; lia|].
  destruct (in_flight s) eqn:Ef; [rewrite ?El, ?Ef; repeat split; lia|].
  destruct (buffer s) eqn:Eb; [rewrite ?El, ?Ef, ?Eb; repeat split; simpl; lia|].
  simpl. repeat split; try assumption. lia.
Qed.

Lemma pump_in_flight (s : StreamSink) :
  (link s = Disconnected -> in_flight s = None) ->
  (link (pump s) = Disconnected -> in_flight (pump s) = None).
Proof.
  unfold pump. destruct (link s) eqn:El; [intros H _; apply H; reflexivity|].
  destruct (in_flight s) eqn:Ef; [rewrite El; discriminate|].
  destruct (buffer s); [rewrite El; discriminate|]. simpl. discriminate.
Qed.

(** What [send] leaves alone, and what it may hold afterwards. *)
Lemma send_keeps (pol : Policy) (s : StreamSink) (c : EncodedChunk) :
  link (send pol s c) = link s /\ wire (send pol s c) = wire s /\
  backoff (send pol s c) = backoff s /\ attempts (send pol s c) = attempts s.
Proof.
  unfold send.
  destruct (awaiting_keyframe s && non_keyframe c); [repeat split|].
  destruct (List.length (buffer s ++ [c]) <=? Pos.to_nat (capacity pol))%nat;
    match goal with |- context [pump ?x] =>
      destruct (pump_keeps x) as (H1 & H2 & _ & H4 & H5 & _) end;
    rewrite H1, H2, H4, H5; repeat split.
Qed.

Lemma filter_length_le {A : Type} (f : A -> bool) (l : list A) :
  (List.length (filter f l) <= List.length l)%nat.
Proof. induction l as [|x l IH]; simpl; [lia|]. destruct (f x); simpl; lia. Qed.

Lemma send_buffer_bound (pol : Policy) (s : StreamSink) (c : EncodedChunk) :
  (List.length (buffer s) <= Pos.to_nat (capacity pol))%nat ->
  (List.length (buffer (send pol s c)) <= Pos.to_nat (capacity pol))%nat.
Proof.
  intros Hb. unfold send.
  destruct (awaiting_keyframe s && non_keyframe c); [exact Hb|].
  destruct (Nat.leb_spec (List.length (buffer s ++ [c])) (Pos.to_nat (capacity pol)))
    as [Hfit|Hover];
    match goal with |- context [pump ?x] =>
      destruct (pump_keeps x) as (_ & _ & _ & _ & _ & _ & _ & Hl) end;
    simpl in Hl; [lia|].
  eapply Nat.le_trans; [exact Hl|].
  pose proof (filter_length_le is_keyframe (buffer s ++ [c])) as Hf.
  rewrite length_app in Hf, Hover. simpl in Hf, Hover.
  destruct (Nat.leb_spec (List.length (filter is_keyframe (buffer s ++ [c])))
                         (Pos.to_nat (capacity pol))) as [|Hk]; [assumption|].
  destruct (filter is_keyframe (buffer s ++ [c])); simpl in *; lia.
Qed.

Lemma skip_length (b : list EncodedChunk) :
  (List.length (skip_to_keyframe b) <= List.length b)%nat.
Proof.
  induction b as [|c b IH]; simpl; [lia|]. destruct (is_keyframe c); simpl; lia.
Qed.

Lemma first_backoff_le (pol : Policy) : (first_backoff pol <= max_delay pol)%nat.
Proof. unfold first_backoff. lia. Qed.

(** Every step keeps the sink well formed. *)
Lemma step_well_formed (pol : Policy) (cfg : PipelineConfig) (s : StreamSink)
      (e : Event) :
  well_formed pol s -> well_formed pol (step pol cfg s e).
Proof.
  intros Hwf. pose proof Hwf as (Hf & Hb & Hd). destruct e as [c|n]; simpl.
  - destruct (send_keeps pol s c) as (Hl & _ & Hk & _).
    split; [|split; [apply send_buffer_bound, Hb | rewrite Hk; exact Hd]].
    unfold send.
    destruct (awaiting_keyframe s && non_keyframe c); [exact Hf|].
    destruct (List.length (buffer s ++ [c]) <=? Pos.to_nat (capacity pol))%nat;
      apply pump_in_flight; exact Hf.
  - pose proof (first_backoff_le pol) as Hfb.
    unfold on_net. destruct (link s) eqn:El, n; try exact Hwf.
    + match goal with |- context [pump ?x] =>
        destruct (pump_keeps x) as (_ & _ & _ & H4 & _ & _ & _ & H8) end.
      split; [apply pump_in_flight; discriminate|].
      split; [simpl in H8; lia | rewrite H4; exact Hfb].
    + split; [exact Hf|]. split; [exact Hb | simpl; lia].
    + destruct (in_flight s); [|exact Hwf].
      match goal with |- context [pump ?x] =>
        destruct (pump_keeps x) as (_ & _ & _ & H4 & _ & _ & _ & H8) end.
      split; [apply pump_in_flight; discriminate|].
      split; [simpl in H8; lia | rewrite H4; exact Hd].
    + destruct (in_flight s); [|exact Hwf].
      split; [reflexivity|]. split; [|exact Hfb].
      simpl. pose proof (skip_length (buffer s)). lia.
Qed.

Lemma start_well_formed (pol : Policy) (cfg : PipelineConfig) :
  well_formed pol (start pol cfg).
Proof.
  split; [reflexivity|]. split; [simpl; lia | apply first_backoff_le].
Qed.

Lemma run_well_formed (pol : Policy) (cfg : PipelineConfig) (evs : list Event)
      (s : StreamSink) :
  well_formed pol s -> well_formed pol (run_from pol cfg s evs).
Proof.
  revert s. induction evs as [|e evs IH]; intros s Hs; [exact Hs|].
  apply IH, step_well_formed, Hs.
Qed.

(** *** What the sink holds and what it writes *)

Lemma in_skip (x : EncodedChunk) (b : list EncodedChunk) :
  In x (skip_to_keyframe b) -> In x b.
Proof.
  induction b as [|c b IH]; simpl; [tauto|].
  destruct (is_keyframe c); simpl; tauto.
Qed.

Lemma in_tl {A : Type} (x : A) (l : list A) : In x (tl l) -> In x l.
Proof. destruct l; simpl; tauto. Qed.

Lemma held_in (s : StreamSink) (x : EncodedChunk) :
  In x (held s) <-> in_flight s = Some x \/ In x (buffer s).
Proof.
  unfold held. destruct (in_flight s); simpl; [|intuition discriminate].
  split; intros [H|H]; auto; [left; congruence | injection H as ->; auto].
Qed.

(** A chunk gets into the sink only by [send]. *)
Lemma held_step (pol : Policy) (cfg : PipelineConfig) (s : StreamSink)
      (e : Event) (x : EncodedChunk) :
  In x (held (step pol cfg s e)) -> In x (held s) \/ e = Chunk x.
Proof.
  destruct e as [c|n]; simpl.
  - unfold send.
    destruct (awaiting_keyframe s && non_keyframe c); [auto|].
    destruct (List.length (buffer s ++ [c]) <=? Pos.to_nat (capacity pol))%nat;
      match goal with |- context [pump ?y] =>
        destruct (pump_keeps y) as (_ & _ & -> & _) end;
      rewrite !held_in; simpl; intros [H|H]; auto.
    + apply in_app_or in H as [H|[->|[]]]; auto.
    + assert (Hb : In x (buffer s ++ [c])).
      { destruct (List.length (filter is_keyframe (buffer s ++ [c]))
                  <=? Pos.to_nat (capacity pol))%nat;
          [|apply in_tl in H]; apply filter_In in H; apply H. }
      apply in_app_or in Hb as [Hb|[->|[]]]; auto.
  - intros H. left. revert H. unfold on_net.
    destruct (link s) eqn:El, n; auto.
    + match goal with |- context [pump ?y] =>
        destruct (pump_keeps y) as (_ & _ & -> & _) end. rewrite !held_in. auto.
    + destruct (in_flight s) eqn:Ef; auto.
      match goal with |- context [pump ?y] =>
        destruct (pump_keeps y) as (_ & _ & -> & _) end.
      rewrite !held_in. simpl. intros [H|H]; [discriminate | auto].
    + destruct (in_flight s) eqn:Ef; auto.
      rewrite !held_in. simpl. intros [H|H]; [discriminate|].
      right. apply in_skip, H.
Qed.

(** The wire grows by whole chunks, one at a time: the chunk in flight, on
    a complete write over an open connection. *)
Lemma wire_step (pol : Policy) (cfg : PipelineConfig) (s : StreamSink) (e : Event) :
  wire (step pol cfg s e) = wire s \/
  exists c, link s = Connected /\ in_flight s = Some c /\
            e = Network WriteCompleted /\
            wire (step pol cfg s e) = (wire s ++ [c])%list.
Proof.
  destruct e as [c|n]; simpl.
  - left. apply send_keeps.
  - unfold on_net. destruct (link s) eqn:El, n; auto.
    + left. match goal with |- context [pump ?y] =>
        destruct (pump_keeps y) as (_ & -> & _) end. reflexivity.
    + destruct (in_flight s) as [c|] eqn:Ef; auto.
      right. exists c.
      match goal with |- context [pump ?y] =>
        destruct (pump_keeps y) as (_ & -> & _) end. auto.
    + destruct (in_flight s); auto.
Qed.

(** A chunk the sink does not hold stays off the wire until it is sent
    again. *)
Lemma not_held_not_written (pol : Policy) (cfg : PipelineConfig)
      (c : EncodedChunk) (evs : list Event) (s : StreamSink) :
  ~ In c (held s) -> ~ In (Chunk c) evs ->
  exists new, wire (run_from pol cfg s evs) = (wire s ++ new)%list /\ ~ In c new.
Proof.
  revert s. induction evs as [|e evs IH]; intros s Hh Hn; simpl.
  - exists []. rewrite app_nil_r. auto.
  - simpl in Hn.
    assert (Hh' : ~ In c (held (step pol cfg s e))).
    { intros H. apply held_step in H as [H| ->]; auto. }
    destruct (IH (step pol cfg s e) Hh' ltac:(tauto)) as (new & Hw & Hc).
    change (run_from pol cfg s (e :: evs))
      with (run_from pol cfg (step pol cfg s e) evs). rewrite Hw.
    destruct (wire_step pol cfg s e) as [->|(c0 & _ & Hf & _ & ->)].
    + exists new. auto.
    + exists (c0 :: new). rewrite <- app_assoc. split; [reflexivity|].
      intros [->|H]; [|auto]. apply Hh, held_in. auto.
Qed.

(** *** Resuming at a keyframe *)

Lemma skip_head (b : list EncodedChunk) :
  match skip_to_keyframe b with
  | c :: _ => is_keyframe c = true
  | [] => True
  end.
Proof.
  induction b as [|c b IH]; simpl; [exact I|].
  destruct (is_keyframe c) eqn:Ec; [exact Ec | exact IH].
Qed.

Lemma filter_head (l : list EncodedChunk) :
  match filter is_keyframe l with
  | c :: _ => is_keyframe c = true
  | [] => True
  end.
Proof.
  induction l as [|c l IH]; simpl; [exact I|].
  destruct (is_keyframe c) eqn:Ec; [exact Ec | exact IH].
Qed.

Lemma tl_filter_head (l : list EncodedChunk) :
  match tl (filter is_keyframe l) with
  | c :: _ => is_keyframe c = true
  | [] => True
  end.
Proof.
  induction l as [|c l IH]; simpl; [exact I|].
  destruct (is_keyframe c) eqn:Ec; [apply filter_head | exact IH].
Qed.

Lemma resumes_pump (s : StreamSink) :
  resumes_at_keyframe s -> resumes_at_keyframe (pump s).
Proof.
  unfold resumes_at_keyframe.
  destruct (pump_keeps s) as (_ & _ & -> & _ & _ & -> & _). tauto.
Qed.

(** A sink that is to resume at a keyframe writes nothing but a keyframe
    next, whatever happens before. *)
Lemma resumes_step (pol : Policy) (cfg : PipelineConfig) (s : StreamSink) (e : Event) :
  resumes_at_keyframe s ->
  (wire (step pol cfg s e) = wire s /\ resumes_at_keyframe (step pol cfg s e)) \/
  (exists c, is_keyframe c = true /\ wire (step pol cfg s e) = (wire s ++ [c])%list).
Proof.
  intros Hr. destruct e as [c|n]; simpl.
  - left. split; [apply send_keeps|].
    unfold send. destruct (awaiting_keyframe s && non_keyframe c) eqn:Ea.
    + unfold resumes_at_keyframe, held in *. simpl.
      destruct (in_flight s); [exact Hr|]. destruct (buffer s); [reflexivity | exact Hr].
    + destruct (Nat.leb_spec (List.length (buffer s ++ [c])) (Pos.to_nat (capacity pol)))
        as [Hfit|Hover]; apply resumes_pump;
        unfold resumes_at_keyframe, held in *; simpl;
        (destruct (in_flight s); [exact Hr|]);
        destruct (buffer s) as [|k rest]; simpl in *.
      * rewrite Hr in Ea. unfold non_keyframe in Ea.
        destruct (is_keyframe c); [reflexivity | discriminate].
      * exact Hr.
      * pose proof (Pos2Nat.is_pos (capacity pol)). lia.
      * rewrite Hr.
        match goal with |- context [if ?b then _ else _] => destruct b end;
          [exact Hr|].
        simpl. pose proof (filter_head (rest ++ [c])) as Hh.
        destruct (filter is_keyframe (rest ++ [c])) eqn:Ek; [|exact Hh].
        rewrite filter_app in Ek. apply app_eq_nil in Ek as [_ Ek].
        simpl in Ek. unfold non_keyframe.
        destruct (is_keyframe c); [discriminate | reflexivity].
  - unfold on_net. destruct (link s) eqn:El, n; auto.
    + left. split.
      * match goal with |- context [pump ?y] =>
          destruct (pump_keeps y) as (_ & -> & _) end. reflexivity.
      * apply resumes_pump. exact Hr.
    + destruct (in_flight s) as [c|] eqn:Ef; auto.
      right. exists c. split.
      * unfold resumes_at_keyframe, held in Hr. rewrite Ef in Hr. exact Hr.
      * match goal with |- context [pump ?y] =>
          destruct (pump_keeps y) as (_ & -> & _) end. reflexivity.
    + destruct (in_flight s) as [c|] eqn:Ef; auto.
      left. split; [reflexivity|].
      unfold resumes_at_keyframe, held. simpl.
      pose proof (skip_head (buffer s)) as Hh.
      destruct (skip_to_keyframe (buffer s)); [apply orb_true_r | exact Hh].
Qed.

Lemma wire_grows (pol : Policy) (cfg : PipelineConfig) (evs : list Event)
      (s : StreamSink) :
  exists new, wire (run_from pol cfg s evs) = (wire s ++ new)%list.
Proof.
  revert s. induction evs as [|e evs IH]; intros s.
  - exists []. simpl. now rewrite app_nil_r.
  - change (run_from pol cfg s (e :: evs))
      with (run_from pol cfg (step pol cfg s e) evs).
    destruct (IH (step pol cfg s e)) as (new & ->).
    destruct (wire_step pol cfg s e) as [->|(c0 & _ & _ & _ & ->)].
    + exists new. reflexivity.
    + exists (c0 :: new). now rewrite <- app_assoc.
Qed.

Lemma resumes_run (pol : Policy) (cfg : PipelineConfig) (evs : list Event)
      (s : StreamSink) :
  resumes_at_keyframe s ->
  exists new, wire (run_from pol cfg s evs) = (wire s ++ new)%list /\
              match new with
              | c :: _ => is_keyframe c = true
              | [] => True
              end.
Proof.
  revert s. induction evs as [|e evs IH]; intros s Hr.
  - exists []. simpl. rewrite app_nil_r. auto.
  - change (run_from pol cfg s (e :: evs))
      with (run_from pol cfg (step pol cfg s e) evs).
    destruct (resumes_step pol cfg s e Hr) as [[Hw Hr']|(c & Hc & Hw)].
    + destruct (IH _ Hr') as (new & -> & Hn). rewrite Hw. exists new. auto.
    + destruct (wire_grows pol cfg evs (step pol cfg s e)) as (new & ->).
      rewrite Hw. exists (c :: new). rewrite <- app_assoc. auto.
Qed.

(** *** The state machine *)

Lemma backoff_doubles (pol : Policy) (n : nat) :
  backoff_after pol (S n) = Nat.min (2 * backoff_after pol n) (max_delay pol).
Proof.
  unfold backoff_after. rewrite Nat.pow_succ_r'.
  rewrite Nat.mul_assoc, (Nat.mul_comm (first_delay pol) 2), <- Nat.mul_assoc.
  set (x := (first_delay pol * 2 ^ n)%nat). lia.
Qed.

Lemma run_from_snoc (pol : Policy) (cfg : PipelineConfig) (s : StreamSink)
      (evs : list Event) (e : Event) :
  run_from pol cfg s (evs ++ [e]) = step pol cfg (run_from pol cfg s evs) e.
Proof. unfold run_from. rewrite fold_left_app. reflexivity. Qed.

(** After [n] failed attempts in a row the sink has waited the first delay,
    then twice that, and so on up to the ceiling, and is still trying. *)
Lemma after_failures (pol : Policy) (cfg : PipelineConfig) (n : nat) :
  let s := run_from pol cfg (start pol cfg) (repeat (Network ConnectFailed) n) in
  link s = Disconnected /\
  backoff s = backoff_after pol n /\
  attempts s = mkAttempt (sink_host cfg) (sink_port cfg) 0 :: retries pol cfg n.
Proof.
  induction n as [|n IH].
  - simpl. unfold backoff_after, first_backoff, retries. simpl.
    rewrite Nat.mul_1_r. auto.
  - simpl in IH. destruct IH as (Hl & Hb & Ha).
    change (repeat (Network ConnectFailed) (S n))
      with (Network ConnectFailed :: repeat (Network ConnectFailed) n).
    rewrite repeat_cons, run_from_snoc. simpl. unfold on_net. rewrite Hl. simpl.
    rewrite Hb, Ha, backoff_doubles. unfold retries.
    rewrite seq_S, map_app. repeat split.
Qed.

(** The state changes by the two transitions of the machine only. *)
Lemma link_changes (pol : Policy) (cfg : PipelineConfig) (s : StreamSink) (e : Event) :
  link (step pol cfg s e) <> link s ->
  (link s = Disconnected /\ e = Network ConnectSucceeded /\
   link (step pol cfg s e) = Connected) \/
  (link s = Connected /\ e = Network WriteFailed /\
   link (step pol cfg s e) = Disconnected).
Proof.
  destruct e as [c|n]; simpl.
  - intros H. exfalso. apply H, send_keeps.
  - unfold on_net. destruct (link s) eqn:El, n;
      try (intros H; exfalso; apply H; first [exact El | reflexivity]).
    + match goal with |- context [pump ?y] =>
        destruct (pump_keeps y) as (-> & _) end. simpl. auto.
    + destruct (in_flight s); [|intros H; exfalso; apply H; exact El].
      match goal with |- context [pump ?y] =>
        destruct (pump_keeps y) as (-> & _) end. simpl.
      intros H. exfalso. apply H. reflexivity.
    + destruct (in_flight s); [|intros H; exfalso; apply H; exact El].
      simpl. auto.
Qed.

Lemma write_error_resumes (pol : Policy) (cfg : PipelineConfig) (s : StreamSink)
      (c : EncodedChunk) :
  link s = Connected -> in_flight s = Some c ->
  resumes_at_keyframe (on_net pol cfg s WriteFailed).
Proof.
  intros Hl Hf. unfold on_net. rewrite Hl, Hf.
  unfold resumes_at_keyframe, held. simpl.
  pose proof (skip_head (buffer s)) as Hh.
  destruct (skip_to_keyframe (buffer s)); [apply orb_true_r | exact Hh].
Qed.

Lemma attempts_on_net (pol : Policy) (cfg : PipelineConfig) (s : StreamSink)
      (e : NetEvent) :
  attempts (on_net pol cfg s e) = attempts s \/
  exists w, attempts (on_net pol cfg s e)
            = (attempts s ++ [mkAttempt (sink_host cfg) (sink_port cfg) w])%list.
Proof.
  unfold on_net. destruct (link s), e; auto.
  - left. match goal with |- context [pump ?y] =>
      destruct (pump_keeps y) as (_ & _ & _ & _ & -> & _) end. reflexivity.
  - right. eexists. reflexivity.
  - destruct (in_flight s); auto.
    left. match goal with |- context [pump ?y] =>
      destruct (pump_keeps y) as (_ & _ & _ & _ & -> & _) end. reflexivity.
  - destruct (in_flight s); auto. right. eexists. reflexivity.
Qed.

(** Every connect attempt of a run goes to the configured host and port,
    and there is always one to show. *)
Lemma attempts_run (pol : Policy) (cfg : PipelineConfig) (evs : list Event)
      (s : StreamSink) :
  Forall (to_configured cfg) (attempts s) -> attempts s <> [] ->
  Forall (to_configured cfg) (attempts (run_from pol cfg s evs)) /\
  attempts (run_from pol cfg s evs) <> [].
Proof.
  revert s. induction evs as [|e evs IH]; intros s Ha Hn; [auto|].
  apply IH; destruct e as [c|n]; simpl.
  - destruct (send_keeps pol s c) as (_ & _ & _ & ->). exact Ha.
  - destruct (attempts_on_net pol cfg s n) as [->|(w & ->)]; [exact Ha|].
    apply Forall_app. split; [exact Ha|]. repeat constructor.
  - destruct (send_keeps pol s c) as (_ & _ & _ & ->). exact Hn.
  - destruct (attempts_on_net pol cfg s n) as [->|(w & ->)]; [exact Hn|].
    intros H. apply app_eq_nil in H as [_ H]. discriminate.
Qed.

(** C3: the StreamSink keeps the connection to itself and follows the
    state machine of the spec.  Disconnected, it writes nothing; a
    successful connect takes it to Connected; a failed one leaves it
    Disconnected with the chunks it holds, and the next attempt, to the
    configured host and port, comes after the backoff, which doubles from
    one failure to the next (up to the ceiling of the policy): after [n]
    failures in a row it is the first delay times two to the [n].  In
    every run every attempt goes to the configured host and port.
    Connected, a write error takes it back to Disconnected, and the chunk
    in flight is discarded: it is off the wire for good, whatever the
    socket does later, and the next chunk that is written is a keyframe.
    Nothing but these two transitions changes the state. *)
Theorem stream_sink_state_machine :
  forall (pol : Policy) (cfg : PipelineConfig) (s : StreamSink),
    (link s = Disconnected ->
     link (on_net pol cfg s ConnectSucceeded) = Connected /\
     (let s' := on_net pol cfg s ConnectFailed in
      link s' = Disconnected /\
      backoff s' = Nat.min (2 * backoff s) (max_delay pol) /\
      attempts s' =
        (attempts s ++
         [mkAttempt (sink_host cfg) (sink_port cfg) (backoff s)])%list /\
      held s' = held s) /\
     (forall e, wire (step pol cfg s e) = wire s)) /\
    (forall n,
       let s' := run_from pol cfg (start pol cfg)
                          (repeat (Network ConnectFailed) n) in
       link s' = Disconnected /\
       backoff s' = Nat.min (first_delay pol * 2 ^ n) (max_delay pol) /\
       attempts s' =
         mkAttempt (sink_host cfg) (sink_port cfg) 0 :: retries pol cfg n) /\
    (forall evs,
       let s' := run_from pol cfg (start pol cfg) evs in
       Forall (to_configured cfg) (attempts s') /\
       attempts s' <> [] /\
       (link s' = Disconnected -> in_flight s' = None)) /\
    (forall c,
       link s = Connected -> in_flight s = Some c ->
       let s' := on_net pol cfg s WriteFailed in
       link s' = Disconnected /\
       in_flight s' = None /\
       wire s' = wire s /\
       In c (discarded s') /\
       (exists before,
           attempts s' =
             (before ++ [mkAttempt (sink_host cfg) (sink_port cfg) 0])%list) /\
       (~ In c (buffer s) ->
        forall evs, ~ In (Chunk c) evs ->
          exists new,
            wire (run_from pol cfg s' evs) = (wire s ++ new)%list /\
            ~ In c new /\
            match new with
            | k :: _ => is_keyframe k = true
            | [] => True
            end)) /\
    (forall e,
       link (step pol cfg s e) <> link s ->
       (link s = Disconnected /\ e = Network ConnectSucceeded /\
        link (step pol cfg s e) = Connected) \/
       (link s = Connected /\ e = Network WriteFailed /\
        link (step pol cfg s e) = Disconnected)).
Proof.
  intros pol cfg s. split; [|split; [|split; [|split]]].
  - intros Hl. split; [|split].
    + unfold on_net. rewrite Hl.
      match goal with |- context [pump ?y] =>
        destruct (pump_keeps y) as (-> & _) end. reflexivity.
    + unfold on_net. rewrite Hl. repeat split.
    + intros e. destruct (wire_step pol cfg s e) as [H|(c & Hc & _)];
        [exact H | congruence].
  - intros n. apply after_failures.
  - intros evs s'.
    destruct (attempts_run pol cfg evs (start pol cfg)) as (Ha & Hn);
      [repeat constructor | discriminate |].
    split; [exact Ha|]. split; [exact Hn|].
    apply (run_well_formed pol cfg evs (start pol cfg)), start_well_formed.
  - intros c Hl Hf s'.
    assert (Es : s' = mkStreamSink Disconnected (first_backoff pol) None
                        (skip_to_keyframe (buffer s))
                        (awaiting_keyframe s ||
                         match skip_to_keyframe (buffer s) with
                         | [] => true
                         | _ :: _ => false
                         end)
                        (wire s)
                        (discarded s ++ c :: before_keyframe (buffer s))
                        (attempts s ++
                         [mkAttempt (sink_host cfg) (sink_port cfg) 0]))
      by (subst s'; unfold on_net; rewrite Hl, Hf; reflexivity).
    split; [rewrite Es; reflexivity|]. split; [rewrite Es; reflexivity|].
    split; [rewrite Es; reflexivity|].
    split; [rewrite Es; simpl; apply in_or_app; right; left; reflexivity|].
    split; [exists (attempts s); rewrite Es; reflexivity|].
    intros Hb evs Hn.
    assert (Hh : ~ In c (held s')).
    { rewrite Es. unfold held. simpl. intros H. apply Hb, in_skip, H. }
    destruct (not_held_not_written pol cfg c evs s' Hh Hn) as (new & Hw & Hc).
    destruct (resumes_run pol cfg evs s' (write_error_resumes pol cfg s c Hl Hf))
      as (new' & Hw' & Hk).
    assert (new' = new) as -> by (rewrite Hw in Hw'; apply app_inv_head in Hw'; auto).
    exists new. replace (wire s) with (wire s') by (rewrite Es; reflexivity). auto.
  - intros e. apply link_changes.
Qed.

End SinkFacts.

(** ** The orchestrator and the network *)

Module OrchestratorFacts.

Import Core Sink Orchestrator.

Lemma send_all (pol : Policy) (cfg : PipelineConfig) (cs : list EncodedChunk)
      (s : StreamSink) :
  fold_left (send pol) cs s = run_from pol cfg s (map Chunk cs).
Proof.
  revert s. induction cs as [|c cs IH]; intros s; [reflexivity|]. apply IH.
Qed.

Lemma run_from_app (pol : Policy) (cfg : PipelineConfig) (s : StreamSink)
      (evs1 evs2 : list Sink.Event) :
  run_from pol cfg s (evs1 ++ evs2) = run_from pol cfg (run_from pol cfg s evs1) evs2.
Proof. unfold run_from. apply fold_left_app. Qed.

(** Only a fatal error or the signal ends the process. *)
Lemma status_fold (pol : Policy) (inputs : list Input) (p : Process) :
  status (fold_left (step pol) inputs p) = Running <->
  status p = Running /\ forallb survivable inputs = true.
Proof.
  revert p. induction inputs as [|i inputs IH]; intros p; simpl; [tauto|].
  rewrite IH, andb_true_iff. unfold step.
  destruct (status p) eqn:Es; [|rewrite Es; intuition discriminate..].
  destruct i; simpl; intuition discriminate.
Qed.

(** While it runs, the process is the pipeline and the sink side by side:
    the pipeline sees the events of the stages and nothing of the network,
    the sink sees the chunks and the reports of the socket. *)
Lemma running_fold (pol : Policy) (cfg : PipelineConfig) (inputs : list Input)
      (p : Process) :
  status p = Running -> config (pipeline p) = cfg ->
  forallb survivable inputs = true ->
  pipeline (fold_left (step pol) inputs p)
  = fold_left Core.step (stage_events inputs) (pipeline p) /\
  sink (fold_left (step pol) inputs p)
  = run_from pol cfg (sink p) (sink_events (pipeline p) inputs).
Proof.
  revert p. induction inputs as [|i inputs IH]; intros p Hs Hc Hi; simpl in *;
    [split; reflexivity|].
  apply andb_true_iff in Hi as [Hi1 Hi2].
  destruct i as [ev|e| |]; try discriminate; unfold step at 2 4; rewrite Hs.
  - destruct (IH (mkProcess (Core.step (pipeline p) ev)
                    (fold_left (send pol)
                       (skipn (List.length (chunks (pipeline p)))
                              (chunks (Core.step (pipeline p) ev))) (sink p))
                    Running)) as (-> & ->); auto.
    + simpl. rewrite CoreFacts.config_step. exact Hc.
    + simpl. rewrite run_from_app, <- (send_all pol cfg). split; reflexivity.
  - destruct (IH (mkProcess (pipeline p)
                    (on_net pol (config (pipeline p)) (sink p) e) Running))
      as (-> & ->); auto.
    simpl. rewrite Hc. split; reflexivity.
Qed.

Lemma stage_events_app (l1 l2 : list Input) :
  stage_events (l1 ++ l2) = (stage_events l1 ++ stage_events l2)%list.
Proof.
  induction l1 as [|i l1 IH]; simpl; [reflexivity|].
  destruct i; simpl; rewrite IH; reflexivity.
Qed.

Lemma attempts_send_all (pol : Policy) (cs : list EncodedChunk) (s : StreamSink) :
  attempts (fold_left (send pol) cs s) = attempts s.
Proof.
  revert s. induction cs as [|c cs IH]; intros s; simpl; [reflexivity|].
  rewrite IH. apply SinkFacts.send_keeps.
Qed.

Lemma steady_step (pol : Policy) (cfg : PipelineConfig) (p : Process) (i : Input) :
  steady pol cfg p -> steady pol cfg (step pol p i).
Proof.
  intros Hp. pose proof Hp as (Hc & Hw & Ha & Hn). unfold step.
  destruct (status p); [|exact Hp..].
  destruct i as [ev|e|f|]; try exact Hp.
  - split; [simpl; rewrite CoreFacts.config_step; exact Hc|]. simpl.
    rewrite attempts_send_all, (send_all pol cfg).
    split; [apply SinkFacts.run_well_formed, Hw | auto].
  - split; [exact Hc|]. simpl. rewrite Hc.
    split; [apply (SinkFacts.step_well_formed pol cfg (sink p) (Network e)), Hw|].
    destruct (SinkFacts.attempts_on_net pol cfg (sink p) e) as [->|(w & ->)]; [auto|].
    split.
    + apply Forall_app. split; [exact Ha|]. repeat constructor.
    + intros H. apply app_eq_nil in H as [_ H]. discriminate.
Qed.

Lemma steady_run (pol : Policy) (cfg : PipelineConfig) (inputs : list Input) :
  steady pol cfg (run pol cfg inputs).
Proof.
  unfold run.
  assert (H0 : steady pol cfg (boot pol cfg)).
  { split; [reflexivity|]. split; [apply SinkFacts.start_well_formed|].
    split; [repeat constructor | discriminate]. }
  revert H0. generalize (boot pol cfg) as p.
  induction inputs as [|i inputs IH]; intros p Hp; [exact Hp|].
  apply IH, steady_step, Hp.
Qed.

Lemma wire_on_write_error (pol : Policy) (cfg : PipelineConfig) (s : StreamSink) :
  wire (on_net pol cfg s WriteFailed) = wire s.
Proof.
  destruct (SinkFacts.wire_step pol cfg s (Network WriteFailed))
    as [H|(c & _ & _ & H & _)]; [exact H | discriminate].
Qed.

(** C4: no network failure terminates the pipeline process.  Whatever the
    stream socket reports, in whatever order and however often (failed
    connects and write errors among it), the process is running at the end
    unless a stage failed fatally or the termination signal came.  While it
    runs, capturing and encoding go on as if there were no network: the
    pipeline is in the state the events of the stages alone lead to.  The
    sink buffers within its capacity, keeps trying the configured host and
    port with a backoff under the ceiling, and is connected again as soon
    as a connect succeeds; and after a write error the process runs on,
    the pipeline untouched, and the next chunk on the wire is a
    keyframe. *)
Theorem network_failures_never_terminate :
  forall (pol : Policy) (cfg : PipelineConfig) (inputs : list Input),
    let p := run pol cfg inputs in
    (status p = Running <-> forallb survivable inputs = true) /\
    (forallb survivable inputs = true ->
     pipeline p = Core.run cfg (stage_events inputs) /\
     link (sink (step pol p (Socket ConnectSucceeded))) = Connected /\
     (forall c later,
        forallb survivable later = true ->
        link (sink p) = Connected -> in_flight (sink p) = Some c ->
        let p' := run pol cfg (inputs ++ Socket WriteFailed :: later) in
        status p' = Running /\
        pipeline p' = Core.run cfg (stage_events inputs ++ stage_events later) /\
        exists new,
          wire (sink p') = (wire (sink p) ++ new)%list /\
          match new with
          | k :: _ => is_keyframe k = true
          | [] => True
          end)) /\
    (List.length (buffer (sink p)) <= Pos.to_nat (capacity pol))%nat /\
    (backoff (sink p) <= max_delay pol)%nat /\
    (link (sink p) = Disconnected -> in_flight (sink p) = None) /\
    Forall (to_configured cfg) (attempts (sink p)) /\
    attempts (sink p) <> [].
Proof.
  intros pol cfg inputs p.
  destruct (steady_run pol cfg inputs) as (Hc & (Hf & Hb & Hd) & Ha & Hn).
  fold p in Hc, Hf, Hb, Hd, Ha, Hn.
  assert (Hst : status p = Running <-> forallb survivable inputs = true).
  { subst p. unfold run. rewrite status_fold. simpl. tauto. }
  split; [exact Hst|]. split; [|repeat split; assumption].
  intros Hi. pose proof (proj2 Hst Hi) as Hrun.
  split; [|split].
  - subst p. unfold run.
    destruct (running_fold pol cfg inputs (boot pol cfg)) as (-> & _); auto.
  - unfold step. rewrite Hrun. simpl. unfold on_net.
    destruct (link (sink p)) eqn:El; [|exact El].
    match goal with |- context [pump ?y] =>
      destruct (SinkFacts.pump_keeps y) as (-> & _) end. reflexivity.
  - intros c later Hl Hlink Hfl p'.
    assert (Ep' : p' = fold_left (step pol) later (step pol p (Socket WriteFailed)))
      by (subst p' p; unfold run; rewrite fold_left_app; reflexivity).
    assert (E1 : step pol p (Socket WriteFailed)
                 = mkProcess (pipeline p) (on_net pol cfg (sink p) WriteFailed) Running)
      by (unfold step; rewrite Hrun, Hc; reflexivity).
    destruct (running_fold pol cfg later (step pol p (Socket WriteFailed)))
      as (Hpl & Hsk); [rewrite E1; reflexivity | rewrite E1; exact Hc | exact Hl |].
    split; [|split].
    + rewrite Ep'. apply status_fold. rewrite E1. auto.
    + rewrite Ep', Hpl, E1. simpl. subst p. unfold run.
      destruct (running_fold pol cfg inputs (boot pol cfg)) as (-> & _); auto.
      unfold Core.run. rewrite fold_left_app. reflexivity.
    + rewrite Ep', Hsk, E1. simpl.
      destruct (SinkFacts.resumes_run pol cfg (sink_events (pipeline p) later)
                  (on_net pol cfg (sink p) WriteFailed)
                  (SinkFacts.write_error_resumes pol cfg (sink p) c Hlink Hfl))
        as (new & Hw & Hk).
      exists new. rewrite Hw, wire_on_write_error. auto.
Qed.

(** The scenario of the spec: a socket error while chunk 4 of a stream with
    a keyframe every third frame is in flight.  The chunk is gone, the
    process runs on, frames 5 to 8 are encoded during the outage, and after
    the reconnection the wire goes on with the keyframe 6. *)
Example outage_and_resync :
  let cfg := mkPipelineConfig 0 1280 720 500 3 1500 3 "0.0.0.0" 5000 in
  let frame i := Stage (Captured (mkFrame i i [])) in
  let p := run (mkPolicy 4 100 3000) cfg
               [Socket ConnectSucceeded;
                frame 0%nat; Socket WriteCompleted; frame 1%nat; Socket WriteCompleted;
                frame 2%nat; Socket WriteCompleted; frame 3%nat; Socket WriteCompleted;
                frame 4%nat; Socket WriteFailed;
                frame 5%nat; Socket ConnectFailed; frame 6%nat; Socket ConnectFailed;
                frame 7%nat; Socket ConnectSucceeded; Socket WriteCompleted;
                frame 8%nat; Socket WriteCompleted] in
  status p = Running /\
  map chunk_seq (chunks (pipeline p)) = [0; 1; 2; 3; 4; 5; 6; 7; 8]%nat /\
  map chunk_seq (wire (sink p)) = [0; 1; 2; 3; 6; 7]%nat /\
  map chunk_seq (discarded (sink p)) = [4; 5]%nat /\
  map waited (attempts (sink p)) = [0; 0; 100; 200]%nat.
Proof. vm_compute. repeat split. Qed.

End OrchestratorFacts.

(** ** The configuration *)

Module ConfigFacts.

Import Sh StartStreaming.

Lemma invocation_ext (v v' : Vars) :
  (forall x, In x config_vars -> v x = v' x) -> invocation v = invocation v'.
Proof.
  intros H. unfold invocation.
  rewrite !(H _) by (simpl; tauto). reflexivity.
Qed.

Lemma safe_seq {B : Type} (c : Sh unit) (k : Sh B) :
  config_safe c -> config_safe k -> config_safe (seq c k).
Proof.
  intros Hc Hk s. unfold seq, bind.
  destruct (Hc s) as [Hc1 Hc2]. destruct (c s) as [[] s1|st s1] eqn:Ec.
  - destruct (Hk s1) as [Hk1 Hk2]. split.
    + intros x Hx. rewrite Hk1 by exact Hx. apply (Hc1 x Hx).
    + exact Hk2.
  - split; [exact Hc1|].
    intros cmd s' H. injection H as -> ->. apply (Hc2 cmd s' eq_refl).
Qed.

Lemma safe_echo (line : Vars -> string) : config_safe (echo line).
Proof. intros s. split; [reflexivity | discriminate]. Qed.

Lemma safe_exit {A : Type} (code : Z) : config_safe (@exit A code).
Proof. intros s. split; [reflexivity | discriminate]. Qed.

Lemma safe_last {A : Type} (h : Host) (name : string) :
  config_safe (@last A h name invocation).
Proof.
  intros s. unfold last. destruct (has_command h name).
  - split; [reflexivity|]. intros cmd s' H. injection H as <- <-. reflexivity.
  - split; [reflexivity | discriminate].
Qed.

Lemma safe_assign (y : string) (v : Vars -> string) :
  existsb (String.eqb y) config_vars = false -> config_safe (assign y v).
Proof.
  intros Hy s. split; [|discriminate].
  intros x Hx. simpl. unfold setvar.
  destruct (String.eqb_spec x y) as [->|]; [|reflexivity].
  assert (existsb (String.eqb y) config_vars = true) as Hin
      by (apply existsb_exists; exists y; split; [exact Hx | apply String.eqb_refl]).
  congruence.
Qed.

Lemma safe_read (h : Host) : config_safe (read h).
Proof.
  intros s. unfold read. destruct (stdin_line h) as [l|].
  - apply (safe_assign "REPLY" (fun _ => l)). reflexivity.
  - split; [reflexivity | discriminate].
Qed.

Lemma safe_when (b : Vars -> bool) (body : Sh unit) :
  config_safe body -> config_safe (when b body).
Proof.
  intros Hb s. unfold when. destruct (b (vars s)); [apply Hb|].
  split; [reflexivity | discriminate].
Qed.

Lemma safe_echo_div (h : Host) (x : string) (d : Z)
      (line : Vars -> string -> string) :
  config_safe (echo_div h x d line).
Proof.
  intros s. unfold echo_div. destruct (arith_div h (vars s x) d) as [q|].
  - apply safe_echo.
  - split; [reflexivity | discriminate].
Qed.

(** After the configuration block nothing in start_streaming.sh writes a
    configuration variable, and what it launches is [stream_to_kvs.py] on
    those variables. *)
Lemma body_safe (h : Host) : config_safe (body h).
Proof.
  unfold body.
  repeat first
    [ apply safe_seq
    | apply safe_echo
    | apply safe_echo_div
    | apply safe_read
    | apply safe_last
    | apply safe_exit
    | apply safe_when
    | apply safe_assign; reflexivity ].
Qed.

Lemma configuration_sets (env : Vars) (out : list string) :
  exists v, configuration (mkSt env out) = Next tt (mkSt v out) /\
            forall x, In x config_vars -> v x = setting env x.
Proof.
  eexists. split; [lazy; reflexivity|].
  intros x Hx. simpl in Hx.
  repeat (destruct Hx as [<-|Hx]; [lazy; reflexivity|]). contradiction.
Qed.


End ConfigFacts.

(** ** The scripts: outcomes and output *)

Module ScriptFacts.

Import Sh Outcome.

(** start_streaming.sh as far as its [read]: past the two tests and past
    the keyframe line, printed or not. *)
Ltac to_read h env Hf Hp :=
  let Em := fresh "Em" in
  destruct (env "MODEL_PATH") eqn:Em;
    lazy -[is_file] in Hf; StartupFacts.run_script;
    rewrite ?Em; StartupFacts.run_script; rewrite Hf; StartupFacts.run_script;
    rewrite Hp; StartupFacts.run_script;
    destruct (arith_div h _ _); StartupFacts.run_script.

Lemma start_streaming_no_input (h : Host) (env : Vars) :
  is_file h (Startup.model_path env) = true ->
  has_command h "python3" = true ->
  stdin_line h = None ->
  fst (run (StartStreaming.start_streaming h) env) = Exit 1.
Proof.
  unfold Startup.model_path. intros Hf Hp Hs.
  to_read h env Hf Hp; rewrite Hs; reflexivity.
Qed.

Lemma start_streaming_no_python_command (h : Host) (env : Vars) (l : string) :
  is_file h (Startup.model_path env) = true ->
  has_command h "python3" = true ->
  stdin_line h = Some l ->
  has_command h "python" = false ->
  fst (run (StartStreaming.start_streaming h) env) = Exit 127.
Proof.
  unfold Startup.model_path. intros Hf Hp Hs Hy.
  to_read h env Hf Hp; rewrite Hs; StartupFacts.run_script; rewrite Hy; reflexivity.
Qed.

Lemma start_streaming_launches (h : Host) (env : Vars) (l : string) :
  is_file h (Startup.model_path env) = true ->
  has_command h "python3" = true ->
  stdin_line h = Some l ->
  has_command h "python" = true ->
  exists cmd, fst (run (StartStreaming.start_streaming h) env) = Last cmd.
Proof.
  unfold Startup.model_path. intros Hf Hp Hs Hy.
  to_read h env Hf Hp; rewrite Hs; StartupFacts.run_script; rewrite Hy;
    eexists; reflexivity.
Qed.

(** What start_streaming.sh launches is [stream_to_kvs.py] on the startup
    values of the configuration variables. *)
Lemma start_streaming_last (h : Host) (env : Vars) (cmd : Command) :
  fst (run (StartStreaming.start_streaming h) env) = Last cmd ->
  cmd = StartStreaming.invocation (StartStreaming.setting env).
Proof.
  destruct (ConfigFacts.configuration_sets env []) as (v & Hconf & Hv).
  destruct (ConfigFacts.body_safe h (mkSt v [])) as [Hkeep Hlast].
  unfold run, StartStreaming.start_streaming, seq, bind. rewrite Hconf.
  destruct (StartStreaming.body h (mkSt v [])) as [[] s'|st s'] eqn:Eb; simpl;
    [discriminate|].
  intros ->. rewrite (Hlast cmd s' eq_refl).
  apply ConfigFacts.invocation_ext. intros x Hx.
  rewrite <- (Hv x Hx). apply (Hkeep x Hx).
Qed.

(** start_streaming.sh reaches its last line exactly when the model file
    exists, [python3] is installed and a line can be read from the terminal;
    otherwise it ends with exit status 1.  On its last line it calls
    [python], not the [python3] it tested for: with [python] installed it
    hands over to [stream_to_kvs.py] on the startup configuration, without
    it the script ends with status 127 and nothing launched.  A keyframe
    interval that bash cannot divide changes none of this. *)
Theorem start_streaming_outcome :
  forall (h : Host) (env : Vars),
    fst (run (StartStreaming.start_streaming h) env) =
    if can_launch h env
    then if has_command h "python"
         then Last (StartStreaming.invocation (StartStreaming.setting env))
         else Exit 127
    else Exit 1.
Proof.
  intros h env. unfold can_launch.
  destruct (is_file h (Startup.model_path env)) eqn:Hf; simpl.
  - destruct (has_command h "python3") eqn:Hp; simpl.
    + destruct (stdin_line h) as [l|] eqn:Hs; simpl.
      * destruct (has_command h "python") eqn:Hy.
        -- destruct (start_streaming_launches h env l Hf Hp Hs Hy) as [cmd Hc].
           rewrite Hc. f_equal. apply (start_streaming_last h env cmd Hc).
        -- apply (start_streaming_no_python_command h env l Hf Hp Hs Hy).
      * apply (start_streaming_no_input h env Hf Hp Hs).
    + destruct (StartupFacts.start_streaming_no_python h env Hf Hp) as (s & -> & _).
      reflexivity.
  - destruct (StartupFacts.start_streaming_no_model h env Hf) as (s & -> & _).
    reflexivity.
Qed.

(** The [case] of docker-entrypoint.sh, reached with every test passed. *)
Lemma entrypoint_shell (h : Host) (env : Vars) :
  Entrypoint.ready h env ->
  String.eqb (positional1 h) "kvs" = false ->
  String.eqb (positional1 h) "bash" || String.eqb (positional1 h) "sh" = true ->
  fst (run (Entrypoint.docker_entrypoint h) env) = Exec BinBash.
Proof.
  intros (Hk & Hs & Hg & Hi) Ha Hb.
  unfold Entrypoint.docker_entrypoint. rewrite Ha, Hb, Hg, Hi.
  destruct (env "AWS_ACCESS_KEY_ID") eqn:Ek; [contradiction|].
  destruct (env "AWS_SECRET_ACCESS_KEY") eqn:Es; [contradiction|].
  destruct (env "TCP_HOST") eqn:Eh; [destruct (proc_version_linux h) eqn:El|];
    StartupFacts.run_script; rewrite ?Eh; StartupFacts.run_script;
    rewrite ?Ek; StartupFacts.run_script; rewrite ?Es; reflexivity.
Qed.

Lemma entrypoint_unknown (h : Host) (env : Vars) :
  Entrypoint.ready h env ->
  String.eqb (positional1 h) "kvs" = false ->
  String.eqb (positional1 h) "bash" || String.eqb (positional1 h) "sh" = false ->
  fst (run (Entrypoint.docker_entrypoint h) env) = Exit 1.
Proof.
  intros (Hk & Hs & Hg & Hi) Ha Hb.
  unfold Entrypoint.docker_entrypoint. rewrite Ha, Hb, Hg, Hi.
  destruct (env "AWS_ACCESS_KEY_ID") eqn:Ek; [contradiction|].
  destruct (env "AWS_SECRET_ACCESS_KEY") eqn:Es; [contradiction|].
  destruct (env "TCP_HOST") eqn:Eh; [destruct (proc_version_linux h) eqn:El|];
    StartupFacts.run_script; rewrite ?Eh; StartupFacts.run_script;
    rewrite ?Ek; StartupFacts.run_script; rewrite ?Es; reflexivity.
Qed.

Lemma container_ready_spec (h : Host) (env : Vars) :
  container_ready h env = true <-> Entrypoint.ready h env.
Proof.
  unfold container_ready, Entrypoint.ready.
  rewrite !andb_true_iff, !negb_true_iff.
  destruct (String.eqb_spec (env "AWS_ACCESS_KEY_ID") "");
    destruct (String.eqb_spec (env "AWS_SECRET_ACCESS_KEY") "");
    intuition congruence.
Qed.

(** docker-entrypoint.sh never ends with status 0 and never returns to a
    caller: with a credential unset, [gst-launch-1.0] missing or [kvssink]
    not inspectable it ends with exit 1 whatever the command; otherwise
    [kvs] execs the receiver on the chosen host, [bash] and [sh] exec a
    shell, and every other command, the empty one included, ends with
    exit 1. *)
Theorem docker_entrypoint_outcome :
  forall (h : Host) (env : Vars),
    fst (run (Entrypoint.docker_entrypoint h) env) =
    if container_ready h env then
      if String.eqb (positional1 h) "kvs" then
        Exec (GstLaunch (Gst.receiver (Entrypoint.tcp_host h env)
                                      (env "TCP_PORT") (env "STREAM_NAME")))
      else if String.eqb (positional1 h) "bash" || String.eqb (positional1 h) "sh"
           then Exec BinBash
           else Exit 1
    else Exit 1.
Proof.
  intros h env.
  destruct (container_ready h env) eqn:Hr.
  - apply container_ready_spec in Hr.
    destruct (String.eqb_spec (positional1 h) "kvs") as [Ha|Ha].
    + apply StreamFacts.entrypoint_execs_pipeline; assumption.
    + apply String.eqb_neq in Ha.
      destruct (String.eqb (positional1 h) "bash" || String.eqb (positional1 h) "sh")
        eqn:Hb.
      * apply entrypoint_shell; assumption.
      * apply entrypoint_unknown; assumption.
  - unfold container_ready in Hr.
    destruct (String.eqb_spec (env "AWS_ACCESS_KEY_ID") "") as [Hk|Hk].
    { destruct (StartupFacts.entrypoint_no_access_key h env Hk) as (s & -> & _).
      reflexivity. }
    destruct (String.eqb_spec (env "AWS_SECRET_ACCESS_KEY") "") as [Hs|Hs].
    { destruct (StartupFacts.entrypoint_no_secret_key h env Hs) as (s & -> & _).
      reflexivity. }
    simpl in Hr.
    destruct (has_command h "gst-launch-1.0") eqn:Hg.
    + simpl in Hr.
      destruct (StartupFacts.entrypoint_no_kvssink h env Hk Hs Hg Hr) as (s & -> & _).
      reflexivity.
    + destruct (StartupFacts.entrypoint_no_gstreamer h env Hk Hs Hg) as (s & -> & _).
      reflexivity.
Qed.

(** *** The credentials and the output *)

Section IndifferenceRules.

Variable R : Vars -> Vars -> Prop.
Variable hidden : string.
Hypothesis R_setvar :
  forall x val v v', x <> hidden -> R v v' -> R (setvar x val v) (setvar x val v').

Lemma indifferent_seq {B : Type} (c : Sh unit) (k : Sh B) :
  indifferent R c -> indifferent R k -> indifferent R (seq c k).
Proof.
  intros Hc Hk s s' Hs. unfold seq, bind. specialize (Hc s s' Hs).
  destruct (c s) as [[] t|st t], (c s') as [[] t'|st' t']; try contradiction.
  - apply Hk, Hc.
  - exact Hc.
Qed.

Lemma indifferent_echo (line : Vars -> string) :
  blind R line -> indifferent R (echo line).
Proof.
  intros Hl s s' [Hout Hv]. simpl. split; [reflexivity|]. split; [|exact Hv].
  simpl. rewrite Hout, (Hl _ _ Hv). reflexivity.
Qed.

Lemma indifferent_assign (x : string) (val : Vars -> string) :
  x <> hidden -> blind R val -> indifferent R (assign x val).
Proof.
  intros Hx Hval s s' [Hout Hv]. simpl. split; [reflexivity|]. split; [exact Hout|].
  simpl. rewrite (Hval _ _ Hv). apply R_setvar; assumption.
Qed.

Lemma indifferent_exit {A : Type} (code : Z) : indifferent R (@exit A code).
Proof. intros s s' Hs. simpl. split; [reflexivity | exact Hs]. Qed.

Lemma indifferent_exec {A : Type} (c : Vars -> Command) :
  blind R c -> indifferent R (@exec A c).
Proof.
  intros Hc s s' Hs. simpl. split; [|exact Hs].
  destruct Hs as [_ Hv]. rewrite (Hc _ _ Hv). reflexivity.
Qed.

Lemma indifferent_when (b : Vars -> bool) (body : Sh unit) :
  blind R b -> indifferent R body -> indifferent R (when b body).
Proof.
  intros Hb Hbody s s' Hs. unfold when.
  rewrite (Hb (vars s) (vars s')) by apply Hs.
  destruct (b (vars s')); [apply Hbody, Hs|].
  split; [reflexivity | exact Hs].
Qed.

Lemma indifferent_ifelse {A : Type} (b : Vars -> bool) (t e : Sh A) :
  blind R b -> indifferent R t -> indifferent R e -> indifferent R (ifelse b t e).
Proof.
  intros Hb Ht He s s' Hs. unfold ifelse.
  rewrite (Hb (vars s) (vars s')) by apply Hs.
  destruct (b (vars s')); [apply Ht, Hs | apply He, Hs].
Qed.

Lemma indifferent_run (prog : Sh unit) (env env' : Vars) :
  indifferent R prog -> R env env' ->
  fst (run prog env) = fst (run prog env') /\
  stdout (snd (run prog env)) = stdout (snd (run prog env')).
Proof.
  intros Hp Hr. unfold run.
  assert (Ha : alike R (mkSt env []) (mkSt env' [])) by (split; [reflexivity | exact Hr]).
  specialize (Hp _ _ Ha).
  destruct (prog (mkSt env [])) as [[] t|st t], (prog (mkSt env' [])) as [[] t'|st' t'];
    try contradiction; simpl.
  - split; [reflexivity | apply Hp].
  - destruct Hp as [-> [Hout _]]. split; [reflexivity | exact Hout].
Qed.

End IndifferenceRules.

Lemma same_but_secret_setvar (x val : string) (v v' : Vars) :
  x <> "AWS_SECRET_ACCESS_KEY" ->
  same_but_secret v v' -> same_but_secret (setvar x val v) (setvar x val v').
Proof.
  intros Hx [Hag Hem]. unfold setvar. split.
  - intros y Hy. destruct (String.eqb y x); [reflexivity | apply Hag, Hy].
  - destruct (String.eqb_spec "AWS_SECRET_ACCESS_KEY" x) as [E|_];
      [congruence | exact Hem].
Qed.

Lemma same_but_key_tail_setvar (x val : string) (v v' : Vars) :
  x <> "AWS_ACCESS_KEY_ID" ->
  same_but_key_tail v v' -> same_but_key_tail (setvar x val v) (setvar x val v').
Proof.
  intros Hx (Hag & Hem & Hsub). unfold setvar. split; [|split].
  - intros y Hy. destruct (String.eqb y x); [reflexivity | apply Hag, Hy].
  - destruct (String.eqb_spec "AWS_ACCESS_KEY_ID" x) as [E|_];
      [congruence | exact Hem].
  - destruct (String.eqb_spec "AWS_ACCESS_KEY_ID" x) as [E|_];
      [congruence | exact Hsub].
Qed.

(** A reading is blind when it looks up other variables only and asks of the
    hidden one only what the relation lets through. *)
Ltac blindness :=
  let H := fresh "H" in
  intros ? ? H; destruct H as (?Hag & ?Hrest);
  try match goal with Hr : _ /\ _ |- _ => destruct Hr as (?Hem & ?Hsub) end;
  cbv beta delta [Entrypoint.credentials_error Entrypoint.gstreamer_error
                  Entrypoint.kvssink_error Entrypoint.kvs_pipeline];
  repeat match goal with
         | E : String.eqb _ "" = String.eqb _ "" |- _ => rewrite E; clear E
         | E : String.substring _ _ _ = String.substring _ _ _ |- _ => rewrite E; clear E
         end;
  repeat match goal with
         | Hag : forall x, x <> _ -> _ = _ |- _ => rewrite (Hag _) by discriminate
         end;
  reflexivity.

Ltac walk setvar_rule :=
  unfold Entrypoint.docker_entrypoint;
  repeat first
    [ apply (indifferent_seq _)
    | apply (indifferent_exit _)
    | apply (indifferent_echo _); blindness
    | apply (indifferent_exec _); blindness
    | apply (indifferent_assign _ _ setvar_rule); [discriminate | blindness]
    | apply (indifferent_when _); [blindness|]
    | apply (indifferent_ifelse _); [blindness| |] ].

Lemma docker_entrypoint_keeps_secret (h : Host) :
  indifferent same_but_secret (Entrypoint.docker_entrypoint h).
Proof. walk same_but_secret_setvar. Qed.

Lemma docker_entrypoint_shows_key_head (h : Host) :
  indifferent same_but_key_tail (Entrypoint.docker_entrypoint h).
Proof. walk same_but_key_tail_setvar. Qed.

Lemma setvar_other (x y val : string) (env : Vars) :
  y <> x -> setvar x val env y = env y.
Proof.
  intros H. unfold setvar. destruct (String.eqb_spec y x); [contradiction | reflexivity].
Qed.

Lemma setvar_same (x val : string) (env : Vars) : setvar x val env x = val.
Proof. unfold setvar. now rewrite String.eqb_refl. Qed.

Lemma eqb_empty (a b : string) :
  a <> "" -> b <> "" -> String.eqb a "" = String.eqb b "".
Proof. destruct a, b; simpl; congruence. Qed.

(** docker-entrypoint.sh does not let the secret access key out: two runs
    that differ only in the (set) value of [AWS_SECRET_ACCESS_KEY] print the
    same lines and end the same way. *)
Theorem secret_key_not_printed :
  forall (h : Host) (env : Vars) (secret secret' : string),
    secret <> "" -> secret' <> "" ->
    let r := run (Entrypoint.docker_entrypoint h)
                 (setvar "AWS_SECRET_ACCESS_KEY" secret env) in
    let r' := run (Entrypoint.docker_entrypoint h)
                  (setvar "AWS_SECRET_ACCESS_KEY" secret' env) in
    fst r = fst r' /\ stdout (snd r) = stdout (snd r').
Proof.
  intros h env secret secret' Hs Hs' r r'. subst r r'.
  apply (indifferent_run same_but_secret); [apply docker_entrypoint_keeps_secret|].
  split.
  - intros x Hx. now rewrite !setvar_other.
  - rewrite !setvar_same. now apply eqb_empty.
Qed.

(** The theorem on the demonstration container with two different secrets. *)
Lemma secret_key_not_printed_witness :
  let r := run (Entrypoint.docker_entrypoint (Demo.ready_host "kvs"))
               (setvar "AWS_SECRET_ACCESS_KEY" "first" Demo.container_env) in
  let r' := run (Entrypoint.docker_entrypoint (Demo.ready_host "kvs"))
                (setvar "AWS_SECRET_ACCESS_KEY" "second" Demo.container_env) in
  fst r = fst r' /\ stdout (snd r) = stdout (snd r').
Proof.
  apply (secret_key_not_printed (Demo.ready_host "kvs") Demo.container_env
           "first" "second"); discriminate.
Defined.

(** Of the access key id docker-entrypoint.sh shows the first ten
    characters and nothing more: two runs whose (set) [AWS_ACCESS_KEY_ID]
    agree on their first ten characters print the same lines and end the
    same way. *)
Theorem access_key_shown_by_head :
  forall (h : Host) (env : Vars) (id id' : string),
    id <> "" -> id' <> "" ->
    String.substring 0 10 id = String.substring 0 10 id' ->
    let r := run (Entrypoint.docker_entrypoint h) (setvar "AWS_ACCESS_KEY_ID" id env) in
    let r' := run (Entrypoint.docker_entrypoint h) (setvar "AWS_ACCESS_KEY_ID" id' env) in
    fst r = fst r' /\ stdout (snd r) = stdout (snd r').
Proof.
  intros h env id id' Hi Hi' Hsub r r'. subst r r'.
  apply (indifferent_run same_but_key_tail); [apply docker_entrypoint_shows_key_head|].
  split; [|split].
  - intros x Hx. now rewrite !setvar_other.
  - rewrite !setvar_same. now apply eqb_empty.
  - rewrite !setvar_same. exact Hsub.
Qed.

(** The theorem on two ids that part after their tenth character. *)
Lemma access_key_shown_by_head_witness :
  let r := run (Entrypoint.docker_entrypoint (Demo.ready_host "kvs"))
               (setvar "AWS_ACCESS_KEY_ID" "AKIAEXAMPLE0001" Demo.container_env) in
  let r' := run (Entrypoint.docker_entrypoint (Demo.ready_host "kvs"))
                (setvar "AWS_ACCESS_KEY_ID" "AKIAEXAMPLE9999" Demo.container_env) in
  fst r = fst r' /\ stdout (snd r) = stdout (snd r').
Proof.
  apply (access_key_shown_by_head (Demo.ready_host "kvs") Demo.container_env
           "AKIAEXAMPLE0001" "AKIAEXAMPLE9999"); [discriminate | discriminate | reflexivity].
Defined.

End ScriptFacts.

(** ** The stream socket: what the receiver takes off the wire *)

Module WireFacts.

Import Sh Gst.






End WireFacts.


(** ** app.js: labels, cards, statistics, loading *)

Module DashboardFacts.

Import JsString App Dashboard.

(** [formatTime] in terms of the elapsed milliseconds: under one minute
    (a date in the future included) "just now"; under one hour whole
    minutes, 1 to 59; under one day whole hours, 1 to 23; under seven days
    whole days, 1 to 6; from seven days on the date itself. *)
Theorem formatTime_buckets :
  forall now date : Z,
    let d := now - date in
    formatTime now date =
      (if d <? 60000 then JustNow
       else if d <? 3600000 then MinutesAgo (d / 60000)
       else if d <? 86400000 then HoursAgo (d / 3600000)
       else if d <? 604800000 then DaysAgo (d / 86400000)
       else OnDate date) /\
    (forall n, formatTime now date = MinutesAgo n -> 1 <= n <= 59) /\
    (forall n, formatTime now date = HoursAgo n -> 1 <= n <= 23) /\
    (forall n, formatTime now date = DaysAgo n -> 1 <= n <= 6).
Proof.
  intros now date d. unfold formatTime. fold d.
  assert (H60 : d / 60000 / 60 = d / 3600000)
    by (rewrite Z.div_div by lia; reflexivity).
  assert (H24 : d / 60000 / 60 / 24 = d / 86400000)
    by (rewrite !Z.div_div by lia; reflexivity).
  rewrite H24, H60.
  pose proof (Z.div_mod d 60000 ltac:(lia)) as E1.
  pose proof (Z.mod_pos_bound d 60000 ltac:(lia)) as B1.
  pose proof (Z.div_mod d 3600000 ltac:(lia)) as E2.
  pose proof (Z.mod_pos_bound d 3600000 ltac:(lia)) as B2.
  pose proof (Z.div_mod d 86400000 ltac:(lia)) as E3.
  pose proof (Z.mod_pos_bound d 86400000 ltac:(lia)) as B3.
  repeat match goal with
         | |- context [?a <? ?b] => destruct (Z.ltb_spec a b)
         end;
    repeat split; intros; try reflexivity; try discriminate; try lia;
    match goal with H : _ = _ |- _ => injection H as <-; lia end.
Qed.

(** *** File names *)

Lemma append_assoc (a b c : string) : (a ++ b) ++ c = a ++ (b ++ c).
Proof. induction a as [|x a IH]; simpl; [reflexivity | now rewrite IH]. Qed.

Lemma append_nil_r (a : string) : a ++ "" = a.
Proof. induction a as [|x a IH]; simpl; [reflexivity | now rewrite IH]. Qed.

Lemma split_nonempty (sep : ascii) (s : string) : split sep s <> [].
Proof.
  destruct s as [|c s]; simpl; [discriminate|].
  destruct (Ascii.eqb c sep); [discriminate|].
  destruct (split sep s); discriminate.
Qed.

(** Joining the pieces of a split with the separator gives the string
    back. *)
Lemma split_join (sep : ascii) (s : string) :
  String.concat (String sep "") (split sep s) = s.
Proof.
  induction s as [|c s IH]; simpl; [reflexivity|].
  pose proof (split_nonempty sep s) as Hne.
  destruct (split sep s) as [|seg rest]; [contradiction|].
  destruct (Ascii.eqb_spec c sep) as [->|Hc].
  - change (String.concat (String sep "") ("" :: seg :: rest))
      with (String sep (String.concat (String sep "") (seg :: rest))).
    now rewrite IH.
  - destruct rest as [|seg' rest']; simpl in *; now rewrite IH.
Qed.

Lemma split_pieces (sep : ascii) (s : string) :
  Forall (fun seg => has_char sep seg = false) (split sep s).
Proof.
  induction s as [|c s IH]; simpl; [repeat constructor|].
  destruct (Ascii.eqb_spec c sep) as [->|Hc]; [constructor; [reflexivity | exact IH]|].
  destruct (split sep s) as [|seg rest]; [repeat constructor; simpl|].
  - apply Ascii.eqb_neq in Hc. now rewrite Hc.
  - inversion IH as [|? ? Hseg Hrest]; subst. constructor; [|exact Hrest].
    simpl. apply Ascii.eqb_neq in Hc. now rewrite Hc.
Qed.

Lemma concat_last (sep : string) (l : list string) :
  l <> [] ->
  exists dir, String.concat sep l = dir ++ last l "" /\
              (dir = "" \/ exists d, dir = d ++ sep).
Proof.
  induction l as [|x l IH]; intros Hne; [contradiction|].
  destruct l as [|y l'].
  - exists "". split; [reflexivity | left; reflexivity].
  - destruct (IH ltac:(discriminate)) as (dir & Hc & Hd).
    change (last (x :: y :: l') "") with (last (y :: l') "").
    change (String.concat sep (x :: y :: l'))
      with (x ++ sep ++ String.concat sep (y :: l')).
    rewrite Hc. exists (x ++ sep ++ dir). split.
    + now rewrite !append_assoc.
    + right. destruct Hd as [->|[d ->]].
      * exists x. now rewrite append_nil_r.
      * exists (x ++ sep ++ d). now rewrite !append_assoc.
Qed.

(** The title of a card and of the modal, [key.split('/').pop()], is the
    part of the key behind its last slash: it holds no slash, and the key
    is this name behind a prefix that is empty or ends with a slash.  A
    key without a slash is its own file name; a key that ends with a slash
    has the empty name. *)
Theorem filename_is_last_segment :
  forall key : string,
    has_char "/"%char (filename key) = false /\
    (exists dir, key = dir ++ filename key /\
                 (dir = "" \/ exists d, dir = d ++ "/")) /\
    (has_char "/"%char key = false -> filename key = key) /\
    filename (key ++ "/") = "".
Proof.
  intros key. unfold filename.
  pose proof (split_nonempty "/"%char key) as Hne.
  pose proof (split_pieces "/"%char key) as Hp.
  pose proof (split_join "/"%char key) as Hj.
  split; [|split; [|split]].
  - rewrite Forall_forall in Hp. apply Hp.
    destruct (split "/"%char key) as [|x l]; [contradiction|].
    apply (@exists_last _ (x :: l)) in Hne as (l' & a & E). rewrite E.
    rewrite last_last. apply in_or_app. right. left. reflexivity.
  - destruct (concat_last "/" _ Hne) as (dir & Hc & Hd).
    exists dir. split; [congruence | exact Hd].
  - clear. induction key as [|c key IH]; simpl; intros H; [reflexivity|].
    apply orb_false_elim in H as [Hc Hk]. rewrite Hc.
    pose proof (split_nonempty "/"%char key) as Hne.
    specialize (IH Hk).
    destruct (split "/"%char key) as [|seg [|seg' rest]] eqn:Es; [contradiction| |].
    + simpl in *. now rewrite IH.
    + exfalso. pose proof (split_join "/"%char key) as Hj. rewrite Es in Hj.
      change (String.concat "/" (seg :: seg' :: rest))
        with (seg ++ "/" ++ String.concat "/" (seg' :: rest)) in Hj.
      rewrite <- Hj in Hk. clear - Hk.
      induction seg as [|x seg IHs]; simpl in Hk; [discriminate|].
      apply orb_false_elim in Hk as [_ Hk]. auto.
  - clear. induction key as [|c key IH]; simpl; [reflexivity|].
    pose proof (split_nonempty "/"%char (key ++ "/")) as Hne.
    destruct (split "/"%char (key ++ "/")) as [|seg rest] eqn:Es; [contradiction|].
    destruct (Ascii.eqb c "/"%char).
    + exact IH.
    + destruct rest as [|seg' rest'].
      * exfalso. pose proof (split_pieces "/"%char (key ++ "/")) as Hp.
        pose proof (split_join "/"%char (key ++ "/")) as Hj.
        rewrite Es in Hp, Hj. simpl in Hj. inversion Hp as [|? ? Hseg _]; subst seg.
        clear - Hseg. induction key as [|x key IHk]; simpl in Hseg; [discriminate|].
        apply orb_false_elim in Hseg as [_ Hseg]. auto.
      * exact IH.
Qed.

(** *** Statistics *)

Lemma latestVideo_spec (rest : list Video) :
  forall first,
    let latest := latestVideo first rest in
    In latest (first :: rest) /\
    Forall (fun v => last_modified v <= last_modified latest) (first :: rest).
Proof.
  unfold latestVideo.
  induction rest as [|w rest IH]; intros first; simpl.
  - split; [left; reflexivity | repeat constructor; lia].
  - destruct (Z.ltb_spec (last_modified first) (last_modified w)) as [Hlt|Hge].
    + destruct (IH w) as [Hin Hall]. simpl in Hin. split; [tauto|].
      inversion Hall as [|? ? Hw Hrest]; subst.
      constructor; [lia|]. constructor; assumption.
    + destruct (IH first) as [Hin Hall]. simpl in Hin. split; [tauto|].
      inversion Hall as [|? ? Hf Hrest]; subst.
      constructor; [exact Hf|]. constructor; [lia | exact Hrest].
Qed.

Lemma fold_sum_from (l : list Video) (a : Z) :
  fold_left (fun sum video => sum + size video) l a =
  a + fold_right (fun video sum => size video + sum) 0 l.
Proof.
  revert a. induction l as [|v l IH]; intros a; simpl; [lia|].
  rewrite IH. lia.
Qed.

(** [updateStatistics] counts the videos of [state.videos] (not the
    filtered ones), sums their sizes, and dates the last update by a video
    of the list that no other video is newer than; with no video the last
    update is the dash.  It leaves the lists and the grid alone. *)
Theorem updateStatistics_spec :
  forall (now : Z) (v : ListView),
    let v' := updateStatistics now v in
    totalVideos v' = List.length (videos (st v)) /\
    totalSize v' = fold_right (fun video sum => size video + sum) 0 (videos (st v)) /\
    (videos (st v) = [] -> lastUpdate v' = None) /\
    (videos (st v) <> [] ->
     exists latest,
       In latest (videos (st v)) /\
       Forall (fun w => last_modified w <= last_modified latest) (videos (st v)) /\
       lastUpdate v' = Some (formatTime now (last_modified latest))) /\
    st v' = st v /\ videosGrid v' = videosGrid v.
Proof.
  intros now v v'. subst v'. simpl.
  split; [reflexivity|]. split; [apply (fold_sum_from _ 0)|].
  split; [intros ->; reflexivity|]. split; [|split; reflexivity].
  intros Hne. destruct (videos (st v)) as [|first rest]; [contradiction|].
  destruct (latestVideo_spec rest first) as [Hin Hall].
  exists (latestVideo first rest). repeat split; assumption.
Qed.

(** *** The grid *)

Lemma renderVideos_grid (now : Z) (v : ListView) :
  videosGrid (renderVideos now v) = map (createVideoCard now) (filteredVideos (st v)) /\
  st (renderVideos now v) = st v /\
  emptyState_display (renderVideos now v) =
    (if Nat.eqb (List.length (filteredVideos (st v))) 0 then "block" else "none").
Proof.
  unfold renderVideos. destruct (filteredVideos (st v)); repeat split.
Qed.

(** After a change of the search box or of the sort menu, and whatever
    [toLowerCase] answers, the grid holds one card per video of
    [state.videos] whose lowercased key includes the lowercased search
    term, in the order of [state.filteredVideos]; the text written into a
    card's title element is the file name of its key, as it is (unescaped);
    the empty-state is shown exactly when no video matches; [state.videos]
    is untouched. *)
Theorem listChanged_grid :
  forall (toLowerCase : LowerCase) (now : Z) (v : ListView),
    let v' := listChanged toLowerCase now v in
    let kept := filter (fun w => includes (toLowerCase (key w))
                                          (toLowerCase (searchInput v)))
                       (videos (st v)) in
    map card_video (videosGrid v') = filteredVideos (st v') /\
    map card_title_html (videosGrid v') =
      map (fun w => filename (key w)) (filteredVideos (st v')) /\
    Permutation (map card_video (videosGrid v')) kept /\
    (emptyState_display v' = "block" <-> kept = []) /\
    (emptyState_display v' = "none" <-> kept <> []) /\
    videos (st v') = videos (st v).
Proof.
  intros toLowerCase now v v' kept. subst v'. unfold listChanged.
  destruct (renderVideos_grid now (filterAndSort toLowerCase v)) as (Hg & Hs & He).
  rewrite Hg, Hs, He, !map_map. simpl. fold kept.
  assert (Hperm : Permutation (array_sort (compareFn (sortSelect v)) kept) kept)
    by apply AppFacts.array_sort_perm.
  split; [apply map_id|]. split; [reflexivity|].
  split; [rewrite map_id; exact Hperm|].
  assert (Hlen : List.length (array_sort (compareFn (sortSelect v)) kept)
                 = List.length kept) by (apply Permutation_length, Hperm).
  unfold matches in *. fold kept. rewrite Hlen.
  destruct kept as [|w kept']; simpl; repeat split; intros; congruence.
Qed.

(** *** Loading *)

(** A failed [fetchVideos] (request rejected, status not OK, body not JSON)
    keeps the lists, the grid and the statistics as they were, shows the
    error message and the empty-state, even over a grid that still holds
    cards, and ends with the loading indicator off. *)
Theorem fetchVideos_failure :
  forall (toLowerCase : LowerCase) (now : Z) (resp : VideosResponse) (v : ListView),
    failure resp = true ->
    let v' := fetchVideos toLowerCase now resp v in
    videos (st v') = videos (st v) /\
    filteredVideos (st v') = filteredVideos (st v) /\
    videosGrid v' = videosGrid v /\
    totalVideos v' = totalVideos v /\ totalSize v' = totalSize v /\
    lastUpdate v' = lastUpdate v /\
    error_display v' = "block" /\
    emptyState_display v' = "block" /\
    isLoading (st v') = false /\ loading_display v' = "none".
Proof.
  intros toLowerCase now resp v Hf v'. subst v'.
  destruct resp; try discriminate; repeat split.
Qed.

(** The theorem on an answer with status 500 over a grid of one card. *)
Lemma fetchVideos_failure_witness :
  let v := mkListView (mkState [mkVideo "a.mp4" 1 2] [mkVideo "a.mp4" 1 2] false)
                      "" "newest" [createVideoCard 5 (mkVideo "a.mp4" 1 2)]
                      "none" "none" "" "none" 1 2 "-" None in
  let v' := fetchVideos ascii_toLowerCase 5 (NotOk "500") v in
  videos (st v') = videos (st v) /\
  filteredVideos (st v') = filteredVideos (st v) /\
  videosGrid v' = videosGrid v /\
  totalVideos v' = totalVideos v /\ totalSize v' = totalSize v /\
  lastUpdate v' = lastUpdate v /\
  error_display v' = "block" /\
  emptyState_display v' = "block" /\
  isLoading (st v') = false /\ loading_display v' = "none".
Proof.
  apply (fetchVideos_failure ascii_toLowerCase 5 (NotOk "500")). reflexivity.
Defined.

(** A successful [fetchVideos] replaces [state.videos] by the answer's list
    (the empty list when the answer has none), hides the error, and leaves
    the page consistent: the filtered list is the one of
    [filterAndSortVideos] on the new videos, the grid has one card per
    filtered video in order, the statistics count the new videos, and the
    loading indicator is off. *)
Theorem fetchVideos_success :
  forall (toLowerCase : LowerCase) (now : Z) (vs : option (list Video))
         (v : ListView),
    let v' := fetchVideos toLowerCase now (Body vs) v in
    let vids := match vs with Some l => l | None => [] end in
    videos (st v') = vids /\
    filteredVideos (st v') =
      filteredVideos (filterAndSortVideos toLowerCase
                        (mkElements (searchInput v) (sortSelect v))
                        (mkState vids [] false)) /\
    map card_video (videosGrid v') = filteredVideos (st v') /\
    totalVideos v' = List.length vids /\
    (vids = [] -> videosGrid v' = [] /\ emptyState_display v' = "block" /\
                  lastUpdate v' = None /\ totalSize v' = 0) /\
    error_display v' = "none" /\
    isLoading (st v') = false /\ loading_display v' = "none".
Proof.
  intros toLowerCase now vs v v' vids. subst v'. unfold fetchVideos.
  fold vids. set (v1 := with_error_display "none" (showLoading true v)).
  set (v2 := with_st (mkState vids (filteredVideos (st v1)) (isLoading (st v1))) v1).
  destruct (renderVideos_grid now (updateStatistics now (filterAndSort toLowerCase v2)))
    as (Hg & Hs & He).
  assert (Hgrid : videosGrid (showLoading false
             (renderVideos now (updateStatistics now (filterAndSort toLowerCase v2))))
          = map (createVideoCard now)
                (filteredVideos (st (updateStatistics now (filterAndSort toLowerCase v2)))))
    by exact Hg.
  split; [simpl; rewrite Hs; reflexivity|].
  split; [simpl; rewrite Hs; reflexivity|].
  split; [rewrite Hgrid, map_map; simpl; rewrite Hs; apply map_id|].
  split; [unfold renderVideos;
          destruct (filteredVideos (st (updateStatistics now (filterAndSort toLowerCase v2))));
          reflexivity|].
  split.
  { intros Hv. unfold renderVideos, v2, v1. simpl. rewrite Hv. simpl.
    repeat split. }
  unfold renderVideos.
  destruct (filteredVideos (st (updateStatistics now (filterAndSort toLowerCase v2))));
    repeat split.
Qed.

(** *** The stream badge *)

(** Whatever [/stream/status] answers, the badge is online exactly when the
    answer is an OK response with a truthy [active]; a rejected request, a
    status that is not OK and a body that is no JSON all read as offline;
    and an offline badge shows a dash for detections, frame rate and
    resolution, as does an online one whose answer has no [detections]. *)
Theorem checkStreamStatus_spec :
  forall resp : StatusResponse,
    let b := checkStreamStatus resp in
    (streamStatus b = "online" <->
     exists data, resp = StatusBody data /\ active data = true) /\
    (streamStatus b = "online" \/ streamStatus b = "offline") /\
    (streamStatus b = "offline" ->
     detectionCount b = "-" /\ streamFps b = "-" /\ streamResolution b = "-") /\
    (forall data, resp = StatusBody data -> detections data = None ->
     detectionCount b = "-" /\ streamFps b = "-" /\ streamResolution b = "-").
Proof.
  intros resp b. subst b.
  destruct resp as [| | |[a d f r]]; simpl.
  1-3: repeat split; try discriminate; try (right; reflexivity);
       intros [data [H _]]; discriminate.
  destruct a, d; simpl; repeat split; intros;
    try discriminate; try (left; reflexivity); try (right; reflexivity);
    try (eexists; split; reflexivity);
    try match goal with H : exists _, _ |- _ =>
          destruct H as [? [H1 H2]]; injection H1 as <-; discriminate end;
    try match goal with H : StatusBody _ = StatusBody _ |- _ =>
          injection H as <-; discriminate end.
Qed.

End DashboardFacts.

(** ** kvs-player.js: timers, playing, refreshing *)

Module PlayerOpsFacts.

Import Player PlayerOps.

Lemma running_app (l1 l2 : list Effect) (acc : list positive) :
  running (l1 ++ l2) acc = running l2 (running l1 acc).
Proof.
  revert acc. induction l1 as [|e l1 IH]; intros acc; simpl; [reflexivity|].
  destruct e as [[| |id|id d]| | | | | | |]; apply IH.
Qed.

Lemma page_stop (w : World) : page (stop w) = fst (Player.stop (page w)).
Proof. unfold stop. destruct (Player.stop (page w)). reflexivity. Qed.

Lemma stop_owned (w : World) : timers_owned w -> timers_owned (stop w).
Proof.
  unfold timers_owned, stop, Player.stop. intros H.
  destruct (page w) as [v [c u h t b]] eqn:Ep. simpl in *.
  destruct h, t as [id|]; simpl; rewrite running_app, H; simpl;
    rewrite ?Pos.eqb_refl; reflexivity.
Qed.

Lemma setupRefreshTimer_owned (w : World) :
  timers_owned w -> timers_owned (setupRefreshTimer w).
Proof.
  unfold timers_owned, setupRefreshTimer, Player.setupRefreshTimer. intros H.
  destruct (page w) as [v [c u h t b]] eqn:Ep. simpl in *.
  destruct t as [id|]; simpl; rewrite running_app, H; simpl;
    rewrite ?Pos.eqb_refl; reflexivity.
Qed.

Lemma emit_owned (es : list Effect) (w : World) :
  (forall e, In e es -> match e with Released _ => False | _ => True end) ->
  timers_owned w -> timers_owned (emit es w).
Proof.
  unfold timers_owned. intros Hes H. simpl. rewrite running_app, H.
  clear H. induction es as [|e es IH]; simpl; [reflexivity|].
  pose proof (Hes e (or_introl eq_refl)) as He.
  destruct e; try contradiction; apply IH; intros e' He'; apply Hes; right; exact He'.
Qed.

Lemma play_owned (B : Browser) (ep : Endpoint) (w : World) :
  timers_owned w -> timers_owned (fst (play B ep w)).
Proof.
  intros H. unfold play.
  assert (H0 : timers_owned (emit [FetchHlsUrl (streamName (config (kvs (page w))))] w))
    by (apply emit_owned; [intros e [<-|[]]; exact I | exact H]).
  destruct ep as [m|s|m|u]; try exact H0.
  destruct (Hls_isSupported B); [|destruct (canPlayType_hls B)]; simpl fst.
  - apply setupRefreshTimer_owned.
    unfold timers_owned in *. simpl in *.
    rewrite !running_app in *. simpl. exact H0.
  - apply setupRefreshTimer_owned.
    unfold timers_owned in *. simpl in *.
    rewrite !running_app in *. simpl. exact H0.
  - exact H0.
Qed.

Lemma refresh_owned (B : Browser) (ep : Endpoint) (w : World) :
  timers_owned w -> timers_owned (refresh B ep w).
Proof.
  intros H. unfold refresh.
  assert (H0 : timers_owned (emit [FetchHlsUrl (streamName (config (kvs (page w))))] w))
    by (apply emit_owned; [intros e [<-|[]]; exact I | exact H]).
  destruct ep as [m|s|m|u]; try exact H0.
  destruct (same_url _ _); [exact H0|].
  unfold timers_owned in *. simpl in *.
  destruct (hls (kvs (page w))); [destruct (canPlayType_hls B)| destruct (canPlayType_hls B)|];
    simpl; rewrite ?running_app in *; simpl; exact H0.
Qed.

Lemma apply_owned (B : Browser) (w : World) (op : Op) :
  timers_owned w -> timers_owned (apply B w op).
Proof.
  intros H. destruct op as [ep| |fatal ty|ep]; simpl.
  - apply play_owned, H.
  - apply stop_owned, H.
  - unfold onHlsError, handleError. destruct fatal; [|exact H].
    destruct ty; [| |apply stop_owned, H];
      (destruct (truthy _); [apply emit_owned; [intros e [<-|[]]; exact I | exact H]
                            | exact H]).
  - apply refresh_owned, H.
Qed.

(** Whatever sequence of [play()], [stop()], HLS.js errors and refresh
    callbacks a new player goes through, the interval timers still running
    are exactly the one held in [refreshTimer]: none when it is [null], and
    never a second one.  After a final [stop()] no timer of the player is
    running. *)
Theorem no_timer_leak :
  forall (B : Browser) (v : VideoElement) (first_id : positive) (ops : list Op),
    let w := fold_left (apply B) ops (fresh v first_id) in
    running (log w) [] = owned (kvs (page w)) /\
    (List.length (running (log w) []) <= 1)%nat /\
    running (log (stop w)) [] = [].
Proof.
  intros B v first_id ops w.
  assert (H : timers_owned w).
  { subst w. generalize (fresh v first_id) (eq_refl : timers_owned (fresh v first_id)).
    induction ops as [|op ops IH]; intros w0 H0; simpl; [exact H0|].
    apply IH, apply_owned, H0. }
  split; [exact H|]. split.
  - rewrite H. unfold owned. destruct (refreshTimer _); simpl; lia.
  - pose proof (stop_owned w H) as Hs. unfold timers_owned in Hs. rewrite Hs.
    unfold owned. rewrite page_stop, PlayerFacts.stop_clears_timer. reflexivity.
Qed.

(** [play()] throws exactly when the endpoint request fails or the browser
    has neither HLS.js nor native HLS.  When it throws, the playing flag,
    the Hls object, the refresh timer and the video element are as before
    and no timer was started.  When it returns, the player is playing,
    holds the URL the endpoint answered (none at all when the answer had no
    [hlsUrl]) and a new refresh timer. *)
Theorem play_outcome :
  forall (B : Browser) (ep : Endpoint) (w : World),
    let w' := fst (play B ep w) in
    let thrown := snd (play B ep w) in
    (thrown = None <->
     (exists u, ep = EndpointUrl u) /\
     Hls_isSupported B || canPlayType_hls B = true) /\
    (thrown = None ->
     playing (kvs (page w')) = true /\
     refreshTimer (kvs (page w')) = Some (next_id w) /\
     ep = EndpointUrl (hlsUrl (kvs (page w')))) /\
    (thrown <> None ->
     playing (kvs (page w')) = playing (kvs (page w)) /\
     hls (kvs (page w')) = hls (kvs (page w)) /\
     refreshTimer (kvs (page w')) = refreshTimer (kvs (page w)) /\
     video (page w') = video (page w) /\
     running (log w') [] = running (log w) []).
Proof.
  intros B ep w w' thrown. subst w' thrown. unfold play.
  destruct ep as [m|s|m|u]; simpl.
  1-3: split; [split; [discriminate | intros [[u Hu] _]; discriminate]|];
       split; [discriminate|]; intros _; repeat split;
       rewrite running_app; reflexivity.
  destruct (Hls_isSupported B); [|destruct (canPlayType_hls B)]; simpl.
  - split; [split; [eauto | reflexivity]|]. split; [|congruence].
    intros _. destruct (refreshTimer (kvs (page w))); repeat split.
  - split; [split; [eauto | reflexivity]|]. split; [|congruence].
    intros _. destruct (refreshTimer (kvs (page w))); repeat split.
  - split; [split; [discriminate | intros [_ H]; discriminate]|].
    split; [discriminate|]. intros _. repeat split.
    rewrite running_app. reflexivity.
Qed.

Lemma same_url_eq (a b : option string) : same_url a b = true -> a = b.
Proof.
  destruct a, b; simpl; try discriminate; try reflexivity.
  intros H. apply String.eqb_eq in H. now subst.
Qed.

(** A run of the refresh callback never touches the playing flag or the
    timer.  When the endpoint request fails the player and the video
    element stay as they are; when it answers, the player holds the
    answered URL afterwards, and an answer equal to the URL already held
    changes nothing and reloads nothing. *)
Theorem refresh_spec :
  forall (B : Browser) (ep : Endpoint) (w : World),
    let w' := refresh B ep w in
    playing (kvs (page w')) = playing (kvs (page w)) /\
    refreshTimer (kvs (page w')) = refreshTimer (kvs (page w)) /\
    next_id w' = next_id w /\
    (endpoint_error ep <> None -> page w' = page w) /\
    (forall u, ep = EndpointUrl u ->
       hlsUrl (kvs (page w')) = u /\
       (same_url u (hlsUrl (kvs (page w))) = true ->
        page w' = page w /\
        log w' = (log w ++ [FetchHlsUrl (streamName (config (kvs (page w))))])%list)).
Proof.
  intros B ep w w'. subst w'. unfold refresh.
  destruct ep as [m|s|m|u]; simpl.
  1-3: repeat split; intros; discriminate.
  destruct (same_url u (hlsUrl (kvs (page w)))) eqn:Es.
  - apply same_url_eq in Es.
    split; [reflexivity|]. split; [reflexivity|]. split; [reflexivity|].
    split; [reflexivity|].
    intros u' Hu. injection Hu as <-. split; [simpl; congruence|].
    intros _. split; reflexivity.
  - destruct (hls (kvs (page w))) eqn:Eh; [destruct (canPlayType_hls B)|
                                           destruct (canPlayType_hls B)|];
      simpl; repeat split; try congruence;
      try (intros u' Hu; injection Hu as <-; split; [reflexivity | discriminate]).
Qed.

End PlayerOpsFacts.

(** ** kvs-integration-simple.js: stopping, switching modes, the default range *)

Module LiveUiFacts.

Import Player Integration LiveUi.

(** *** [formatDateTimeLocal] *)

Lemma all_below_spec (f : N -> bool) (n : N) :
  all_below f n = true -> forall k, (k < n)%N -> f k = true.
Proof.
  unfold all_below. induction n as [|n IH] using N.peano_ind; intros H k Hk; [lia|].
  rewrite N.peano_rect_succ in H. apply andb_true_iff in H as [Hn H].
  destruct (N.eq_dec k n) as [->|Hne]; [exact Hn|].
  apply IH; [exact H | lia].
Qed.

Lemma decimal_year (n : N) :
  (1000 <= n <= 9999)%N -> String.length (decimal n) = 4%nat.
Proof.
  intros H.
  assert (Hall : all_below (fun k => (k <? 1000)%N ||
                                     Nat.eqb (String.length (decimal k)) 4) 10000 = true)
    by (vm_compute; reflexivity).
  pose proof (all_below_spec _ _ Hall n ltac:(lia)) as Hn. simpl in Hn.
  apply orb_true_iff in Hn as [Hn|Hn]; [apply N.ltb_lt in Hn; lia|].
  now apply Nat.eqb_eq.
Qed.

Lemma padded_two (n : N) :
  (n <= 99)%N -> String.length (padStart 2 (decimal n)) = 2%nat.
Proof.
  intros H.
  assert (Hall : all_below (fun k => Nat.eqb (String.length (padStart 2 (decimal k))) 2)
                           100 = true)
    by (vm_compute; reflexivity).
  pose proof (all_below_spec _ _ Hall n ltac:(lia)) as Hn. simpl in Hn.
  now apply Nat.eqb_eq.
Qed.

Lemma length_append (a b : string) :
  String.length (a ++ b) = (String.length a + String.length b)%nat.
Proof. induction a as [|c a IH]; simpl; [reflexivity | now rewrite IH]. Qed.

Lemma get_after (a b : string) (n k m : nat) :
  String.length a = n -> m = (n + k)%nat -> String.get m (a ++ b) = String.get k b.
Proof.
  intros <- ->. rewrite (append_correct2 a b k). f_equal. lia.
Qed.

(** For a date whose local year has four digits, [formatDateTimeLocal]
    answers sixteen characters in the shape a datetime-local input takes:
    [YYYY-MM-DDTHH:MM], with the dashes, the [T] and the colon in their
    places and month, day, hours and minutes padded to two digits. *)
Theorem formatDateTimeLocal_shape :
  forall (T : LocalTime) (date : Z),
    (1000 <= getFullYear T date <= 9999)%N ->
    (getMonth T date <= 11)%N ->
    (getDate T date <= 31)%N ->
    (getHours T date <= 23)%N ->
    (getMinutes T date <= 59)%N ->
    let s := formatDateTimeLocal T date in
    String.length s = 16%nat /\
    String.get 4 s = Some "-"%char /\
    String.get 7 s = Some "-"%char /\
    String.get 10 s = Some "T"%char /\
    String.get 13 s = Some ":"%char.
Proof.
  intros T date Hy Hmo Hd Hh Hmi s. subst s. unfold formatDateTimeLocal.
  pose proof (decimal_year _ Hy) as Ly.
  pose proof (padded_two (getMonth T date + 1) ltac:(lia)) as Lmo.
  pose proof (padded_two (getDate T date) ltac:(lia)) as Ld.
  pose proof (padded_two (getHours T date) ltac:(lia)) as Lh.
  pose proof (padded_two (getMinutes T date) ltac:(lia)) as Lmi.
  set (y := decimal (getFullYear T date)) in *.
  set (mo := padStart 2 (decimal (getMonth T date + 1)%N)) in *.
  set (d := padStart 2 (decimal (getDate T date))) in *.
  set (h := padStart 2 (decimal (getHours T date))) in *.
  set (mi := padStart 2 (decimal (getMinutes T date))) in *.
  split.
  { repeat (progress (rewrite ?length_append; simpl)). lia. }
  split; [rewrite (get_after y _ 4 0 4 Ly eq_refl); reflexivity|].
  split.
  { rewrite (get_after y _ 4 3 7 Ly eq_refl). simpl.
    rewrite (get_after mo _ 2 0 2 Lmo eq_refl). reflexivity. }
  split.
  { rewrite (get_after y _ 4 6 10 Ly eq_refl). simpl.
    rewrite (get_after mo _ 2 3 5 Lmo eq_refl). simpl.
    rewrite (get_after d _ 2 0 2 Ld eq_refl). reflexivity. }
  rewrite (get_after y _ 4 9 13 Ly eq_refl). simpl.
  rewrite (get_after mo _ 2 6 8 Lmo eq_refl). simpl.
  rewrite (get_after d _ 2 3 5 Ld eq_refl). simpl.
  rewrite (get_after h _ 2 0 2 Lh eq_refl). reflexivity.
Qed.

(** The theorem on the demonstration clock. *)
Lemma formatDateTimeLocal_shape_witness :
  let s := formatDateTimeLocal demo_LocalTime demo_now in
  String.length s = 16%nat /\
  String.get 4 s = Some "-"%char /\
  String.get 7 s = Some "-"%char /\
  String.get 10 s = Some "T"%char /\
  String.get 13 s = Some ":"%char.
Proof.
  apply (formatDateTimeLocal_shape demo_LocalTime demo_now); vm_compute;
    try split; congruence.
Defined.

(** *** [stopStream] and the mode switch *)

Lemma stopStream_state (ui : Ui) (v : VideoElement) :
  videoElement (elements (world ui)) = Some v ->
  isPlaying (state (world (stopStream ui))) = false /\
  streamMode (state (world (stopStream ui))) = streamMode (state (world ui)) /\
  kvsPlayer (state (world (stopStream ui))) =
    match kvsPlayer (state (world ui)) with
    | Some p => Some (kvs (fst (stop (mkPage v p))))
    | None => None
    end /\
  videoElement (elements (world (stopStream ui))) =
    match kvsPlayer (state (world ui)) with
    | Some p => Some (video (fst (stop (mkPage v p))))
    | None => Some v
    end.
Proof.
  intros Hv. unfold stopStream. rewrite Hv.
  destruct (kvsPlayer (state (world ui))) as [p|] eqn:Ep.
  - destruct (stop (mkPage v p)) as [pg es] eqn:Es. simpl. repeat split.
  - simpl. rewrite Ep, Hv. repeat split.
Qed.

(** On a page that has its video element, [stopStream] leaves nothing
    playing: [state.isPlaying] is false, and the player, if there is one,
    has its playing flag off, no refresh timer and no Hls object.  In live
    mode the start button is enabled and set to start the stream again; in
    time-range mode the button is left as it is.  On a page without the
    video element [stopStream] changes nothing, [state.isPlaying]
    included. *)
Theorem stopStream_spec :
  forall ui : Ui,
    let ui' := stopStream ui in
    (videoElement (elements (world ui)) = None -> ui' = ui) /\
    (videoElement (elements (world ui)) <> None ->
     isPlaying (state (world ui')) = false /\
     (forall p, kvsPlayer (state (world ui')) = Some p ->
                playing p = false /\ refreshTimer p = None /\ truthy (hls p) = false) /\
     (kvsPlayer (state (world ui')) = None <-> kvsPlayer (state (world ui)) = None) /\
     (streamMode (state (world ui)) = Live ->
      startBtn_disabled (controls ui') = false /\
      startBtn_onclick (controls ui') = Some StartLiveStream) /\
     (streamMode (state (world ui)) = TimeRange -> controls ui' = controls ui)).
Proof.
  intros ui ui'. subst ui'. split.
  - intros Hv. unfold stopStream. rewrite Hv. reflexivity.
  - intros Hv. destruct (videoElement (elements (world ui))) as [v|] eqn:Ev;
      [clear Hv | contradiction].
    destruct (stopStream_state ui v Ev) as (Hp & Hm & Hk & _).
    split; [exact Hp|]. split; [|split; [|split]].
    + intros p Hpl. rewrite Hk in Hpl.
      destruct (kvsPlayer (state (world ui))) as [p0|]; [|discriminate].
      injection Hpl as <-.
      pose proof (PlayerFacts.stop_hls (mkPage v p0)) as Hh.
      pose proof (PlayerFacts.stop_clears_timer (mkPage v p0)) as Ht.
      split; [|split; [exact Ht|]].
      * destruct p0 as [c u h t b]; destruct h, t; reflexivity.
      * rewrite Hh. simpl. destruct (hls p0); reflexivity.
    + rewrite Hk. destruct (kvsPlayer (state (world ui))); split; congruence.
    + intros Hl. unfold stopStream. rewrite Ev.
      destruct (kvsPlayer (state (world ui))) as [p|];
        [destruct (stop (mkPage v p))|]; simpl; rewrite Hl; split; reflexivity.
    + intros Hl. unfold stopStream. rewrite Ev.
      destruct (kvsPlayer (state (world ui))) as [p|];
        [destruct (stop (mkPage v p))|]; simpl; rewrite Hl; reflexivity.
Qed.

(** Switching the mode records the mode, shows the controls of that mode
    and, on a page with its video element or with nothing marked playing,
    leaves [state.isPlaying] false: a stream is never carried over into
    the other mode.  Switching to time-range fills in the last ten minutes
    as seen by the local clock; switching to live leaves the two inputs
    alone. *)
Theorem handleStreamModeChange_spec :
  forall (T : LocalTime) (now : Z) (mode : StreamMode) (ui : Ui),
    let ui' := handleStreamModeChange T now mode ui in
    let e := elements (world ui) in
    let e' := elements (world ui') in
    streamMode (state (world ui')) = mode /\
    (videoElement e <> None \/ isPlaying (state (world ui)) = false ->
     isPlaying (state (world ui')) = false) /\
    (mode = TimeRange ->
     endTimeInput_value e' = formatDateTimeLocal T now /\
     startTimeInput_value e' = formatDateTimeLocal T (now - 600000) /\
     timeRangeControls_display (controls ui') = "flex" /\
     startBtn_display (controls ui') = "none") /\
    (mode = Live ->
     endTimeInput_value e' = endTimeInput_value e /\
     startTimeInput_value e' = startTimeInput_value e /\
     timeRangeControls_display (controls ui') = "none" /\
     startBtn_display (controls ui') = "inline-block").
Proof.
  intros T now mode ui ui' e e'. subst ui' e e'.
  unfold handleStreamModeChange, stopStream.
  destruct mode; simpl;
    destruct (isPlaying (state (world ui))) eqn:Ep; simpl;
    destruct (videoElement (elements (world ui))) as [v|] eqn:Ev; simpl;
    try (destruct (kvsPlayer (state (world ui))) as [p|] eqn:Ek;
         [destruct (stop (mkPage v p)) as [pg es]|]; simpl);
    repeat split; try discriminate; try reflexivity;
    intros [H|H]; congruence.
Qed.

(** *** The default range *)

Lemma switched_range (T : LocalTime) (now : Z) (ui : Ui) :
  let e' := elements (world (handleStreamModeChange T now TimeRange ui)) in
  endTimeInput_value e' = formatDateTimeLocal T now /\
  startTimeInput_value e' = formatDateTimeLocal T (now - 600000).
Proof.
  unfold handleStreamModeChange, stopStream. simpl.
  destruct (isPlaying (state (world ui))); [|split; reflexivity].
  destruct (videoElement (elements (world ui))) as [v|]; [|split; reflexivity].
  destruct (kvsPlayer (state (world ui))) as [p|];
    [destruct (stop (mkPage v p)) as [pg es]|]; split; reflexivity.
Qed.

Lemma not_empty (a b : string) (c : ascii) : String.eqb (a ++ String c b) "" = false.
Proof. destruct a; reflexivity. Qed.

Lemma formatDateTimeLocal_not_empty (T : LocalTime) (date : Z) :
  String.eqb (formatDateTimeLocal T date) "" = false.
Proof. unfold formatDateTimeLocal. apply not_empty. Qed.

Lemma fetches_emit (e : Effect) (w : World) :
  filter is_fetch (effects (emit e w)) = (filter is_fetch (effects w) ++ filter is_fetch [e])%list.
Proof. unfold emit. simpl. apply filter_app. Qed.

Lemma startPlayback_fetches (B : Browser) (url : string) (s e : Z) (w : World) :
  filter is_fetch (effects (fst (startPlayback B url s e w))) = filter is_fetch (effects w).
Proof.
  unfold startPlayback, playCatch.
  repeat match goal with
         | |- context [match ?x with _ => _ end] =>
             match x with
             | context [match _ with _ => _ end] => fail 1
             | _ => destruct x eqn:?
             end
         end; simpl; rewrite ?filter_app; simpl; rewrite ?app_nil_r; try reflexivity.
Qed.

Lemma catchBlock_fetches (m : string) (w : World) :
  filter is_fetch (effects (catchBlock m w)) = filter is_fetch (effects w).
Proof.
  unfold catchBlock. rewrite fetches_emit. simpl. apply app_nil_r.
Qed.

(** Past its guards, [startTimeRangePlayback] sends exactly one request,
    for the parsed range, whatever comes back. *)
Lemma accepted_range_fetches (cfg : CONFIG) (B : Browser) (w : World) (s e : Z) :
  String.eqb (startTimeInput_value (elements w)) "" = false ->
  String.eqb (endTimeInput_value (elements w)) "" = false ->
  Date_parse B (startTimeInput_value (elements w)) = Some s ->
  Date_parse B (endTimeInput_value (elements w)) = Some e ->
  s < e -> s <= now B ->
  filter is_fetch (effects (startTimeRangePlayback cfg B w)) =
  (filter is_fetch (effects w) ++
   [Fetch (apiUrl cfg (toISOString B s) (toISOString B e))])%list.
Proof.
  intros Hs He Ps Pe Hlt Hnow.
  unfold startTimeRangePlayback, tryBlock. rewrite Hs, He, Ps, Pe. simpl.
  destruct (Z.leb_spec e s); [lia|]. destruct (Z.ltb_spec (now B) s); [lia|].
  set (url := apiUrl cfg (toISOString B s) (toISOString B e)).
  set (w2 := match kvsPlayer (state (set_elements with_connecting w)) with
             | Some _ => set_elements with_connecting w
             | None => initKVSPlayer cfg (set_elements with_connecting w)
             end).
  assert (Hw2 : effects w2 = effects w).
  { subst w2. unfold initKVSPlayer. simpl.
    destruct (kvsPlayer (state w)); [reflexivity|].
    destruct (videoElement (elements w)); reflexivity. }
  assert (H3 : filter is_fetch (effects (emit (Fetch url) w2)) =
               (filter is_fetch (effects w) ++ [Fetch url])%list)
    by (rewrite fetches_emit, Hw2; reflexivity).
  destruct (fetch B url) as [m|[|] status [b|]];
    try (rewrite catchBlock_fetches; exact H3).
  destruct (body_hlsUrl b) as [hlsUrl|];
    [|rewrite catchBlock_fetches; exact H3].
  match goal with
  | |- context [startPlayback B hlsUrl s e ?x] =>
      pose proof (startPlayback_fetches B hlsUrl s e x) as Hp;
      assert (Hx : filter is_fetch (effects x) =
                   (filter is_fetch (effects w) ++ [Fetch url])%list) by exact H3;
      destruct (startPlayback B hlsUrl s e x) as [w' [|m]]
  end; rewrite ?catchBlock_fetches; simpl in Hp; rewrite Hp; exact Hx.
Qed.

(** The range the mode switch fills in is one [startTimeRangePlayback]
    accepts.  When the parser reads a formatted time back as that time cut
    to the minute, applying the untouched default, at the same moment or
    later, passes every guard and requests exactly the ten minutes up to the
    minute of the switch, in one request. *)
Theorem default_range_is_requested :
  forall (cfg : CONFIG) (T : LocalTime) (B : Browser) (now : Z) (ui : Ui),
    Date_parse B (formatDateTimeLocal T now) = Some (60000 * (now / 60000)) ->
    Date_parse B (formatDateTimeLocal T (now - 600000))
      = Some (60000 * ((now - 600000) / 60000)) ->
    now <= Integration.now B ->
    let ui' := handleStreamModeChange T now TimeRange ui in
    let e := 60000 * (now / 60000) in
    filter is_fetch (effects (startTimeRangePlayback cfg B (world ui'))) =
    (filter is_fetch (effects (world ui)) ++
     [Fetch (apiUrl cfg (toISOString B (e - 600000)) (toISOString B e))])%list.
Proof.
  intros cfg T B now ui Pe Ps Hnow ui' e. subst ui' e.
  destruct (switched_range T now ui) as (Hend & Hstart).
  assert (Hdiv : (now - 600000) / 60000 = now / 60000 - 10).
  { replace (now - 600000) with (now + (-10) * 60000) by lia.
    rewrite Z.div_add by lia. lia. }
  pose proof (Z.mul_div_le now 60000 ltac:(lia)) as Hle.
  rewrite (accepted_range_fetches cfg B _ (60000 * (now / 60000) - 600000)
                                  (60000 * (now / 60000))).
  - f_equal. unfold handleStreamModeChange, stopStream. simpl.
    destruct (isPlaying (state (world ui))); [|reflexivity].
    destruct (videoElement (elements (world ui))) as [v|]; [|reflexivity].
    destruct (kvsPlayer (state (world ui))) as [p|];
      [destruct (stop (mkPage v p)) as [pg es]|]; simpl;
      rewrite ?filter_app; simpl; rewrite ?app_nil_r; reflexivity.
  - rewrite Hstart. apply formatDateTimeLocal_not_empty.
  - rewrite Hend. apply formatDateTimeLocal_not_empty.
  - rewrite Hstart, Ps, Hdiv. f_equal. lia.
  - rewrite Hend. exact Pe.
  - lia.
  - lia.
Qed.

(** The theorem on the demonstration page, switched at half a minute past
    nine and applied at once. *)
Lemma default_range_is_requested_witness :
  filter is_fetch
    (effects (startTimeRangePlayback demo_CONFIG demo_Browser
                (world (handleStreamModeChange demo_LocalTime demo_now TimeRange demo_Ui)))) =
  (filter is_fetch (effects (world demo_Ui)) ++
   [Fetch (apiUrl demo_CONFIG
             (toISOString demo_Browser (60000 * (demo_now / 60000) - 600000))
             (toISOString demo_Browser (60000 * (demo_now / 60000))))])%list.
Proof.
  apply (default_range_is_requested demo_CONFIG demo_LocalTime demo_Browser
           demo_now demo_Ui); vm_compute; congruence.
Defined.

(** *** Every way out of [startTimeRangePlayback] *)

Ltac cases :=
  repeat match goal with
         | |- context [match ?x with _ => _ end] =>
             match x with
             | context [match _ with _ => _ end] => fail 1
             | _ => destruct x eqn:?
             end
         | |- context [if ?x then _ else _] =>
             match x with
             | context [if _ then _ else _] => fail 1
             | context [match _ with _ => _ end] => fail 1
             | _ => destruct x eqn:?
             end
         end.

(** However [startTimeRangePlayback] ends, it has sent at most one request
    and shown at most one alert.  Without an alert the range is playing:
    one request went out, [state.isPlaying] is true and the apply button is
    enabled.  With an alert there are two cases.  Either the function
    stopped at a guard or in its [catch] block: then [state.isPlaying] is
    what it was, and the apply button is enabled again unless the function
    returned at a guard, which leaves every element as it was.  Or the
    browser rejected the [play()] of the native path: then the alert comes
    last, over a page already switched to playing, one request went out and
    [state.isPlaying] is true all the same. *)
Theorem startTimeRangePlayback_ways_out :
  forall (cfg : CONFIG) (B : Browser) (w : World),
    let w' := startTimeRangePlayback cfg B w in
    exists new,
      effects w' = (effects w ++ new)%list /\
      (List.length (filter is_fetch new) <= 1)%nat /\
      (List.length (filter is_alert new) <= 1)%nat /\
      (filter is_alert new = [] ->
       List.length (filter is_fetch new) = 1%nat /\
       isPlaying (state w') = true /\
       applyTimeRangeBtn_disabled (elements w') = false) /\
      (filter is_alert new <> [] ->
       (isPlaying (state w') = isPlaying (state w) /\
        (applyTimeRangeBtn_disabled (elements w') = false \/
         elements w' = elements w)) \/
       (Hls_isSupported B = false /\
        (exists m before,
            play_rejected B = Some m /\
            new = (before ++ [VideoPlay; Alert ("動画の再生に失敗しました: " ++ m)])%list) /\
        List.length (filter is_fetch new) = 1%nat /\
        isPlaying (state w') = true /\
        applyTimeRangeBtn_disabled (elements w') = false /\
        statusBadge_text (elements w') = "再生中")).
Proof.
  intros cfg B w w'. subst w'.
  unfold startTimeRangePlayback, tryBlock, startPlayback, playCatch, catchBlock,
    initKVSPlayer.
  cases; simpl in *;
    repeat match goal with
           | H : (_, _) = (_, _) |- _ => injection H as <- <-
           | H : (_, _) = (_, _) |- _ => injection H as ? ?; subst
           end;
    try discriminate;
    (eexists; split;
     [ simpl; rewrite <- ?app_assoc; simpl; reflexivity
     | simpl; repeat split; intros; try lia; try congruence; try reflexivity;
       try contradiction;
       first [ left; split; [reflexivity | (left; reflexivity) || (right; reflexivity)]
             | right; repeat split; try reflexivity;
               eexists; eexists; split; [reflexivity|];
               first [ instantiate (1 := []); reflexivity
                     | instantiate (1 := [_]); reflexivity
                     | instantiate (1 := [_; _]); reflexivity
                     | instantiate (1 := [_; _; _]); reflexivity ]
             | idtac ] ]).
Qed.

(** On a browser with native HLS only that will not start the playback by
    itself, the user is alerted and the page says playing. *)
Example rejected_play_still_playing :
  let B := mkBrowser 1736503200000 demo_parse (fun _ => "t") (fun _ => "09:00")
                     (fun _ => "10:00:00") false true
                     (fun _ => Response true "200"
                                 (Some (mkBody (Some "https://kvs.example/range.m3u8")
                                               None None)))
                     (Some "NotAllowedError") in
  let w' := startTimeRangePlayback demo_CONFIG B
              (demo_World "2025-01-10T09:00" "2025-01-10T09:10") in
  filter is_alert (effects w') = [Alert "動画の再生に失敗しました: NotAllowedError"] /\
  isPlaying (state w') = true /\
  statusBadge_text (elements w') = "再生中".
Proof. repeat split. Qed.

End LiveUiFacts.
